(** * Invoice import pipeline of the upload component

    A shallow embedding of the client-side import logic of
    [src/components/UploadPage/InvoiceViewer.tsx]: the CSV parser, the row
    validator, the batch importer with its job bookkeeping, the file
    picker's extension filter, the cascade deletion of an uploaded file,
    the attaching of a PDF to an invoice record and its detaching, the
    pages of the invoice table and the name shown for a stored file.

    Conventions.  A JavaScript string is a [string]: a sequence of code
    units, here restricted to the range 0..255.  A JavaScript object used
    as a dictionary is a [gmap string string].  Calls to the managed
    backend are answered by an explicit record of responses, and every
    call that is issued is appended to a log of events.  The progress
    display, the console output, the refresh signals sent to the sibling
    views and the timestamps are left out.

    The file has three parts: the functions of the component, the
    vocabulary in which their properties are stated together with sample
    inputs, and the properties with their proofs. *)

From Stdlib Require Import ZArith NArith Ascii String List Bool Lia Permutation.
From Stdlib Require Import DecimalString.
From stdpp Require Import base option list gmap strings.
From Equations Require Import Equations.

Import ListNotations.
Local Open Scope string_scope.
Local Open Scope list_scope.
Local Open Scope bool_scope.

(* ===================================================================== *)
(** * The fragment of the JavaScript string API that the component uses   *)
(* ===================================================================== *)

Module JS.

Definition chr (n : nat) : ascii := ascii_of_nat n.

Definition LF : ascii := chr 10.
Definition comma : ascii := chr 44.
Definition dquote : ascii := chr 34.

(** [WhiteSpace] and [LineTerminator] code units below 256: TAB, LF, VT,
    FF, CR, SP and NBSP. *)
Definition isWhiteSpace (c : ascii) : bool :=
  let n := nat_of_ascii c in
  ((9 <=? n)%nat && (n <=? 13)%nat) || (n =? 32)%nat || (n =? 160)%nat.

Fixpoint trimStart (s : string) : string :=
  match s with
  | EmptyString => EmptyString
  | String c r => if isWhiteSpace c then trimStart r else s
  end.

Fixpoint rev_string (s acc : string) : string :=
  match s with
  | EmptyString => acc
  | String c r => rev_string r (String c acc)
  end.

Definition reverse_string (s : string) : string := rev_string s EmptyString.

Definition trimEnd (s : string) : string :=
  reverse_string (trimStart (reverse_string s)).

(** [String.prototype.trim] *)
Definition trim (s : string) : string := trimEnd (trimStart s).

(** [s.split(sep)] for a one-character separator. *)
Fixpoint split (sep : ascii) (s : string) : list string :=
  match s with
  | EmptyString => [EmptyString]
  | String c r =>
      if Ascii.eqb c sep then EmptyString :: split sep r
      else match split sep r with
           | h :: t => String c h :: t
           | [] => [String c EmptyString]
           end
  end.

(** [s.replace(/c/g, '')]: every occurrence of the character is dropped. *)
Fixpoint remove_all (c : ascii) (s : string) : string :=
  match s with
  | EmptyString => EmptyString
  | String d r => if Ascii.eqb d c then remove_all c r else String d (remove_all c r)
  end.

(** A string in a boolean position: only the empty string is falsy. *)
Definition truthy (s : string) : bool :=
  match s with EmptyString => false | _ => true end.

(** A possibly missing property in a boolean position. *)
Definition truthy_opt (o : option string) : bool :=
  match o with Some s => truthy s | None => false end.

Definition upper_char (c : ascii) : ascii :=
  let n := nat_of_ascii c in
  if (97 <=? n)%nat && (n <=? 122)%nat then ascii_of_nat (n - 32) else c.

Definition lower_char (c : ascii) : ascii :=
  let n := nat_of_ascii c in
  if (65 <=? n)%nat && (n <=? 90)%nat then ascii_of_nat (n + 32) else c.

(** [toUpperCase] / [toLowerCase] on the ASCII letters; the other code
    units are kept.  The results are only compared with the currency
    codes and the file extensions, and no code unit from 128 up changes
    the outcome of those comparisons. *)
Fixpoint toUpperCase (s : string) : string :=
  match s with
  | EmptyString => EmptyString
  | String c r => String (upper_char c) (toUpperCase r)
  end.

Fixpoint toLowerCase (s : string) : string :=
  match s with
  | EmptyString => EmptyString
  | String c r => String (lower_char c) (toLowerCase r)
  end.

(** [s.endsWith(suffix)] *)
Definition endsWith (s suffix : string) : bool :=
  let n := String.length s in
  let k := String.length suffix in
  (k <=? n)%nat && String.eqb (substring (n - k) k s) suffix.

(** [String(n)] for a non-negative integer. *)
Definition of_nat (n : nat) : string := NilZero.string_of_uint (Nat.to_uint n).

(** [xs.join(sep)] *)
Fixpoint join (sep : string) (xs : list string) : string :=
  match xs with
  | [] => EmptyString
  | [x] => x
  | x :: rest => x ++ sep ++ join sep rest
  end.

(** [a <= b] and [a < b] on strings: code units compared from the left. *)
Definition str_le (a b : string) : bool := String.leb a b.
Definition str_lt (a b : string) : bool := String.ltb a b.

End JS.

(* ===================================================================== *)
(** * parseCSV                                                            *)
(* ===================================================================== *)

Module Csv.
Import JS.

(** [interface CsvRow { [key: string]: string }] *)
Abbreviation CsvRow := (gmap string string).

(** [row[header] = v] on an object literal: the key [__proto__] reaches
    the inherited setter, which ignores a string, so no property is
    created for it. *)
Definition set_prop (row : CsvRow) (header v : string) : CsvRow :=
  if String.eqb header "__proto__" then row else <[header := v]> row.

(** [h.trim().replace(/QUOTE/g, '')], QUOTE being the double-quote
    character: trimmed first, then every double quote is dropped. *)
Definition clean (field : string) : string := remove_all dquote (trim field).

(** [values[index] || ''] *)
Definition value_at (values : list string) (index : nat) : string :=
  match values !! index with
  | Some v => if truthy v then v else EmptyString
  | None => EmptyString
  end.

(** [headers.forEach((header, index) => { row[header] = values[index] || '' })],
    started at position [index]. *)
Fixpoint fill (headers : list string) (index : nat) (values : list string)
  (row : CsvRow) : CsvRow :=
  match headers with
  | [] => row
  | header :: rest =>
      fill rest (S index) values (set_prop row header (value_at values index))
  end.

Definition parse_line (headers : list string) (line : string) : CsvRow :=
  let values := map clean (split comma line) in
  fill headers 0 values ∅.

Definition nonblank_lines (csvText : string) : list string :=
  filter (fun line => Is_true (truthy (trim line))) (split LF csvText).

Definition parseCSV (csvText : string) : list CsvRow :=
  let lines := nonblank_lines csvText in
  if (length lines <? 2)%nat then []
  else
    match lines with
    | [] => []
    | first :: data =>
        let headers := map clean (split comma first) in
        map (parse_line headers) data
    end.

End Csv.

(* ===================================================================== *)
(** * Numbers: what parseFloat returns and how the validator tests it     *)
(* ===================================================================== *)

Module Num.
Import JS.

(** A Number, as far as the importer looks at one.  [Decimal neg m e] is
    the Number value for the decimal [(-1)^neg * m * 10^e]: the double
    nearest to it (ties to even), which is a zero when the decimal is at
    most [2^-1075] in magnitude and an infinity when it is at least
    [2^1024 - 2^970].  The digits are kept as they were read; the
    importer only asks whether the number is NaN and how it compares
    with zero. *)
Inductive number : Type :=
| NaN
| Infinity (negative : bool)
| Decimal (negative : bool) (digits : N) (exponent : Z).

Definition zero : number := Decimal false 0%N 0%Z.

(** The decimal [m * 10^e] is at most [2^-1075]: its double is a zero. *)
Definition rounds_to_zero (m : N) (e : Z) : bool :=
  (m =? 0)%N ||
  ((e <? 0)%Z && (Z.of_N m * 2 ^ 1075 <=? 10 ^ (- e))%Z).

(** The decimal [m * 10^e] is at least [2^1024 - 2^970]: its double is
    an infinity. *)
Definition rounds_to_infinity (m : N) (e : Z) : bool :=
  let threshold := (2 ^ 1024 - 2 ^ 970)%Z in
  if (0 <=? e)%Z then (threshold <=? Z.of_N m * 10 ^ e)%Z
  else (threshold * 10 ^ (- e) <=? Z.of_N m)%Z.

Definition isNaN (x : number) : bool :=
  match x with NaN => true | _ => false end.

Definition isFinite (x : number) : bool :=
  match x with
  | NaN | Infinity _ => false
  | Decimal _ m e => negb (rounds_to_infinity m e)
  end.

(** [x <= 0]; a comparison with NaN is false, and [-0 <= 0] holds. *)
Definition le_zero (x : number) : bool :=
  match x with
  | NaN => false
  | Infinity negative => negative
  | Decimal true _ _ => true
  | Decimal false m e => rounds_to_zero m e
  end.

(** [x > 0] *)
Definition gt_zero (x : number) : bool :=
  match x with
  | NaN => false
  | Infinity negative => negb negative
  | Decimal true _ _ => false
  | Decimal false m e => negb (rounds_to_zero m e)
  end.

Definition is_digit (c : ascii) : bool :=
  let n := nat_of_ascii c in ((48 <=? n)%nat && (n <=? 57)%nat).

Definition digit_value (c : ascii) : N := N.of_nat (nat_of_ascii c - 48).

(** The longest prefix of decimal digits, and what follows it. *)
Fixpoint span_digits (s : string) : string * string :=
  match s with
  | EmptyString => (EmptyString, EmptyString)
  | String c r =>
      if is_digit c then let (ds, rest) := span_digits r in (String c ds, rest)
      else (EmptyString, s)
  end.

Fixpoint digits_value (ds : string) (acc : N) : N :=
  match ds with
  | EmptyString => acc
  | String c r => digits_value r (10 * acc + digit_value c)%N
  end.

(** An [ExponentPart] at the head of [s], when there is a complete one:
    [e] or [E], an optional sign, at least one digit. *)
Definition exponent_part (s : string) : Z :=
  match s with
  | String c r =>
      if Ascii.eqb c (chr 101) || Ascii.eqb c (chr 69) then
        let (negative, r1) :=
          match r with
          | String d r' =>
              if Ascii.eqb d (chr 45) then (true, r')
              else if Ascii.eqb d (chr 43) then (false, r')
              else (false, r)
          | EmptyString => (false, r)
          end in
        let (ds, _) := span_digits r1 in
        match ds with
        | EmptyString => 0%Z
        | _ => let v := Z.of_N (digits_value ds 0) in
               if negative then (- v)%Z else v
        end
      else 0%Z
  | EmptyString => 0%Z
  end.

(** The global [parseFloat]: leading white space is skipped, then the
    longest prefix that is a [StrDecimalLiteral] is read; NaN when there
    is none. *)
Definition parseFloat (input : string) : number :=
  let s := trimStart input in
  let (negative, s1) :=
    match s with
    | String c r =>
        if Ascii.eqb c (chr 45) then (true, r)
        else if Ascii.eqb c (chr 43) then (false, r)
        else (false, s)
    | EmptyString => (false, s)
    end in
  if String.prefix "Infinity" s1 then Infinity negative
  else
    let (int_part, s2) := span_digits s1 in
    let (frac_part, s3) :=
      match s2 with
      | String c r =>
          if Ascii.eqb c (chr 46) then
            let (fs, r') := span_digits r in
            match int_part, fs with
            | EmptyString, EmptyString => (EmptyString, s2)
            | _, _ => (fs, r')
            end
          else (EmptyString, s2)
      | EmptyString => (EmptyString, s2)
      end in
    match int_part, frac_part with
    | EmptyString, EmptyString => NaN
    | _, _ =>
        let m := digits_value (int_part ++ frac_part) 0 in
        let e := (exponent_part s3 - Z.of_nat (String.length frac_part))%Z in
        if rounds_to_infinity m e then Infinity negative
        else Decimal negative m e
    end.

End Num.

(* ===================================================================== *)
(** * The row validator                                                   *)
(* ===================================================================== *)

Module Validator.
Import JS Num.
Export Csv.

(** ** Anchored patterns made of one character class per position *)

Definition hex_i (c : ascii) : bool :=
  let n := nat_of_ascii c in
  is_digit c || ((97 <=? n)%nat && (n <=? 102)%nat) || ((65 <=? n)%nat && (n <=? 70)%nat).

Definition one_of (cs : string) (c : ascii) : bool :=
  existsb (Ascii.eqb c) (list_ascii_of_string cs).

Definition dash (c : ascii) : bool := Ascii.eqb c (chr 45).

(** [^ p1 p2 ... pn $]: as many characters as classes, each in its class. *)
Fixpoint matches (pattern : list (ascii -> bool)) (s : string) : bool :=
  match pattern, s with
  | [], EmptyString => true
  | p :: ps, String c r => p c && matches ps r
  | _, _ => false
  end.

(** [/^[0-9a-f]{8}-[0-9a-f]{4}-[1-5][0-9a-f]{3}-[89ab][0-9a-f]{3}-[0-9a-f]{12}$/i] *)
Definition uuidRegex : list (ascii -> bool) :=
  repeat hex_i 8 ++ [dash] ++ repeat hex_i 4 ++ [dash] ++
  [one_of "12345"] ++ repeat hex_i 3 ++ [dash] ++
  [one_of "89abAB"] ++ repeat hex_i 3 ++ [dash] ++ repeat hex_i 12.

Definition isValidUUID (uuid : string) : bool := matches uuidRegex uuid.

(** [/^\d{4}-\d{2}-\d{2}$/] *)
Definition dateRegex : list (ascii -> bool) :=
  repeat is_digit 4 ++ [dash] ++ repeat is_digit 2 ++ [dash] ++ repeat is_digit 2.

(** ** Dates *)

(** The UTC calendar day of a valid Date object. *)
Record Date : Type := mkDate { year : nat; month : nat; day : nat }.

Definition is_leap (y : nat) : bool :=
  ((y mod 4 =? 0) && negb (y mod 100 =? 0) || (y mod 400 =? 0))%nat.

Definition days_in_month (y m : nat) : nat :=
  match m with
  | 1 | 3 | 5 | 7 | 8 | 10 | 12 => 31
  | 4 | 6 | 9 | 11 => 30
  | 2 => if is_leap y then 29 else 28
  | _ => 0
  end.

Definition nat_of_digits (ds : string) : nat := N.to_nat (digits_value ds 0).

Definition digit_char (n : nat) : ascii := ascii_of_nat (48 + n mod 10).

(** Two and four decimal digits, as [toISOString] prints a month, a day
    and a year between 0 and 9999. *)
Definition pad2 (n : nat) : string :=
  String (digit_char (n / 10)) (String (digit_char n) EmptyString).

Definition pad4 (n : nat) : string :=
  String (digit_char (n / 1000)) (String (digit_char (n / 100))
    (String (digit_char (n / 10)) (String (digit_char n) EmptyString))).

(** [date.toISOString().split('T')[0]] *)
Definition iso_day (d : Date) : string :=
  pad4 (year d) ++ "-" ++ pad2 (month d) ++ "-" ++ pad2 (day d).

(** Calendar order of two days. *)
Definition date_ltb (a b : Date) : bool :=
  ((year a <? year b) ||
   ((year a =? year b) &&
    ((month a <? month b) || ((month a =? month b) && (day a <? day b)))))%nat.

Section Host.

(** Hosts differ on a date-only string whose day number is at most 31 but
    beyond the end of its month, such as 2023-02-30: some answer Invalid
    Date, others roll over into the next month (2023-03-02). *)
Variable day_rollover : bool.

(** [new Date(dateString)] on the date-only form [YYYY-MM-DD], read as
    UTC; [None] is Invalid Date.  Other formats are host-specific: the
    model answers Invalid Date for them, and [isValidDate] rejects them by
    its pattern whatever the host answers. *)
Definition Date_new (dateString : string) : option Date :=
  if matches dateRegex dateString then
    let y := nat_of_digits (substring 0 4 dateString) in
    let m := nat_of_digits (substring 5 2 dateString) in
    let d := nat_of_digits (substring 8 2 dateString) in
    if ((1 <=? m) && (m <=? 12) && (1 <=? d))%nat then
      if (d <=? days_in_month y m)%nat then Some (mkDate y m d)
      else if day_rollover && (d <=? 31)%nat
           then Some (mkDate y (m + 1) (d - days_in_month y m))
           else None
    else None
  else None.

Definition isValidDate (dateString : string) : bool :=
  match Date_new dateString with
  | None => false
  | Some _ => matches dateRegex dateString
  end.

(** [None] stands for the RangeError that [toISOString] raises on an
    Invalid Date. *)
Definition formatDateString (dateString : string) : option string :=
  match Date_new dateString with
  | Some date => Some (iso_day date)
  | None => None
  end.

(** ** validateInvoiceData *)

(** The row is a [CsvRow]: every property it has is a string. *)

Record InvoiceData : Type := mkInvoiceData {
  invoiceId : string;
  sellerId : string;
  debtorId : string;
  currency : string;
  amount : number;
  product : string;
  issueDate : string;
  dueDate : string;
  isValid : bool;
  validationErrors : list string
}.

Definition with_invoiceId (v : string) (i : InvoiceData) : InvoiceData :=
  mkInvoiceData v (sellerId i) (debtorId i) (currency i) (amount i) (product i)
    (issueDate i) (dueDate i) (isValid i) (validationErrors i).
Definition with_sellerId (v : string) (i : InvoiceData) : InvoiceData :=
  mkInvoiceData (invoiceId i) v (debtorId i) (currency i) (amount i) (product i)
    (issueDate i) (dueDate i) (isValid i) (validationErrors i).
Definition with_debtorId (v : string) (i : InvoiceData) : InvoiceData :=
  mkInvoiceData (invoiceId i) (sellerId i) v (currency i) (amount i) (product i)
    (issueDate i) (dueDate i) (isValid i) (validationErrors i).
Definition with_currency (v : string) (i : InvoiceData) : InvoiceData :=
  mkInvoiceData (invoiceId i) (sellerId i) (debtorId i) v (amount i) (product i)
    (issueDate i) (dueDate i) (isValid i) (validationErrors i).
Definition with_amount (v : number) (i : InvoiceData) : InvoiceData :=
  mkInvoiceData (invoiceId i) (sellerId i) (debtorId i) (currency i) v (product i)
    (issueDate i) (dueDate i) (isValid i) (validationErrors i).
Definition with_product (v : string) (i : InvoiceData) : InvoiceData :=
  mkInvoiceData (invoiceId i) (sellerId i) (debtorId i) (currency i) (amount i) v
    (issueDate i) (dueDate i) (isValid i) (validationErrors i).
Definition with_issueDate (v : string) (i : InvoiceData) : InvoiceData :=
  mkInvoiceData (invoiceId i) (sellerId i) (debtorId i) (currency i) (amount i)
    (product i) v (dueDate i) (isValid i) (validationErrors i).
Definition with_dueDate (v : string) (i : InvoiceData) : InvoiceData :=
  mkInvoiceData (invoiceId i) (sellerId i) (debtorId i) (currency i) (amount i)
    (product i) (issueDate i) v (isValid i) (validationErrors i).
Definition invalidate (errors : list string) (i : InvoiceData) : InvoiceData :=
  mkInvoiceData (invoiceId i) (sellerId i) (debtorId i) (currency i) (amount i)
    (product i) (issueDate i) (dueDate i) false errors.

(** The two locals the function mutates: [errors] and [invoice]. *)
Definition vstate : Type := list string * InvoiceData.

Definition push (msg : string) (st : vstate) : vstate := (fst st ++ [msg], snd st).
Definition update (f : InvoiceData -> InvoiceData) (st : vstate) : vstate :=
  (fst st, f (snd st)).

Definition row_prefix (rowNumber : nat) : string := "Row " ++ of_nat rowNumber ++ ": ".

Definition validCurrencies : list string :=
  ["USD"; "EUR"; "GBP"; "JPY"; "CAD"; "AUD"; "CHF"; "CNY"].

(** [validCurrencies.includes(x)] *)
Definition includes (xs : list string) (x : string) : bool := existsb (String.eqb x) xs.

Definition msg_uuid (rowNumber : nat) (field : string) : string :=
  row_prefix rowNumber ++ "Invalid or missing " ++ field ++ " (must be UUID format)".
Definition msg_currency (rowNumber : nat) : string :=
  row_prefix rowNumber ++ "Invalid currency. Must be one of: " ++ join ", " validCurrencies.
Definition msg_amount (rowNumber : nat) : string :=
  row_prefix rowNumber ++ "Invalid amount (must be positive number)".
Definition msg_product (rowNumber : nat) : string :=
  row_prefix rowNumber ++ "Product field is required".
Definition msg_date (rowNumber : nat) (field : string) : string :=
  row_prefix rowNumber ++ "Invalid " ++ field ++ " (must be YYYY-MM-DD format)".
Definition msg_order (rowNumber : nat) : string :=
  row_prefix rowNumber ++ "Due date must be after issue date".

(** [!row.f || !isValidUUID(row.f)], then the else branch. *)
Definition check_uuid (row : CsvRow) (rowNumber : nat) (field : string)
  (store : string -> InvoiceData -> InvoiceData) (st : vstate) : vstate :=
  match row !! field with
  | Some v =>
      if negb (truthy v) || negb (isValidUUID v)
      then push (msg_uuid rowNumber field) st
      else update (store v) st
  | None => push (msg_uuid rowNumber field) st
  end.

Definition check_currency (row : CsvRow) (rowNumber : nat) (st : vstate) : vstate :=
  match row !! "currency" with
  | Some v =>
      if negb (truthy v) || negb (includes validCurrencies (toUpperCase v))
      then push (msg_currency rowNumber) st
      else update (with_currency (toUpperCase v)) st
  | None => push (msg_currency rowNumber) st
  end.

(** [parseFloat(row.amount)]; a missing property is read as the text
    [undefined]. *)
Definition check_amount (row : CsvRow) (rowNumber : nat) (st : vstate) : vstate :=
  let amount := parseFloat (default "undefined" (row !! "amount")) in
  if isNaN amount || le_zero amount
  then push (msg_amount rowNumber) st
  else update (with_amount amount) st.

Definition check_product (row : CsvRow) (rowNumber : nat) (st : vstate) : vstate :=
  match row !! "product" with
  | Some v =>
      if negb (truthy v) || (String.length (trim v) =? 0)%nat
      then push (msg_product rowNumber) st
      else update (with_product (trim v)) st
  | None => push (msg_product rowNumber) st
  end.

(** In the else branch [formatDateString] cannot raise: see
    [formatDateString_defined]. *)
Definition check_date (row : CsvRow) (rowNumber : nat) (field : string)
  (store : string -> InvoiceData -> InvoiceData) (st : vstate) : vstate :=
  match row !! field with
  | Some v =>
      if negb (truthy v) || negb (isValidDate v)
      then push (msg_date rowNumber field) st
      else match formatDateString v with
           | Some iso => update (store iso) st
           | None => st
           end
  | None => push (msg_date rowNumber field) st
  end.

Definition check_order (rowNumber : nat) (st : vstate) : vstate :=
  let invoice := snd st in
  if truthy (issueDate invoice) && truthy (dueDate invoice)
     && str_le (dueDate invoice) (issueDate invoice)
  then push (msg_order rowNumber) st
  else st.

Definition finish (st : vstate) : InvoiceData :=
  let (errors, invoice) := st in
  if (0 <? length errors)%nat then invalidate errors invoice else invoice.

Definition blank : InvoiceData :=
  mkInvoiceData "" "" "" "" zero "" "" "" true [].

Definition validateInvoiceData (row : CsvRow) (rowNumber : nat) : InvoiceData :=
  let st : vstate := ([], blank) in
  let st := check_uuid row rowNumber "invoice_id" with_invoiceId st in
  let st := check_uuid row rowNumber "seller_id" with_sellerId st in
  let st := check_uuid row rowNumber "debtor_id" with_debtorId st in
  let st := check_currency row rowNumber st in
  let st := check_amount row rowNumber st in
  let st := check_product row rowNumber st in
  let st := check_date row rowNumber "issue_date" with_issueDate st in
  let st := check_date row rowNumber "due_date" with_dueDate st in
  let st := check_order rowNumber st in
  finish st.

(** [rawData.map((row, index) => validateInvoiceData(row, index + 2))], as
    [downloadAndParseFile] does once the file is parsed, from position
    [index] on. *)
Fixpoint validate_rows (index : nat) (rawData : list CsvRow) : list InvoiceData :=
  match rawData with
  | [] => []
  | row :: rest => validateInvoiceData row (index + 2) :: validate_rows (S index) rest
  end.

End Host.

End Validator.

(* ===================================================================== *)
(** * The batch importer: processInvoiceFile                              *)
(* ===================================================================== *)

Module Importer.
Import JS Num.
Export Validator.

Inductive JobStatus : Type := PENDING | PROCESSING | COMPLETED | FAILED.
Inductive FileType : Type := CSV | XLSX.

(** [interface ProcessingError] *)
Record ProcessingError : Type := mkProcessingError {
  row : nat;
  invoice_id : option string;
  errors : list string
}.

(** What an awaited backend call comes back with: a response object with
    its optional [errors] (the messages) and optional [data], or a thrown
    value ([Some] message for an [Error], [None] for anything else). *)
Inductive outcome (A : Type) : Type :=
| Resolved (errors : option (list string)) (data : option A)
| Rejected (thrown : option string).
Arguments Resolved {A} errors data.
Arguments Rejected {A} thrown.

(** The calls that reach the backend, and the two marks the loop leaves
    around each batch.  Timestamps are left out. *)
Inductive event : Type :=
| JobCreate (fileName : string) (fileType : FileType) (s3Key : string)
    (status : JobStatus) (totalInvoices successfulInvoices failedInvoices : nat)
| DownloadAndParse (fileKey : string) (fileType : FileType)
| BatchStarted (currentBatchNumber batchLength : nat)
| InvoiceCreate (globalIndex : nat) (invoice : InvoiceData) (uploadJobId : string)
| InvoiceSettled (globalIndex : nat)
| BatchCompleted (currentBatchNumber : nat)
| JobUpdate (id : string) (status : JobStatus)
    (counts : option (nat * nat * nat)) (errorMessage : option string).

(** The answers of the backend during one run.  [pick] chooses which of
    the pending creations of a batch (given by their row numbers) settles
    next. *)
Record Backend : Type := mkBackend {
  job_create : outcome string;
  download_and_parse : string -> FileType -> list InvoiceData + option string;
  invoice_create : nat -> InvoiceData -> outcome unit;
  pick : list nat -> nat;
  job_update : outcome unit
}.

(** The locals of the batch loop, and the log. *)
Record istate : Type := mkIstate {
  successfulCount : nat;
  failedCount : nat;
  allErrors : list ProcessingError;
  log : list event
}.

Definition emit (e : event) (st : istate) : istate :=
  mkIstate (successfulCount st) (failedCount st) (allErrors st) (log st ++ [e]).

(** [failedCount++; allErrors.push(err)] *)
Definition fail (err : ProcessingError) (st : istate) : istate :=
  mkIstate (successfulCount st) (S (failedCount st)) (allErrors st ++ [err]) (log st).

(** [successfulCount++] *)
Definition succeed (st : istate) : istate :=
  mkIstate (S (successfulCount st)) (failedCount st) (allErrors st) (log st).

Definition batchSize : nat := 25.

(** [xs.slice(i, j)] for [i <= j] *)
Definition slice {A : Type} (i j : nat) (xs : list A) : list A := take (j - i) (drop i xs).

(** [error.message || 'Unknown error'] *)
Definition message_or_unknown (m : string) : string :=
  if truthy m then m else "Unknown error".

(** [error instanceof Error ? error.message : 'Unknown error'] *)
Definition thrown_message (thrown : option string) : string :=
  match thrown with Some m => m | None => "Unknown error" end.

(** [batch.map(async (invoice, index) => ...)]: each callback runs up to
    its first [await].  An invalid row is counted at once and its promise
    is fulfilled; a valid row issues its create call and stays pending.
    The callback's test for a missing job cannot fire: the loop is only
    reached with a job. *)
Fixpoint start_batch (jobId : string) (i index : nat) (batch : list InvoiceData)
  (st : istate) : istate * list (nat * InvoiceData) :=
  match batch with
  | [] => (st, [])
  | invoice :: rest =>
      let globalIndex := i + index + 1 in
      if negb (isValid invoice) then
        start_batch jobId i (S index) rest
          (fail (mkProcessingError globalIndex None (validationErrors invoice)) st)
      else
        let (st', pending) :=
          start_batch jobId i (S index) rest
            (emit (InvoiceCreate globalIndex invoice jobId) st) in
        (st', (globalIndex, invoice) :: pending)
  end.

(** The rest of a callback, run when its create call settles. *)
Definition settle (B : Backend) (p : nat * InvoiceData) (st : istate) : istate :=
  let (globalIndex, invoice) := p in
  let st := emit (InvoiceSettled globalIndex) st in
  match invoice_create B globalIndex invoice with
  | Resolved (Some errs) _ =>
      fail (mkProcessingError globalIndex (Some (invoiceId invoice))
              (map message_or_unknown errs)) st
  | Resolved None _ => succeed st
  | Rejected thrown =>
      fail (mkProcessingError globalIndex (Some (invoiceId invoice))
              [thrown_message thrown]) st
  end.

(** [await Promise.allSettled(batchPromises)]: the pending creations
    settle one after the other, in the order the backend answers; [n] is
    the number of creations still pending. *)
Fixpoint settle_all (B : Backend) (n : nat) (pending : list (nat * InvoiceData))
  (st : istate) : istate :=
  match n with
  | 0 => st
  | S n' =>
      let k := pick B (map fst pending) mod length pending in
      match pending !! k with
      | Some p => settle_all B n' (delete k pending) (settle B p st)
      | None => st
      end
  end.

(** One turn of the loop body. *)
Definition run_batch (B : Backend) (jobId : string) (i : nat)
  (batch : list InvoiceData) (st : istate) : istate :=
  let currentBatchNumber := i / batchSize + 1 in
  let st := emit (BatchStarted currentBatchNumber (length batch)) st in
  let (st, pending) := start_batch jobId i 0 batch st in
  let st := settle_all B (length pending) pending st in
  emit (BatchCompleted currentBatchNumber) st.

(** [for (let i = 0; i < invoiceData.length; i += batchSize)], entered
    at index [i]. *)
Equations? batch_loop (B : Backend) (jobId : string) (invoiceData : list InvoiceData)
  (i : nat) (st : istate) : istate by wf (length invoiceData - i) lt :=
  batch_loop B jobId invoiceData i st with lt_dec i (length invoiceData) := {
    | left _ =>
        batch_loop B jobId invoiceData (i + batchSize)
          (run_batch B jobId i (slice i (i + batchSize) invoiceData) st)
    | right _ => st }.
Proof. unfold batchSize. lia. Qed.

(** [e.errors[0]] inside a template literal. *)
Definition first_error (e : ProcessingError) : string :=
  match errors e with m :: _ => m | [] => "undefined" end.

Definition errorSummary (allErrors : list ProcessingError) : option string :=
  if (0 <? length allErrors)%nat then
    Some (of_nat (length allErrors) ++ " validation errors. Sample: " ++
          join "; " (map (fun e => "Row " ++ of_nat (row e) ++ ": " ++ first_error e)
                         (slice 0 3 allErrors)))%string
  else None.

Definition finalStatus (st : istate) : JobStatus :=
  if (failedCount st =? 0)%nat then COMPLETED
  else if (successfulCount st =? 0)%nat then FAILED else COMPLETED.

(** The job update after the loop.  Its answer is only logged, and an
    exception from it is caught on the spot. *)
Definition update_job (jobId : string) (total : nat) (st : istate) : istate :=
  emit (JobUpdate jobId (finalStatus st)
          (Some (total, successfulCount st, failedCount st))
          (errorSummary (allErrors st))) st.

(** How a call of [processInvoiceFile] ends. *)
Inductive completion : Type :=
| Returned
| Threw (thrown : option string).

(** [error instanceof Error ? error.message : 'Unknown processing error'] *)
Definition processing_error_message (thrown : option string) : string :=
  match thrown with Some m => m | None => "Unknown processing error" end.

(** The catch block: the job is marked FAILED when there is a job with an
    id, and the error is thrown again. *)
Definition on_error (job : option string) (thrown : option string)
  (log : list event) : list event * completion :=
  match job with
  | Some id =>
      if truthy id
      then (log ++ [JobUpdate id FAILED None (Some (processing_error_message thrown))],
            Threw thrown)
      else (log, Threw thrown)
  | None => (log, Threw thrown)
  end.

Definition fileTypeOf (fileName : string) : FileType :=
  if endsWith (toLowerCase fileName) ".csv" then CSV else XLSX.

(** The batch loop and the job update, on the parsed rows. *)
Definition import_rows (B : Backend) (jobId : string) (invoiceData : list InvoiceData)
  (log0 : list event) : istate :=
  let st := batch_loop B jobId invoiceData 0 (mkIstate 0 0 [] log0) in
  update_job jobId (length invoiceData) st.

Definition processInvoiceFile (B : Backend) (fileKey fileName : string)
  : list event * completion :=
  let fileType := fileTypeOf fileName in
  let log0 := [JobCreate fileName fileType fileKey PROCESSING 0 0 0] in
  match job_create B with
  | Rejected thrown => on_error None thrown log0
  | Resolved None (Some id) =>
      let log1 := log0 ++ [DownloadAndParse fileKey fileType] in
      match download_and_parse B fileKey fileType with
      | inr thrown => on_error (Some id) thrown log1
      | inl invoiceData =>
          if negb (truthy id)
          then on_error (Some id) (Some "Job ID is missing - cannot process invoices") log1
          else (log (import_rows B id invoiceData log1), Returned)
      end
  | Resolved errs _ =>
      let first :=
        match errs with
        | Some (m :: _) => message_or_unknown m
        | _ => "Unknown error"
        end in
      on_error None (Some ("Failed to create upload job: " ++ first)%string) log0
  end.

End Importer.

(* ===================================================================== *)
(** * The file picker: handleFileSelect                                   *)
(* ===================================================================== *)

Module Ingest.
Import JS.

(** [/\.(csv|xlsx)$/i.test(file.name)] *)
Definition isInvoiceFile (name : string) : bool :=
  let lower := toLowerCase name in
  endsWith lower ".csv" || endsWith lower ".xlsx".

(** The [accept] attribute of the file input: [.csv,.xlsx,.xls]. *)
Definition accept : list string := [".csv"; ".xlsx"; ".xls"].

(** The picker offers a file when its name ends in one of the accepted
    extensions, whatever the case of the letters. *)
Definition offered_by_picker (name : string) : bool :=
  existsb (endsWith (toLowerCase name)) accept.

Inductive event : Type :=
| SetError (message : option string)
| Upload (index : nat) (name : string)
| Process (path name : string) (index : nat).

(** The answer of the object store: the path an upload ends at, [None]
    when it fails.  Whether the processing of an uploaded file throws
    makes no difference here: the loop catches it and goes on. *)
Record Host : Type := mkHost {
  uploadData : nat -> string -> option string
}.

(** The sequential loop over the accepted files, from position [index].
    A failure of one file is caught and the loop goes on. *)
Fixpoint upload_loop (H : Host) (index : nat) (invoiceFiles : list string)
  : list event :=
  match invoiceFiles with
  | [] => []
  | name :: rest =>
      Upload index name ::
      match uploadData H index name with
      | Some path => [Process path name index]
      | None => []
      end ++ upload_loop H (S index) rest
  end.

(** [selectedFiles] is [None] when the input holds no file list. *)
Definition handleFileSelect (H : Host) (selectedFiles : option (list string))
  : list event :=
  match selectedFiles with
  | None => []
  | Some fileArray =>
      let invoiceFiles := List.filter isInvoiceFile fileArray in
      if (length invoiceFiles =? 0)%nat then
        [SetError (Some "Please select CSV or Excel files containing invoice data")]
      else if negb (length invoiceFiles =? length fileArray)%nat then
        [SetError (Some "Only CSV and Excel files are supported for invoice processing")]
      else upload_loop H 0 invoiceFiles ++ [SetError None]
  end.

Definition is_transfer (e : event) : bool :=
  match e with Upload _ _ | Process _ _ _ => true | SetError _ => false end.

End Ingest.

(* ===================================================================== *)
(** * Cascade deletion: handleDeleteFile                                  *)
(* ===================================================================== *)

Module Cascade.
Import JS.

(** The fields of a job and of an invoice record that the handler reads. *)
Record Job : Type := mkJob { job_id : string; fileName : string }.

Record Invoice : Type := mkInvoice {
  id : string;
  invoiceId : string;
  pdfS3Key : option string
}.

(** A backend answer: a response with optional [errors] and [data], or a
    thrown value ([Some] message for an [Error]). *)
Inductive answer (A : Type) : Type :=
| Resolved (errors : option (list string)) (data : option A)
| Rejected (thrown : option string).
Arguments Resolved {A} errors data.
Arguments Rejected {A} thrown.

Inductive event : Type :=
| ListJobs (s3Key : string)
| ListInvoices (uploadJobId : string)
| RemoveObject (path : string)
| DeleteInvoice (id : string)
| DeleteJob (id : string).

Record Backend : Type := mkBackend {
  confirm : bool;
  list_jobs : string -> answer (list Job);
  list_invoices : string -> answer (list Invoice);
  remove : string -> option (option string);
  delete_invoice : string -> answer unit;
  delete_job : string -> answer unit
}.

(** A computation appends to the log of issued calls and either returns
    or throws. *)
Definition M (A : Type) : Type := list event -> list event * (A + option string).

Definition ret {A : Type} (a : A) : M A := fun log => (log, inl a).
Definition throw {A : Type} (thrown : option string) : M A := fun log => (log, inr thrown).
Definition throw_error {A : Type} (message : string) : M A := throw (Some message).
Definition log_call (e : event) : M unit := fun log => (log ++ [e], inl tt).

Definition bind {A B : Type} (c : M A) (k : A -> M B) : M B :=
  fun log =>
    match c log with
    | (log', inl a) => k a log'
    | (log', inr t) => (log', inr t)
    end.

(** [try { c } catch { }] *)
Definition ignore_failure (c : M unit) : M unit :=
  fun log => (fst (c log), inl tt).

Notation "c ;;; k" := (bind c (fun _ => k))
  (at level 90, right associativity).

(** [await] of a storage removal. *)
Definition await_remove (B : Backend) (path : string) : M unit :=
  log_call (RemoveObject path) ;;;
  match remove B path with
  | None => ret tt
  | Some thrown => throw thrown
  end.

(** [invoice.pdfS3Key] in a boolean position. *)
Definition has_pdf (invoice : Invoice) : bool := truthy_opt (pdfS3Key invoice).

(** [for (const invoice of invoicesWithPdfs) { try { await remove(...) } catch { } }] *)
Fixpoint delete_pdfs (B : Backend) (invoicesWithPdfs : list Invoice) : M unit :=
  match invoicesWithPdfs with
  | [] => ret tt
  | invoice :: rest =>
      ignore_failure (await_remove B (default "" (pdfS3Key invoice))) ;;;
      delete_pdfs B rest
  end.

(** Whether the promise of one invoice deletion ends rejected. *)
Definition deletion_rejected (B : Backend) (invoice : Invoice) : bool :=
  match delete_invoice B (id invoice) with
  | Resolved (Some _) _ => true
  | Resolved None _ => false
  | Rejected _ => true
  end.

(** [associatedInvoices.map(async ...)]: every delete call is issued. *)
Fixpoint issue_deletions (associatedInvoices : list Invoice) : M unit :=
  match associatedInvoices with
  | [] => ret tt
  | invoice :: rest => log_call (DeleteInvoice (id invoice)) ;;; issue_deletions rest
  end.

Definition msg_failed (invoiceFailed total : nat) : string :=
  "Failed to delete " ++ of_nat invoiceFailed ++ " out of " ++ of_nat total ++ " invoices".

Definition first_message (errs : list string) : string :=
  match errs with
  | m :: _ => if truthy m then m else "Unknown error"
  | [] => "Unknown error"
  end.

Definition delete_invoices (B : Backend) (associatedInvoices : list Invoice) : M unit :=
  if (0 <? length associatedInvoices)%nat then
    issue_deletions associatedInvoices ;;;
    let invoiceFailed := length (List.filter (deletion_rejected B) associatedInvoices) in
    if (0 <? invoiceFailed)%nat
    then throw_error (msg_failed invoiceFailed (length associatedInvoices))
    else ret tt
  else ret tt.

(** The body of [for (const job of associatedJobs)]. *)
Definition delete_job_cascade (B : Backend) (job : Job) : M unit :=
  log_call (ListInvoices (job_id job)) ;;;
  match list_invoices B (job_id job) with
  | Rejected thrown => throw thrown
  | Resolved (Some _) _ => throw_error "Failed to find associated invoices"
  | Resolved None data =>
      let associatedInvoices := default [] data in
      let invoicesWithPdfs := List.filter has_pdf associatedInvoices in
      delete_pdfs B invoicesWithPdfs ;;;
      delete_invoices B associatedInvoices ;;;
      log_call (DeleteJob (job_id job)) ;;;
      match delete_job B (job_id job) with
      | Rejected thrown => throw thrown
      | Resolved (Some errs) _ =>
          throw_error ("Failed to delete processing job: " ++ first_message errs)
      | Resolved None _ => ret tt
      end
  end.

Fixpoint for_each_job (B : Backend) (associatedJobs : list Job) : M unit :=
  match associatedJobs with
  | [] => ret tt
  | job :: rest => delete_job_cascade B job ;;; for_each_job B rest
  end.

(** The try block. *)
Definition delete_steps (B : Backend) (filePath : string) : M unit :=
  log_call (ListJobs filePath) ;;;
  match list_jobs B filePath with
  | Rejected thrown => throw thrown
  | Resolved (Some _) _ => throw_error "Failed to find associated processing job"
  | Resolved None data =>
      let associatedJobs := default [] data in
      for_each_job B associatedJobs ;;;
      await_remove B filePath
  end.

(** What the handler leaves behind: the calls it issued, and the error
    message it set, if any. *)
Record result : Type := mkResult { issued : list event; error : option string }.

Definition handleDeleteFile (B : Backend) (filePath : string) : result :=
  if negb (confirm B) then mkResult [] None
  else
    match delete_steps B filePath [] with
    | (log, inl _) => mkResult log None
    | (log, inr thrown) =>
        mkResult log
          (Some ("Failed to delete file and associated data: " ++
                 match thrown with Some m => m | None => "Unknown error" end)%string)
    end.

End Cascade.

(* ===================================================================== *)
(** * Detaching a PDF: handlePdfDelete                                    *)
(* ===================================================================== *)

Module Pdf.
Import JS.

(** A field value of a stored record. *)
Inductive value : Type :=
| Null
| Str (s : string)
| Number (n : Num.number)
| Boolean (b : bool)
| Strings (xs : list string).

(** A record of the Invoice model, and the table of them by id. *)
Abbreviation Doc := (gmap string value).
Abbreviation Table := (gmap string Doc).

(** A field in a boolean position, for the fields the handler tests:
    [pdfS3Key], [id] and [pdfFileName], each a string or null. *)
Definition truthy_field (doc : Doc) (field : string) : bool :=
  match doc !! field with
  | Some (Str s) => truthy s
  | _ => false
  end.

Definition string_field (doc : Doc) (field : string) : string :=
  match doc !! field with
  | Some (Str s) => s
  | _ => EmptyString
  end.

Inductive event : Type :=
| Confirm (message : string)
| InvoiceUpdate (request : Doc)
| StorageRemove (path : string)
| RefreshInvoices
| Alert (message : string).

(** The user's answer to the confirmation and the backend's answer to
    the update ([Some] messages or a thrown value when it fails). *)
Inductive update_answer : Type :=
| Updated
| UpdateErrors (errors : list string)
| UpdateThrows (thrown : option string).

Record World : Type := mkWorld {
  confirm : bool;
  invoice_update : Doc -> update_answer
}.

(** The data API's update: the fields named in the request replace those
    of the record with the request's id; the other fields stay. *)
Definition apply_update (request : Doc) (table : Table) : Table :=
  alter (fun doc => request ∪ doc) (string_field request "id") table.

(** The object literal passed to [client.models.Invoice.update]. *)
Definition delete_request (invoice : Doc) : Doc :=
  <["id" := Str (string_field invoice "id")]>
  (<["pdfS3Key" := Null]>
  (<["pdfS3FullPath" := Null]>
  (<["pdfFileName" := Null]>
  (<["pdfUploadedAt" := Null]> ∅)))).

Definition confirm_message (invoice : Doc) : string :=
  "Are you sure you want to delete the PDF " ++ String dquote
    (if truthy_field invoice "pdfFileName"
     then string_field invoice "pdfFileName" else "document") ++
  String dquote ("?" ++ String LF (String LF "This action cannot be undone.")).

Definition handlePdfDelete (W : World) (invoice : Doc) (table : Table)
  : Table * list event :=
  if negb (truthy_field invoice "pdfS3Key") || negb (truthy_field invoice "id")
  then (table, [])
  else if negb (confirm W) then (table, [Confirm (confirm_message invoice)])
  else
    let request := delete_request invoice in
    let issued := [Confirm (confirm_message invoice); InvoiceUpdate request] in
    match invoice_update W request with
    | Updated => (apply_update request table, issued ++ [RefreshInvoices])
    | UpdateErrors _ =>
        (table, issued ++
           [Alert "Failed to delete PDF: Failed to remove PDF information from database"])
    | UpdateThrows thrown =>
        (table, issued ++
           [Alert ("Failed to delete PDF: " ++
                   match thrown with Some m => m | None => "Unknown error" end)])
    end.

Definition pdf_fields : list string :=
  ["pdfS3Key"; "pdfS3FullPath"; "pdfFileName"; "pdfUploadedAt"].

End Pdf.

(* ===================================================================== *)
(** * The invoice table: pages, and the name of a stored file             *)
(* ===================================================================== *)

Module Viewer.
Import JS.

Definition itemsPerPage : nat := 20.

(** [sortedInvoices.slice(startIndex, startIndex + itemsPerPage)] with
    [startIndex = (currentPage - 1) * itemsPerPage].  Pages are counted
    from 1; for a current page 0 the start index is negative and the end
    index is 0, and the slice is empty. *)
Definition paginatedInvoices {A : Type} (sortedInvoices : list A) (currentPage : nat)
  : list A :=
  match currentPage with
  | 0 => []
  | S before => take itemsPerPage (drop (before * itemsPerPage) sortedInvoices)
  end.

(** [Math.ceil(sortedInvoices.length / itemsPerPage)] *)
Definition totalPages {A : Type} (sortedInvoices : list A) : nat :=
  (length sortedInvoices + (itemsPerPage - 1)) / itemsPerPage.

(** The pager is rendered when [totalPages > 1]. *)
Definition pager_shown {A : Type} (sortedInvoices : list A) : bool :=
  (1 <? totalPages sortedInvoices)%nat.

(** [path.split('/').pop() || path] *)
Definition getFileName (path : string) : string :=
  let last_part := List.last (split (chr 47) path) EmptyString in
  if truthy last_part then last_part else path.

(** A text without a slash. *)
Definition no_slash (s : string) : bool :=
  forallb (fun c => negb (Ascii.eqb c (chr 47))) (list_ascii_of_string s).

End Viewer.

(* ===================================================================== *)
(** * Attaching a PDF: handlePdfUpload                                    *)
(* ===================================================================== *)

Module PdfUpload.
Import JS Pdf.

(** The two properties of the chosen [File] that the handler reads. *)
Record File : Type := mkFile { name : string; type : string }.

(** [s.includes(needle)] *)
Fixpoint contains (needle s : string) : bool :=
  String.prefix needle s ||
  match s with
  | EmptyString => false
  | String _ r => contains needle r
  end.

(** The class [[a-zA-Z0-9.-]]. *)
Definition safe_char (c : ascii) : bool :=
  let n := nat_of_ascii c in
  ((97 <=? n)%nat && (n <=? 122)%nat) || ((65 <=? n)%nat && (n <=? 90)%nat) ||
  ((48 <=? n)%nat && (n <=? 57)%nat) || (n =? 46)%nat || (n =? 45)%nat.

(** [file.name.replace(/[^a-zA-Z0-9.-]/g, '_')] *)
Fixpoint sanitizedFileName (fileName : string) : string :=
  match fileName with
  | EmptyString => EmptyString
  | String c r => String (if safe_char c then c else chr 95) (sanitizedFileName r)
  end.

(** The path the upload is sent to: the key template with its
    placeholder replaced by [identityId || ''].  The placeholder is at
    the head of the template, so its first occurrence is the one
    replaced; an identity id holds no dollar sign, so it is inserted as
    it is. *)
Definition uploadPath (identityId : option string) (invoiceId : string)
  (timestamp : nat) (fileName : string) : string :=
  "user-files/" ++ default EmptyString identityId ++ "/invoices/" ++ invoiceId ++ "/" ++
  of_nat timestamp ++ "-" ++ sanitizedFileName fileName.

(** What reading a key of the local or of the session storage gives:
    the stored text if there is one, or an exception. *)
Inductive storage_item : Type :=
| StorageThrows
| Item (value : option string).

(** Where the name of the bucket may be found: the configuration object
    on [window], the entry [amplify-storage-config] of the local storage
    with what [JSON.parse] makes of its [bucket] ([None] when parsing
    throws or there is no bucket), and the entry [amplify-bucket-name] of
    the session storage. *)
Record Config : Type := mkConfig {
  config_bucket : option string;
  local_config : storage_item;
  parsed_bucket : string -> option string;
  session_cache : storage_item
}.

Definition getS3BucketName (C : Config) : string :=
  if truthy_opt (config_bucket C) then default EmptyString (config_bucket C)
  else
    match local_config C with
    | StorageThrows => "DYNAMIC_EXTRACTION"
    | Item amplifyConfigStorage =>
        let bucket :=
          if truthy_opt amplifyConfigStorage
          then parsed_bucket C (default EmptyString amplifyConfigStorage)
          else None in
        if truthy_opt bucket then default EmptyString bucket
        else
          match session_cache C with
          | StorageThrows => "DYNAMIC_EXTRACTION"
          | Item cachedBucketName =>
              if truthy_opt cachedBucketName then default EmptyString cachedBucketName
              else "DYNAMIC_EXTRACTION"
          end
    end.

Definition constructFullS3Path (relativePath : string) (bucketName : option string)
  : string :=
  if truthy_opt bucketName &&
     negb (String.eqb (default EmptyString bucketName) "DYNAMIC_EXTRACTION")
  then (default EmptyString bucketName ++ "/" ++ relativePath)%string
  else relativePath.

(** The longest prefix without a dot, and what follows it. *)
Fixpoint span_no_dot (s : string) : string * string :=
  match s with
  | EmptyString => (EmptyString, EmptyString)
  | String c r =>
      if Ascii.eqb c (chr 46) then (EmptyString, s)
      else let (run, rest) := span_no_dot r in (String c run, rest)
  end.

Fixpoint skip (n : nat) (s : string) : string :=
  match n, s with
  | S n', String _ r => skip n' r
  | _, _ => s
  end.

(** The pattern [/https:\/\/([^.]+)\.s3\./] at the head of [s]: the
    group is its longest run of characters other than a dot, which a dot
    must follow. *)
Definition bucket_at (s : string) : option string :=
  if String.prefix "https://" s then
    let (run, rest) := span_no_dot (skip 8 s) in
    if truthy run && String.prefix ".s3." rest then Some run else None
  else None.

(** [urlString.match(...)]: the group of the leftmost match. *)
Fixpoint bucket_match (urlString : string) : option string :=
  match bucket_at urlString with
  | Some bucket => Some bucket
  | None =>
      match urlString with
      | EmptyString => None
      | String _ r => bucket_match r
      end
  end.

Inductive event : Type :=
| Alert (message : string)
| UploadData (path : string) (fileName : string)
| GetUrl (path : string)
| CacheBucketName (bucketName : string)
| InvoiceUpdate (request : Doc)
| RefreshInvoices.

(** The answer of the data API to the update: a response with optional
    [errors] and with or without [data], or a thrown value. *)
Inductive update_result : Type :=
| Answered (errors : option (list string)) (data : bool)
| UpdateThrew (thrown : option string).

(** What the handler reads from its surroundings: the identity of the
    signed-in user, the clock ([Date.now()] when the key is made and when
    the placeholder is made, and the ISO time of the update), the places
    a bucket name may be found, and the answers of the object store ([inl]
    the path of the stored object, [inr] a thrown value), of [getUrl]
    ([None] when it throws) and of the data API. *)
Record World : Type := mkWorld {
  identityId : option string;
  now : nat;
  now_placeholder : nat;
  uploadedAt : string;
  config : Config;
  upload_data : string -> string + option string;
  get_url : string -> option string;
  invoice_update : Doc -> update_result
}.

(** [error instanceof Error ? error.message : 'Unknown error'] *)
Definition thrown_message (thrown : option string) : string :=
  match thrown with Some m => m | None => "Unknown error" end.

(** [updateResult.errors[0]?.message || 'Unknown error'] *)
Definition first_message (errors : list string) : string :=
  match errors with
  | m :: _ => if truthy m then m else "Unknown error"
  | [] => "Unknown error"
  end.

(** The full path stored beside the key, and the calls made to find the
    bucket. *)
Definition full_path (W : World) (resultPath : string) : string * list event :=
  let configBucketName := getS3BucketName (config W) in
  if truthy configBucketName && negb (String.eqb configBucketName "DYNAMIC_EXTRACTION")
  then (constructFullS3Path resultPath (Some configBucketName), [])
  else
    let placeholder :=
      ("AMPLIFY_BUCKET_" ++ of_nat (now_placeholder W) ++ "/" ++ resultPath)%string in
    match get_url W resultPath with
    | Some urlString =>
        match bucket_match urlString with
        | Some extractedBucketName =>
            ((extractedBucketName ++ "/" ++ resultPath)%string,
             [GetUrl resultPath; CacheBucketName extractedBucketName])
        | None => (placeholder, [GetUrl resultPath])
        end
    | None => (placeholder, [GetUrl resultPath])
    end.

(** The object literal passed to [client.models.Invoice.update]. *)
Definition upload_request (invoiceId resultPath fullS3Path fileName uploadedAt : string)
  : Doc :=
  <["id" := Str invoiceId]>
  (<["pdfS3Key" := Str resultPath]>
  (<["pdfS3FullPath" := Str fullS3Path]>
  (<["pdfFileName" := Str fileName]>
  (<["pdfUploadedAt" := Str uploadedAt]> ∅)))).

(** The catch block. *)
Definition failed (message : string) : event :=
  Alert ("Failed to upload PDF: " ++ message).

(** [inv.id === invoiceId] *)
Definition has_id (invoiceId : string) (inv : Doc) : bool :=
  match inv !! "id" with
  | Some (Str s) => String.eqb s invoiceId
  | _ => false
  end.

(** [invoices] is the list of records the component holds; [table] is
    the stored table, which only a successful update changes. *)
Definition handlePdfUpload (W : World) (invoices : list Doc) (invoiceId : string)
  (file : File) (table : Table) : Table * list event :=
  if negb (contains "pdf" (type file)) then (table, [Alert "Please select a PDF file"])
  else
    match List.find (has_id invoiceId) invoices with
    | None =>
        (table,
         [failed ("Invoice with ID " ++ invoiceId ++ " not found in current invoice list")])
    | Some _ =>
        let path := uploadPath (identityId W) invoiceId (now W) (name file) in
        match upload_data W path with
        | inr thrown => (table, [UploadData path (name file); failed (thrown_message thrown)])
        | inl resultPath =>
            let (fullS3Path, lookups) := full_path W resultPath in
            let request :=
              upload_request invoiceId resultPath fullS3Path (name file) (uploadedAt W) in
            let issued := UploadData path (name file) :: lookups ++ [InvoiceUpdate request] in
            match invoice_update W request with
            | UpdateThrew thrown => (table, issued ++ [failed (thrown_message thrown)])
            | Answered (Some errors) _ =>
                (table,
                 issued ++
                 [failed ("Failed to save PDF information: " ++ first_message errors)])
            | Answered None false =>
                (table, issued ++ [failed "Database update returned no data"])
            | Answered None true => (apply_update request table, issued ++ [RefreshInvoices])
            end
        end
    end.

End PdfUpload.

(* ===================================================================== *)
(** * The behaviour the written specification describes, where it differs *)
(* ===================================================================== *)

Module Described.
Import JS.

(** A field with only its surrounding quotes and white space trimmed:
    what is inside the field is kept. *)
Fixpoint strip_start (s : string) : string :=
  match s with
  | EmptyString => EmptyString
  | String c r =>
      if isWhiteSpace c || Ascii.eqb c dquote then strip_start r else s
  end.

Definition strip_surrounding (field : string) : string :=
  reverse_string (strip_start (reverse_string (strip_start field))).

Definition parse_line_described (headers : list string) (line : string) : Csv.CsvRow :=
  Csv.fill headers 0 (map strip_surrounding (split comma line)) ∅.

(** [parseCSV] with the fields cleaned as described. *)
Definition parseCSV_described (csvText : string) : list Csv.CsvRow :=
  match Csv.nonblank_lines csvText with
  | first :: ((_ :: _) as data) =>
      map (parse_line_described (map strip_surrounding (split comma first))) data
  | _ => []
  end.

(** The extension filter as described: [.csv], [.xlsx] or [.xls]. *)
Definition isInvoiceFile_described (name : string) : bool :=
  let lower := toLowerCase name in
  endsWith lower ".csv" || endsWith lower ".xlsx" || endsWith lower ".xls".

End Described.

(* ===================================================================== *)
(** * The vocabulary of the properties                                    *)
(* ===================================================================== *)

Module ValidatorView.
Import JS Num Validator.

Section Row.
Variable day_rollover : bool.
Variable row : CsvRow.
Variable rowNumber : nat.

(** Whether each rule passes on the row. *)
Definition uuid_ok (field : string) : bool :=
  match row !! field with
  | Some v => truthy v && isValidUUID v
  | None => false
  end.

Definition currency_ok : bool :=
  match row !! "currency" with
  | Some v => truthy v && includes validCurrencies (toUpperCase v)
  | None => false
  end.

Definition parsed_amount : number := parseFloat (default "undefined" (row !! "amount")).

Definition amount_ok : bool := negb (isNaN parsed_amount || le_zero parsed_amount).

Definition product_ok : bool :=
  match row !! "product" with
  | Some v => truthy v && negb (String.length (trim v) =? 0)%nat
  | None => false
  end.

Definition date_ok (field : string) : bool :=
  match row !! field with
  | Some v => truthy v && isValidDate day_rollover v
  | None => false
  end.

Definition errors_if (ok : bool) (msg : string) : list string :=
  if ok then [] else [msg].

Definition update_if (ok : bool) (f : InvoiceData -> InvoiceData)
  (i : InvoiceData) : InvoiceData := if ok then f i else i.

Definition field_of (field : string) : string := default EmptyString (row !! field).

Definition iso_of (field : string) : string :=
  default EmptyString (formatDateString day_rollover (field_of field)).

(** The errors and the record after the eight field checks. *)
Definition field_errors : list string :=
  errors_if (uuid_ok "invoice_id") (msg_uuid rowNumber "invoice_id") ++
  errors_if (uuid_ok "seller_id") (msg_uuid rowNumber "seller_id") ++
  errors_if (uuid_ok "debtor_id") (msg_uuid rowNumber "debtor_id") ++
  errors_if currency_ok (msg_currency rowNumber) ++
  errors_if amount_ok (msg_amount rowNumber) ++
  errors_if product_ok (msg_product rowNumber) ++
  errors_if (date_ok "issue_date") (msg_date rowNumber "issue_date") ++
  errors_if (date_ok "due_date") (msg_date rowNumber "due_date").

Definition field_values : InvoiceData :=
  mkInvoiceData
    (if uuid_ok "invoice_id" then field_of "invoice_id" else EmptyString)
    (if uuid_ok "seller_id" then field_of "seller_id" else EmptyString)
    (if uuid_ok "debtor_id" then field_of "debtor_id" else EmptyString)
    (if currency_ok then toUpperCase (field_of "currency") else EmptyString)
    (if amount_ok then parsed_amount else zero)
    (if product_ok then trim (field_of "product") else EmptyString)
    (if date_ok "issue_date" then iso_of "issue_date" else EmptyString)
    (if date_ok "due_date" then iso_of "due_date" else EmptyString)
    true [].

Definition order_violated : bool :=
  truthy (issueDate field_values) && truthy (dueDate field_values) &&
  str_le (dueDate field_values) (issueDate field_values).

Definition all_errors : list string :=
  field_errors ++ errors_if (negb order_violated) (msg_order rowNumber).

End Row.

End ValidatorView.

Module ImporterView.
Import JS Num Importer.

(** The rows of a batch with their row numbers, as the callbacks see
    them: [i + index + 1]. *)
Fixpoint numbered (i index : nat) (batch : list InvoiceData) : list (nat * InvoiceData) :=
  match batch with
  | [] => []
  | invoice :: rest => (i + index + 1, invoice) :: numbered i (S index) rest
  end.

Definition valid_row (p : nat * InvoiceData) : bool := isValid (snd p).

(** The backend creates the record of a row without error. *)
Definition created (B : Backend) (p : nat * InvoiceData) : bool :=
  match invoice_create B (fst p) (snd p) with
  | Resolved None _ => true
  | _ => false
  end.

(** A row succeeds when it is valid and its record is created. *)
Definition succeeds (B : Backend) (p : nat * InvoiceData) : bool :=
  valid_row p && created B p.

Definition create_event (jobId : string) (p : nat * InvoiceData) : event :=
  InvoiceCreate (fst p) (snd p) jobId.

Definition settled_event (p : nat * InvoiceData) : event := InvoiceSettled (fst p).

(** The order in which the pending creations settle. *)
Fixpoint settle_order (B : Backend) (n : nat) (pending : list (nat * InvoiceData))
  : list (nat * InvoiceData) :=
  match n with
  | 0 => []
  | S n' =>
      let k := pick B (map fst pending) mod length pending in
      match pending !! k with
      | Some p => p :: settle_order B n' (delete k pending)
      | None => []
      end
  end.

Definition count {A : Type} (f : A -> bool) (xs : list A) : nat :=
  length (List.filter f xs).

(** What one batch, starting at index [i], appends to the log. *)
Definition segment (B : Backend) (jobId : string) (i : nat) (batch : list InvoiceData)
  : list event :=
  let pending := List.filter valid_row (numbered i 0 batch) in
  BatchStarted (i / batchSize + 1) (length batch) ::
  map (create_event jobId) pending ++
  map settled_event (settle_order B (length pending) pending) ++
  [BatchCompleted (i / batchSize + 1)].

(** The segments of [nb] batches in a row, the first one at index [i]. *)
Fixpoint segments (B : Backend) (jobId : string) (invoiceData : list InvoiceData)
  (i nb : nat) : list (list event) :=
  match nb with
  | 0 => []
  | S nb' =>
      segment B jobId i (slice i (i + batchSize) invoiceData) ::
      segments B jobId invoiceData (i + batchSize) nb'
  end.

(** The number of batches still to run at index [i] out of [n] rows. *)
Definition batches_left (n i : nat) : nat := (n - i + (batchSize - 1)) / batchSize.

(** [Math.ceil(n / batchSize)] *)
Definition totalBatches (n : nat) : nat := (n + (batchSize - 1)) / batchSize.

(** The batch of the turn number [k], counted from 0. *)
Definition batch_at (invoiceData : list InvoiceData) (k : nat) : list InvoiceData :=
  slice (batchSize * k) (batchSize * k + batchSize) invoiceData.

(** An event that writes the count fields of the job record. *)
Definition writes_counts (e : event) : bool :=
  match e with
  | JobCreate _ _ _ _ _ _ _ => true
  | JobUpdate _ _ (Some _) _ => true
  | _ => false
  end.

Definition is_job_update (e : event) : bool :=
  match e with JobUpdate _ _ _ _ => true | _ => false end.

(** The events of the batches touch no job record. *)
Definition batch_event (e : event) : bool :=
  match e with
  | BatchStarted _ _ | InvoiceCreate _ _ _ | InvoiceSettled _ | BatchCompleted _ => true
  | _ => false
  end.

End ImporterView.

Module CascadeView.
Import JS Cascade.

(** The calls for one record: the removal of its attachment and the
    deletion of the record. *)
Definition pdf_removal (invoice : Invoice) : event :=
  RemoveObject (default EmptyString (pdfS3Key invoice)).

Definition record_deletion (invoice : Invoice) : event := DeleteInvoice (id invoice).

(** How many of the record deletions end rejected. *)
Definition failed_deletions (B : Backend) (associatedInvoices : list Invoice) : nat :=
  length (List.filter (deletion_rejected B) associatedInvoices).

(** The backend, asked to delete the record, does not delete it: the
    call throws, or its answer carries errors. *)
Definition refused (B : Backend) (invoice : Invoice) : bool :=
  match delete_invoice B (id invoice) with
  | Resolved None _ => false
  | Resolved (Some _) _ => true
  | Rejected _ => true
  end.

(** How many of the records the backend refuses to delete. *)
Definition refusals (B : Backend) (invoices : list Invoice) : nat :=
  length (List.filter (refused B) invoices).

(** The removals of the attachments of the records that have one, in the
    order of the records. *)
Fixpoint attachment_removals (invoices : list Invoice) : list event :=
  match invoices with
  | [] => []
  | invoice :: rest =>
      match pdfS3Key invoice with
      | Some (String c key) => RemoveObject (String c key) :: attachment_removals rest
      | _ => attachment_removals rest
      end
  end.

(** The records of a job, when the backend lists them without error; a
    listing without data counts as empty. *)
Definition records_of (B : Backend) (job : Job) : option (list Invoice) :=
  match list_invoices B (job_id job) with
  | Resolved None (Some invoices) => Some invoices
  | Resolved None None => Some []
  | _ => None
  end.

(** The backend deletes the job: the call returns without errors. *)
Definition job_deleted (B : Backend) (job : Job) : bool :=
  match delete_job B (job_id job) with
  | Resolved None _ => true
  | _ => false
  end.

(** The cascade of a job goes through: its records are listed, none of
    their deletions is refused, and the job is deleted. *)
Definition job_ok (B : Backend) (job : Job) : bool :=
  match records_of B job with
  | Some invoices => (refusals B invoices =? 0)%nat && job_deleted B job
  | None => false
  end.

(** The calls for one job: the listing of its records; then, when they
    are listed, the removals of their attachments, the deletion of every
    record and, when no record deletion is refused, the deletion of the
    job. *)
Definition job_calls (B : Backend) (job : Job) : list event :=
  ListInvoices (job_id job) ::
  match records_of B job with
  | Some invoices =>
      attachment_removals invoices ++
      map (fun invoice => DeleteInvoice (id invoice)) invoices ++
      (if (refusals B invoices =? 0)%nat then [DeleteJob (job_id job)] else [])
  | None => []
  end.

(** The jobs up to and including the first one whose cascade does not go
    through. *)
Fixpoint reached (B : Backend) (jobs : list Job) : list Job :=
  match jobs with
  | [] => []
  | job :: rest => job :: (if job_ok B job then reached B rest else [])
  end.

End CascadeView.

Module PdfView.
Import Pdf.

Definition is_storage_remove (e : event) : bool :=
  match e with StorageRemove _ => true | _ => false end.

End PdfView.

(* ===================================================================== *)
(** * Sample inputs                                                       *)
(* ===================================================================== *)

Module Samples.
Import JS Num.

(** A header with a double quote inside a field, and one data line. *)
Definition quoted_text : string :=
  "a" ++ String dquote "b" ++ String LF "1".

(** A header line with a repeated header and with the header
    [__proto__], a full data line and a short one. *)
Definition positional_text : string :=
  "a, b ,__proto__,a" ++ String LF (" 1 ,2,x,3" ++ String LF "4").

Definition uuid : string := "123e4567-e89b-12d3-a456-426614174000".

(** A raw row that passes every rule. *)
Definition good_row : Csv.CsvRow :=
  list_to_map
    [("invoice_id", uuid); ("seller_id", uuid); ("debtor_id", uuid);
     ("currency", "usd"); ("amount", "0.01"); ("product", " widget ");
     ("issue_date", "2024-01-31"); ("due_date", "2024-02-29")].

(** The same row with another amount text. *)
Definition row_with_amount (text : string) : Csv.CsvRow :=
  <["amount" := text]> good_row.

(** The same row, due on the day of issue. *)
Definition same_day_row : Csv.CsvRow := <["due_date" := "2024-01-31"]> good_row.

Definition valid_invoice : Validator.InvoiceData :=
  Validator.mkInvoiceData uuid uuid uuid "USD" (Decimal false 1 (-2)) "widget"
    "2024-01-31" "2024-02-29" true [].

Definition invalid_invoice : Validator.InvoiceData :=
  Validator.mkInvoiceData uuid uuid uuid "" (Decimal false 1 (-2)) "widget"
    "2024-01-31" "2024-02-29" false ["Row 2: Invalid currency."].

(** A backend that creates the job [job-1], parses the file into [rows],
    refuses the rows whose number satisfies [refused], and settles the
    newest pending creation first. *)
Definition backend (rows : list Validator.InvoiceData) (refused : nat -> bool)
  : Importer.Backend :=
  Importer.mkBackend
    (Importer.Resolved None (Some "job-1"))
    (fun _ _ => inl rows)
    (fun globalIndex _ =>
       if refused globalIndex
       then Importer.Resolved (Some ["rejected"]) None
       else Importer.Resolved None (Some tt))
    (fun pending => length pending - 1)
    (Importer.Resolved None (Some tt)).

Definition sixty_rows : list Validator.InvoiceData := repeat valid_invoice 60.

(** Refuses the rows 6, 12, ..., 60. *)
Definition every_sixth (globalIndex : nat) : bool := (globalIndex mod 6 =? 0)%nat.

Definition job : Cascade.Job := Cascade.mkJob "job-1" "invoices.csv".

(** Five records of one job, two of them with an attachment. *)
Definition five_invoices : list Cascade.Invoice :=
  [Cascade.mkInvoice "r1" uuid (Some "pdfs/a.pdf");
   Cascade.mkInvoice "r2" uuid None;
   Cascade.mkInvoice "r3" uuid (Some "pdfs/c.pdf");
   Cascade.mkInvoice "r4" uuid None;
   Cascade.mkInvoice "r5" uuid None].

(** A store that holds that job and those records for the file, where
    the removal of the first attachment fails and the deletion of the
    records named in [stuck] fails. *)
Definition store (stuck : list string) : Cascade.Backend :=
  Cascade.mkBackend true
    (fun _ => Cascade.Resolved None (Some [job]))
    (fun _ => Cascade.Resolved None (Some five_invoices))
    (fun path => if String.eqb path "pdfs/a.pdf" then Some (Some "denied") else None)
    (fun id => if existsb (String.eqb id) stuck
               then Cascade.Resolved (Some ["conflict"]) None
               else Cascade.Resolved None (Some tt))
    (fun _ => Cascade.Resolved None (Some tt)).

(** A store where two jobs point at the file, each with one record that
    has an attachment. *)
Definition two_job_store : Cascade.Backend :=
  Cascade.mkBackend true
    (fun _ => Cascade.Resolved None
                (Some [Cascade.mkJob "job-1" "f.csv"; Cascade.mkJob "job-2" "f.csv"]))
    (fun jobId => Cascade.Resolved None
                    (Some [Cascade.mkInvoice (jobId ++ "-r")%string uuid
                             (Some (jobId ++ ".pdf")%string)]))
    (fun _ => None)
    (fun _ => Cascade.Resolved None (Some tt))
    (fun _ => Cascade.Resolved None (Some tt)).

(** A file of three data rows, the second with a currency that is not
    on the list. *)
Definition three_row_text : string :=
  "invoice_id,seller_id,debtor_id,currency,amount,product,issue_date,due_date"
  ++ String LF (uuid ++ "," ++ uuid ++ "," ++ uuid ++ ",USD,10.50,Widget,2024-01-01,2024-02-01")
  ++ String LF (uuid ++ "," ++ uuid ++ "," ++ uuid ++ ",XXX,20,Gadget,2024-01-01,2024-02-01")
  ++ String LF (uuid ++ "," ++ uuid ++ "," ++ uuid ++ ",eur,30,Gizmo,2024-01-01,2024-02-01")
  ++ String LF EmptyString.

(** A stored invoice record with an attachment, and the table with it. *)
Definition stored_invoice : Pdf.Doc :=
  list_to_map
    [("id", Pdf.Str "r1"); ("invoiceId", Pdf.Str uuid);
     ("amount", Pdf.Number (Decimal false 1 (-2))); ("isValid", Pdf.Boolean true);
     ("pdfS3Key", Pdf.Str "pdfs/a.pdf"); ("pdfS3FullPath", Pdf.Str "bucket/pdfs/a.pdf");
     ("pdfFileName", Pdf.Str "a.pdf"); ("pdfUploadedAt", Pdf.Str "2024-03-01T10:00:00.000Z")].

Definition one_record_table : Pdf.Table := {[ "r1" := stored_invoice ]}.

Definition willing : Pdf.World := Pdf.mkWorld true (fun _ => Pdf.Updated).

End Samples.

(* ===================================================================== *)
(** * More vocabulary and sample inputs                                  *)
(* ===================================================================== *)

Module AmountView.
Import JS Num.

(** A text of decimal digits only. *)
Definition all_digits (s : string) : bool :=
  forallb is_digit (list_ascii_of_string s).

(** What may follow the digits of a whole number without being read as
    part of it: the end of the text, or a character that is no digit, no
    dot and no exponent mark. *)
Definition ends_number (rest : string) : bool :=
  match rest with
  | EmptyString => true
  | String c _ =>
      negb (is_digit c || Ascii.eqb c (chr 46) || Ascii.eqb c (chr 101) || Ascii.eqb c (chr 69))
  end.

End AmountView.

Module CsvView.
Import JS.

Definition CR : ascii := chr 13.

(** The text with every line feed preceded by a carriage return, as a
    file saved with CR LF line ends has it. *)
Fixpoint with_crlf (text : string) : string :=
  match text with
  | EmptyString => EmptyString
  | String c r =>
      if Ascii.eqb c LF then String CR (String LF (with_crlf r))
      else String c (with_crlf r)
  end.

End CsvView.

Module RunView.
Import Importer.

Definition is_create (e : event) : bool :=
  match e with InvoiceCreate _ _ _ => true | _ => false end.

Definition is_settled (e : event) : bool :=
  match e with InvoiceSettled _ => true | _ => false end.

(** The error entry of a row that failed validation. *)
Definition validation_entry (p : nat * Validator.InvoiceData) : ProcessingError :=
  mkProcessingError (fst p) None (Validator.validationErrors (snd p)).

Definition invalid_row (p : nat * Validator.InvoiceData) : bool :=
  negb (Validator.isValid (snd p)).

End RunView.

Module MoreSamples.
Import JS Num.

(** The backend of the samples, answering the oldest pending creation
    first. *)
Definition backend_oldest_first (rows : list Validator.InvoiceData) (refused : nat -> bool)
  : Importer.Backend :=
  Importer.mkBackend
    (Importer.job_create (Samples.backend rows refused))
    (Importer.download_and_parse (Samples.backend rows refused))
    (Importer.invoice_create (Samples.backend rows refused))
    (fun _ => 0)
    (Importer.job_update (Samples.backend rows refused)).

(** A backend that is not reachable when the job is to be created. *)
Definition jobless_backend : Importer.Backend :=
  Importer.mkBackend
    (Importer.Rejected (Some "offline"))
    (fun _ _ => inl [])
    (fun _ _ => Importer.Resolved None (Some tt))
    (fun _ => 0)
    (Importer.Resolved None (Some tt)).

(** A store whose job listing throws. *)
Definition unlisted_store : Cascade.Backend :=
  Cascade.mkBackend true
    (fun _ => Cascade.Rejected (Some "offline"))
    (fun _ => Cascade.Resolved None (Some Samples.five_invoices))
    (fun _ => None)
    (fun _ => Cascade.Resolved None (Some tt))
    (fun _ => Cascade.Resolved None (Some tt)).

(** A PDF whose name has characters that are not kept in a key. *)
Definition pdf_file : PdfUpload.File :=
  PdfUpload.mkFile "Invoice #1 (final).pdf" "application/pdf".

(** A signed-in user, no configured bucket, a store that answers every
    upload with the path it was sent to and signs URLs of the
    virtual-hosted form, and a data API that accepts every update. *)
Definition upload_world : PdfUpload.World :=
  PdfUpload.mkWorld (Some "eu-west-1:abc") 1700 1701 "2024-03-02T09:00:00.000Z"
    (PdfUpload.mkConfig None (PdfUpload.Item None) (fun _ => None) (PdfUpload.Item None))
    (fun path => inl path)
    (fun path => Some ("https://my-bucket.s3.eu-west-1.amazonaws.com/" ++ path)%string)
    (fun _ => PdfUpload.Answered None true).

(** The rows of the three-row sample file, and the second of them. *)
Definition three_rows : list Csv.CsvRow := Csv.parseCSV Samples.three_row_text.

Definition first_row : Csv.CsvRow := default ∅ (three_rows !! 0).

Definition second_row : Csv.CsvRow := default ∅ (three_rows !! 1).

End MoreSamples.

Module DeletionView.
Import Cascade.

(** A call that deletes something. *)
Definition is_deletion (e : event) : bool :=
  match e with
  | RemoveObject _ | DeleteInvoice _ | DeleteJob _ => true
  | ListJobs _ | ListInvoices _ => false
  end.

End DeletionView.

Module PdfUploadView.
Import JS PdfUpload.

(** A character that a sanitized file name may hold: one of the class,
    or the underscore that replaces the others. *)
Definition kept_char (c : ascii) : bool := safe_char c || Ascii.eqb c (chr 95).

Definition no_dot (s : string) : bool :=
  forallb (fun c => negb (Ascii.eqb c (chr 46))) (list_ascii_of_string s).

End PdfUploadView.

(* ===================================================================== *)
(** * Facts about the string helpers and the CSV parser                   *)
(* ===================================================================== *)

Module CsvFacts.
Import JS Csv.

Lemma value_at_default (values : list string) (index : nat) :
  value_at values index = default EmptyString (values !! index).
Proof.
  unfold value_at. destruct (values !! index) as [v|]; simpl; [|reflexivity].
  destruct v; reflexivity.
Qed.

Lemma set_prop_lookup_ne (row : CsvRow) (header v k : string) :
  header <> k -> set_prop row header v !! k = row !! k.
Proof.
  intros Hne. unfold set_prop.
  destruct (String.eqb header "__proto__"); [reflexivity|].
  by rewrite lookup_insert_ne.
Qed.

Lemma set_prop_lookup_eq (row : CsvRow) (k v : string) :
  k <> "__proto__" -> set_prop row k v !! k = Some v.
Proof.
  intros Hne. unfold set_prop.
  destruct (String.eqb_spec k "__proto__") as [->|_]; [done|].
  by rewrite lookup_insert_eq.
Qed.

(** A key that is no header keeps what the row held for it. *)
Lemma fill_lookup_other (headers : list string) (index : nat)
  (values : list string) (row : CsvRow) (k : string) :
  k ∉ headers -> fill headers index values row !! k = row !! k.
Proof.
  revert index row. induction headers as [|h rest IH]; intros index row Hk; simpl.
  - reflexivity.
  - apply not_elem_of_cons in Hk as [Hne Hrest].
    rewrite IH by assumption. apply set_prop_lookup_ne. congruence.
Qed.

(** A header holds the value at the position of its last occurrence. *)
Lemma fill_lookup_last (headers : list string) (index : nat)
  (values : list string) (row : CsvRow) (j : nat) (k : string) :
  headers !! j = Some k ->
  (forall j', j < j' -> headers !! j' <> Some k) ->
  k <> "__proto__" ->
  fill headers index values row !! k = Some (value_at values (index + j)).
Proof.
  revert index row j. induction headers as [|h rest IH]; intros index row j Hj Hlast Hk.
  - discriminate.
  - simpl. destruct j as [|j]; simpl in Hj.
    + injection Hj as ->.
      rewrite fill_lookup_other.
      * rewrite Nat.add_0_r. by apply set_prop_lookup_eq.
      * intros Hin. apply list_elem_of_lookup in Hin as [i Hi].
        apply (Hlast (S i)); [lia | exact Hi].
    + rewrite (IH (S index) _ j Hj).
      * f_equal. f_equal. lia.
      * intros j' Hlt. apply (Hlast (S j')). lia.
      * exact Hk.
Qed.

(** No header makes [__proto__] a property of the row. *)
Lemma fill_lookup_proto (headers : list string) (index : nat)
  (values : list string) (row : CsvRow) :
  fill headers index values row !! "__proto__" = row !! "__proto__".
Proof.
  revert index row. induction headers as [|h rest IH]; intros index row; simpl.
  - reflexivity.
  - rewrite IH. unfold set_prop.
    destruct (String.eqb_spec h "__proto__") as [->|Hne]; [reflexivity|].
    by rewrite lookup_insert_ne.
Qed.

Lemma remove_all_absent (c : ascii) (s : string) :
  c ∉ list_ascii_of_string (remove_all c s).
Proof.
  induction s as [|d r IH]; simpl.
  - apply not_elem_of_nil.
  - destruct (Ascii.eqb_spec d c) as [->|Hne]; [exact IH|].
    simpl. apply not_elem_of_cons. split; [congruence | exact IH].
Qed.

End CsvFacts.

Module CsvClaims.
Import JS Csv CsvFacts.

(** C8 (amended).  [parseCSV] keeps the lines that are not blank.  With
    fewer than two of them (an empty or header-only text) it returns no
    row.  Otherwise the first one is the header, split at the commas, and
    each later line gives one row, in order; every header and value field
    is trimmed of surrounding white space and then loses every double
    quote, wherever it stands in the field.  In a row, a key that is no
    header is absent; a header holds the field at the position of its
    last occurrence in the header line, or the empty string when the line
    has no field there; and the header [__proto__] is absent too, as the
    assignment to it creates no property. *)
Theorem parseCSV_positional (csvText : string) :
  let lines := filter (fun line => trim line <> EmptyString) (split LF csvText) in
  (length lines < 2 -> parseCSV csvText = []) /\
  (forall first data, lines = first :: data -> data <> [] ->
     let headers := map clean (split comma first) in
     length (parseCSV csvText) = length data /\
     forall i line, data !! i = Some line ->
       exists row, parseCSV csvText !! i = Some row /\
         let values := map clean (split comma line) in
         (forall k, k ∉ headers -> row !! k = None) /\
         (forall j k, headers !! j = Some k ->
            (forall j', j < j' -> headers !! j' <> Some k) ->
            row !! k = if String.eqb k "__proto__" then None
                       else Some (default EmptyString (values !! j)))) /\
  (forall field,
     clean field = remove_all dquote (trim field) /\
     dquote ∉ list_ascii_of_string (clean field)).
Proof.
  assert (Hlines : filter (fun line => trim line <> EmptyString) (split LF csvText)
                   = nonblank_lines csvText).
  { unfold nonblank_lines. apply list_filter_iff. intros line.
    destruct (trim line); simpl; split; intros H; try done. }
  cbv zeta. rewrite Hlines. split; [|split].
  - intros Hlen. unfold parseCSV.
    destruct (Nat.ltb_spec (length (nonblank_lines csvText)) 2); [reflexivity | lia].
  - intros first data Heq Hdata. unfold parseCSV. rewrite Heq.
    destruct data as [|d1 data']; [done|]. clear Hdata.
    change (length (first :: d1 :: data') <? 2)%nat with false. cbv iota.
    split; [by rewrite length_map|].
    intros i line Hi. exists (parse_line (map clean (split comma first)) line).
    split; [by rewrite list_lookup_fmap, Hi|].
    unfold parse_line. split.
    + intros k Hk. rewrite fill_lookup_other by assumption. apply lookup_empty.
    + intros j k Hj Hlast.
      destruct (String.eqb_spec k "__proto__") as [->|Hk].
      * rewrite fill_lookup_proto. apply lookup_empty.
      * rewrite (fill_lookup_last _ 0 _ _ j k Hj Hlast Hk).
        by rewrite value_at_default.
  - intros field. split; [reflexivity | apply remove_all_absent].
Qed.

(** A header line [a, b ,__proto__,a] and the data lines [ 1 ,2,x,3]
    and [4]: in the first row [a] holds the field under its last
    occurrence and [b] its trimmed field, [__proto__] and a key that is
    no header are absent; in the second row the missing fields are empty
    strings.  The empty text has no row. *)
Lemma parseCSV_positional_witness :
  (exists row,
     parseCSV Samples.positional_text !! 0 = Some row /\
     row !! "a" = Some "3" /\ row !! "b" = Some "2" /\
     row !! "__proto__" = None /\ row !! "c" = None) /\
  (exists row,
     parseCSV Samples.positional_text !! 1 = Some row /\
     row !! "a" = Some EmptyString /\ row !! "b" = Some EmptyString) /\
  length (parseCSV Samples.positional_text) = 2 /\
  parseCSV EmptyString = [].
Proof.
  assert (Hlines :
    filter (fun line => trim line <> EmptyString) (split LF Samples.positional_text) =
    "a, b ,__proto__,a" :: [" 1 ,2,x,3"; "4"]) by (vm_compute; reflexivity).
  destruct (proj1 (proj2 (parseCSV_positional Samples.positional_text))
              "a, b ,__proto__,a" [" 1 ,2,x,3"; "4"] Hlines) as [Hlen Hrows];
    [discriminate|].
  assert (Hlast : forall (k : string) (j j' : nat), 3 <= j' ->
            map clean (split comma "a, b ,__proto__,a") !! (S j') <> Some k).
  { intros k j j' Hj'. do 3 (destruct j' as [|j']; [lia|]). discriminate. }
  split; [|split; [|split]].
  - destruct (Hrows 0 " 1 ,2,x,3" eq_refl) as (row & Hrow & Hother & Hheader).
    exists row. split; [exact Hrow|]. split; [|split; [|split]].
    + rewrite (Hheader 3 "a" eq_refl).
      * reflexivity.
      * intros j' Hj'. destruct j' as [|j']; [lia|]. apply (Hlast "a" 0). lia.
    + rewrite (Hheader 1 "b" eq_refl).
      * reflexivity.
      * intros j' Hj'. do 2 (destruct j' as [|j']; [lia|]).
        destruct j' as [|j']; [discriminate|].
        destruct j' as [|j']; [discriminate|]. apply (Hlast "b" 0). lia.
    + rewrite (Hheader 2 "__proto__" eq_refl).
      * reflexivity.
      * intros j' Hj'. do 3 (destruct j' as [|j']; [lia|]).
        destruct j' as [|j']; [discriminate|]. apply (Hlast "__proto__" 0). lia.
    + apply Hother.
      change (map clean (split comma "a, b ,__proto__,a"))
        with ["a"; "b"; "__proto__"; "a"].
      repeat (apply not_elem_of_cons; split; [discriminate|]).
      apply not_elem_of_nil.
  - destruct (Hrows 1 "4" eq_refl) as (row & Hrow & _ & Hheader).
    exists row. split; [exact Hrow|]. split.
    + rewrite (Hheader 3 "a" eq_refl).
      * reflexivity.
      * intros j' Hj'. destruct j' as [|j']; [lia|]. apply (Hlast "a" 0). lia.
    + rewrite (Hheader 1 "b" eq_refl).
      * reflexivity.
      * intros j' Hj'. do 2 (destruct j' as [|j']; [lia|]).
        destruct j' as [|j']; [discriminate|].
        destruct j' as [|j']; [discriminate|]. apply (Hlast "b" 0). lia.
  - exact Hlen.
  - apply (proj1 (parseCSV_positional EmptyString)). simpl. lia.
Defined.

(** C8, as first stated, fails: a quote inside a field is dropped too,
    so the header [a]QUOTE[b] becomes the key [ab], where trimming only
    surrounding quotes keeps the quote. *)
Lemma parseCSV_drops_inner_quote :
  parseCSV Samples.quoted_text <> Described.parseCSV_described Samples.quoted_text.
Proof.
  intros H.
  apply (f_equal (fun rows => (rows !! 0) ≫= (fun row : CsvRow => row !! "ab"))) in H.
  vm_compute in H. discriminate H.
Qed.

Example parseCSV_header_only : parseCSV ("a,b,c" ++ String LF EmptyString) = [].
Proof. reflexivity. Qed.

Example parseCSV_missing_trailing :
  parseCSV ("a,b,c" ++ String LF "1,2") =
  [ <["a" := "1"]> (<["b" := "2"]> (<["c" := EmptyString]> ∅)) ].
Proof. vm_compute. reflexivity. Qed.

End CsvClaims.

(* ===================================================================== *)
(** * Facts about the row validator                                      *)
(* ===================================================================== *)

Module ValidatorFacts.
Import JS Num Validator.

(** ** Strings *)

Lemma append_inj_l (p a b : string) : (p ++ a = p ++ b)%string -> a = b.
Proof.
  induction p as [|c p IH]; simpl; intros H; [exact H|].
  injection H as H. auto.
Qed.

Lemma truthy_iso_day (d : Date) : truthy (iso_day d) = true.
Proof. reflexivity. Qed.

(** [a <= b] fails exactly when [b < a]. *)
Lemma str_le_false_lt (a b : string) : str_le a b = false -> str_lt b a = true.
Proof.
  unfold str_le, str_lt, String.leb, String.ltb.
  rewrite (String.compare_antisym a b).
  destruct (String.compare b a); simpl; congruence.
Qed.

(** ** The printed day and the calendar *)

Lemma digit_char_compare (a b : nat) :
  a < 10 -> b < 10 ->
  Ascii.compare (digit_char a) (digit_char b) = Nat.compare a b.
Proof.
  intros Ha Hb.
  do 10 (destruct a as [|a]; [ do 10 (destruct b as [|b]; [reflexivity|]); lia |]).
  lia.
Qed.

Lemma digit_char_mod (n : nat) : digit_char n = digit_char (n mod 10).
Proof. unfold digit_char. rewrite Nat.Div0.mod_mod. reflexivity. Qed.

Lemma string_compare_cons (c1 c2 : ascii) (s1 s2 : string) :
  String.compare (String c1 s1) (String c2 s2) =
  match Ascii.compare c1 c2 with
  | Eq => String.compare s1 s2
  | o => o
  end.
Proof. reflexivity. Qed.

Lemma digit_char_compare_mod (a b : nat) :
  Ascii.compare (digit_char a) (digit_char b) = Nat.compare (a mod 10) (b mod 10).
Proof.
  rewrite (digit_char_mod a), (digit_char_mod b).
  apply digit_char_compare; apply Nat.mod_upper_bound; lia.
Qed.

Lemma lex_ltb_iff (y1 y2 m1 m2 d1 d2 : nat) :
  ((y1 <? y2) || (y1 =? y2) && ((m1 <? m2) || (m1 =? m2) && (d1 <? d2)))%nat = true <->
  y1 < y2 \/ (y1 = y2 /\ (m1 < m2 \/ (m1 = m2 /\ d1 < d2))).
Proof.
  rewrite !orb_true_iff, !andb_true_iff, !orb_true_iff, !andb_true_iff,
    !Nat.ltb_lt, !Nat.eqb_eq. reflexivity.
Qed.

Lemma four_digits (n : nat) :
  n < 100 * 100 ->
  n = 1000 * ((n / 1000) mod 10) + 100 * ((n / 100) mod 10) + 10 * ((n / 10) mod 10) + n mod 10.
Proof.
  intros H.
  assert (H1 : n / 100 = n / 10 / 10) by (rewrite Nat.Div0.div_div; reflexivity).
  assert (H2 : n / 1000 = n / 100 / 10) by (rewrite Nat.Div0.div_div; reflexivity).
  assert (H3 : n / 1000 < 10) by (apply Nat.Div0.div_lt_upper_bound; lia).
  rewrite (Nat.mod_small (n / 1000) 10 H3).
  pose proof (Nat.div_mod_eq n 10) as E0.
  pose proof (Nat.div_mod_eq (n / 10) 10) as E1.
  pose proof (Nat.div_mod_eq (n / 100) 10) as E2.
  rewrite <- H1 in E1. rewrite <- H2 in E2.
  lia.
Qed.

Lemma two_digits (n : nat) :
  n < 100 -> n = 10 * ((n / 10) mod 10) + n mod 10.
Proof.
  intros H.
  assert (H3 : n / 10 < 10) by (apply Nat.Div0.div_lt_upper_bound; lia).
  rewrite (Nat.mod_small (n / 10) 10 H3).
  pose proof (Nat.div_mod_eq n 10) as E0. lia.
Qed.

Lemma iso_day_lt (a b : Date) :
  year a < 100 * 100 -> year b < 100 * 100 ->
  month a < 100 -> month b < 100 -> day a < 100 -> day b < 100 ->
  str_lt (iso_day a) (iso_day b) = date_ltb a b.
Proof.
  destruct a as [ya ma da], b as [yb mb db]. cbn [year month day].
  intros Hya Hyb Hma Hmb Hda Hdb.
  unfold str_lt, String.ltb, iso_day, pad4, pad2, date_ltb. cbn [year month day].
  cbv [String.append].
  rewrite !string_compare_cons, !digit_char_compare_mod.
  change (Ascii.compare "-" "-") with Eq. cbv iota.
  change (String.compare EmptyString EmptyString) with Eq.
  pose proof (four_digits ya Hya) as Eya. pose proof (four_digits yb Hyb) as Eyb.
  pose proof (two_digits ma Hma) as Ema. pose proof (two_digits mb Hmb) as Emb.
  pose proof (two_digits da Hda) as Eda. pose proof (two_digits db Hdb) as Edb.
  repeat match goal with
         | H : context [?x mod 10] |- _ =>
             let u := fresh "u" in
             set (u := x mod 10) in *;
             assert (u < 10) by (apply Nat.mod_upper_bound; lia);
             clearbody u
         end.
  repeat match goal with
         | |- context [Nat.compare ?x ?y] => destruct (Nat.compare_spec x y)
         end;
  symmetry;
  first [ apply lex_ltb_iff; lia
        | apply not_true_iff_false; rewrite lex_ltb_iff; lia ].
Qed.

(** ** Each check adds its errors and its update, whatever the state *)

Section Checks.
Variable day_rollover : bool.
Variable row : CsvRow.
Variable rowNumber : nat.

Local Abbreviation uuid_ok := (ValidatorView.uuid_ok row).
Local Abbreviation currency_ok := (ValidatorView.currency_ok row).
Local Abbreviation parsed_amount := (ValidatorView.parsed_amount row).
Local Abbreviation amount_ok := (ValidatorView.amount_ok row).
Local Abbreviation product_ok := (ValidatorView.product_ok row).
Local Abbreviation date_ok := (ValidatorView.date_ok day_rollover row).
Local Abbreviation field_of := (ValidatorView.field_of row).
Local Abbreviation iso_of := (ValidatorView.iso_of day_rollover row).
Local Abbreviation field_errors := (ValidatorView.field_errors day_rollover row rowNumber).
Local Abbreviation field_values := (ValidatorView.field_values day_rollover row).
Local Abbreviation order_violated := (ValidatorView.order_violated day_rollover row).
Local Abbreviation all_errors := (ValidatorView.all_errors day_rollover row rowNumber).
Local Abbreviation errors_if := ValidatorView.errors_if.
Local Abbreviation update_if := ValidatorView.update_if.

Lemma formatDateString_defined (v : string) :
  isValidDate day_rollover v = true ->
  exists d, Date_new day_rollover v = Some d /\
            formatDateString day_rollover v = Some (iso_day d).
Proof.
  unfold isValidDate, formatDateString.
  destruct (Date_new day_rollover v) as [d|]; [|discriminate].
  intros _. exists d. split; reflexivity.
Qed.

Ltac settle_check :=
  cbn [fst snd negb orb andb default]; rewrite ?app_nil_r; try reflexivity.

Lemma check_uuid_spec field store st :
  check_uuid row rowNumber field store st =
  (fst st ++ errors_if (uuid_ok field) (msg_uuid rowNumber field),
   update_if (uuid_ok field) (store (field_of field)) (snd st)).
Proof.
  unfold check_uuid, ValidatorView.uuid_ok, ValidatorView.field_of, push, update, ValidatorView.errors_if, ValidatorView.update_if.
  destruct st as [es i]. destruct (row !! field) as [v|]; [|settle_check].
  destruct (truthy v), (isValidUUID v); settle_check.
Qed.

Lemma check_currency_spec st :
  check_currency row rowNumber st =
  (fst st ++ errors_if currency_ok (msg_currency rowNumber),
   update_if currency_ok (with_currency (toUpperCase (field_of "currency"))) (snd st)).
Proof.
  unfold check_currency, ValidatorView.currency_ok, ValidatorView.field_of, push, update, ValidatorView.errors_if, ValidatorView.update_if.
  destruct st as [es i]. destruct (row !! "currency") as [v|]; [|settle_check].
  destruct (truthy v), (includes validCurrencies (toUpperCase v)); settle_check.
Qed.

Lemma check_amount_spec st :
  check_amount row rowNumber st =
  (fst st ++ errors_if amount_ok (msg_amount rowNumber),
   update_if amount_ok (with_amount parsed_amount) (snd st)).
Proof.
  unfold check_amount, ValidatorView.amount_ok, push, update, ValidatorView.errors_if, ValidatorView.update_if.
  fold parsed_amount.
  destruct st as [es i].
  destruct (isNaN parsed_amount || le_zero parsed_amount); settle_check.
Qed.

Lemma check_product_spec st :
  check_product row rowNumber st =
  (fst st ++ errors_if product_ok (msg_product rowNumber),
   update_if product_ok (with_product (trim (field_of "product"))) (snd st)).
Proof.
  unfold check_product, ValidatorView.product_ok, ValidatorView.field_of, push, update, ValidatorView.errors_if, ValidatorView.update_if.
  destruct st as [es i]. destruct (row !! "product") as [v|]; [|settle_check].
  destruct (truthy v), (String.length (trim v) =? 0)%nat; settle_check.
Qed.

Lemma check_date_spec field store st :
  check_date day_rollover row rowNumber field store st =
  (fst st ++ errors_if (date_ok field) (msg_date rowNumber field),
   update_if (date_ok field) (store (iso_of field)) (snd st)).
Proof.
  unfold check_date, ValidatorView.date_ok, ValidatorView.iso_of, ValidatorView.field_of, push, update, ValidatorView.errors_if, ValidatorView.update_if.
  destruct st as [es i]. destruct (row !! field) as [v|]; [|settle_check].
  destruct (truthy v); [|settle_check].
  destruct (isValidDate day_rollover v) eqn:Hv; [|settle_check].
  destruct (formatDateString_defined v Hv) as (d & _ & Hf).
  settle_check. unfold id. rewrite !Hf. reflexivity.
Qed.

(** [validateInvoiceData] in closed form. *)
Lemma validateInvoiceData_closed :
  validateInvoiceData day_rollover row rowNumber =
  finish (all_errors, field_values).
Proof.
  unfold validateInvoiceData.
  rewrite !check_uuid_spec, check_currency_spec, check_amount_spec,
    check_product_spec, !check_date_spec.
  cbn [fst snd].
  assert (Hv : update_if (date_ok "due_date") (with_dueDate (iso_of "due_date"))
    (update_if (date_ok "issue_date") (with_issueDate (iso_of "issue_date"))
    (update_if product_ok (with_product (trim (field_of "product")))
    (update_if amount_ok (with_amount parsed_amount)
    (update_if currency_ok (with_currency (toUpperCase (field_of "currency")))
    (update_if (uuid_ok "debtor_id") (with_debtorId (field_of "debtor_id"))
    (update_if (uuid_ok "seller_id") (with_sellerId (field_of "seller_id"))
    (update_if (uuid_ok "invoice_id") (with_invoiceId (field_of "invoice_id"))
       blank))))))) = field_values).
  { unfold ValidatorView.field_values, ValidatorView.update_if.
    destruct (uuid_ok "invoice_id"), (uuid_ok "seller_id"), (uuid_ok "debtor_id"),
      currency_ok, amount_ok, product_ok, (date_ok "issue_date"), (date_ok "due_date");
      reflexivity. }
  rewrite Hv.
  assert (He : forall es : list string, [] ++ es = es) by reflexivity.
  rewrite He. rewrite <- !app_assoc. fold field_errors.
  unfold check_order, ValidatorView.all_errors, ValidatorView.order_violated, push, ValidatorView.errors_if. cbn [fst snd].
  destruct (truthy (issueDate field_values) && truthy (dueDate field_values)
            && str_le (dueDate field_values) (issueDate field_values)); simpl.
  - reflexivity.
  - rewrite app_nil_r. reflexivity.
Qed.

Lemma validationErrors_closed :
  validationErrors (validateInvoiceData day_rollover row rowNumber) = all_errors.
Proof.
  rewrite validateInvoiceData_closed. unfold finish.
  destruct all_errors as [|e es] eqn:He; reflexivity.
Qed.

Lemma isValid_closed :
  isValid (validateInvoiceData day_rollover row rowNumber) = true <-> all_errors = [].
Proof.
  rewrite validateInvoiceData_closed. unfold finish.
  destruct all_errors as [|e es] eqn:He; simpl; split; congruence.
Qed.

(** ** One error message per rule *)

Ltac distinct_messages :=
  match goal with
  | H : (row_prefix _ ++ _)%string = (row_prefix _ ++ _)%string |- _ =>
      apply append_inj_l in H; vm_compute in H; discriminate H
  end.

Lemma in_errors_if (ok : bool) (msg m : string) :
  In m (errors_if ok msg) <-> ok = false /\ msg = m.
Proof.
  unfold ValidatorView.errors_if. destruct ok; simpl; split; intros H.
  - contradiction.
  - destruct H; discriminate.
  - destruct H as [H|[]]. split; [reflexivity | exact H].
  - left. apply H.
Qed.

Lemma msg_amount_in :
  In (msg_amount rowNumber) all_errors <-> amount_ok = false.
Proof.
  unfold ValidatorView.all_errors, ValidatorView.field_errors. rewrite !in_app_iff, !in_errors_if.
  unfold msg_uuid, msg_currency, msg_amount, msg_product, msg_date, msg_order.
  split.
  - intros H. repeat destruct H as [H|H]; destruct H as [Hok Hm];
      first [ exact Hok | distinct_messages ].
  - intros H. left. do 4 right. left. split; [exact H | reflexivity].
Qed.

Lemma msg_order_in :
  In (msg_order rowNumber) all_errors <-> order_violated = true.
Proof.
  unfold ValidatorView.all_errors, ValidatorView.field_errors. rewrite !in_app_iff, !in_errors_if.
  unfold msg_uuid, msg_currency, msg_amount, msg_product, msg_date, msg_order.
  split.
  - intros H. repeat destruct H as [H|H]; destruct H as [Hok Hm];
      first [ distinct_messages | by apply negb_false_iff in Hok ].
  - intros H. right. split; [by rewrite H | reflexivity].
Qed.

Lemma all_errors_nil :
  all_errors = [] ->
  date_ok "issue_date" = true /\ date_ok "due_date" = true /\ order_violated = false.
Proof.
  unfold ValidatorView.all_errors, ValidatorView.field_errors, ValidatorView.errors_if. intros H.
  destruct (date_ok "issue_date").
  2:{ exfalso. apply (f_equal (@length string)) in H.
      rewrite !length_app in H. simpl in H. lia. }
  destruct (date_ok "due_date").
  2:{ exfalso. apply (f_equal (@length string)) in H.
      rewrite !length_app in H. simpl in H. lia. }
  destruct order_violated.
  { exfalso. apply (f_equal (@length string)) in H.
    rewrite !length_app in H. simpl in H. lia. }
  repeat split.
Qed.

Lemma date_ok_parsed (field : string) :
  date_ok field = true ->
  exists d, Date_new day_rollover (field_of field) = Some d /\ iso_of field = iso_day d.
Proof.
  unfold ValidatorView.date_ok, ValidatorView.iso_of, ValidatorView.field_of. destruct (row !! field) as [v|]; [|discriminate].
  intros H. apply andb_true_iff in H as [_ Hv].
  destruct (formatDateString_defined v Hv) as (d & Hd & Hf).
  exists d. simpl. rewrite Hf. split; [exact Hd | reflexivity].
Qed.

End Checks.

(** ** What [new Date] answers on a date-only string *)

Lemma is_digit_value (c : ascii) : is_digit c = true -> (digit_value c <= 9)%N.
Proof.
  unfold is_digit, digit_value. intros H.
  apply andb_true_iff in H as [H1 H2].
  apply Nat.leb_le in H1, H2. lia.
Qed.

Lemma dateRegex_shape (s : string) :
  matches dateRegex s = true ->
  exists y1 y2 y3 y4 m1 m2 d1 d2,
    s = String y1 (String y2 (String y3 (String y4 (String "-"
         (String m1 (String m2 (String "-" (String d1 (String d2 EmptyString))))))))) /\
    Forall (fun c => is_digit c = true) [y1; y2; y3; y4; m1; m2; d1; d2].
Proof.
  unfold dateRegex. cbn [repeat app]. intros H.
  do 10 (destruct s as [|? s]; [discriminate H|];
         cbn [matches] in H; apply andb_true_iff in H; destruct H as [? H]).
  destruct s; [|discriminate H].
  repeat match goal with
         | D : dash _ = true |- _ => apply Ascii.eqb_eq in D; subst
         end.
  do 8 eexists. split; [reflexivity|].
  repeat constructor; assumption.
Qed.

Lemma Date_new_range (day_rollover : bool) (s : string) (d : Date) :
  Date_new day_rollover s = Some d ->
  year d < 100 * 100 /\ month d < 100 /\ day d < 100 /\ matches dateRegex s = true.
Proof.
  unfold Date_new. destruct (matches dateRegex s) eqn:Hm; [|discriminate].
  destruct (dateRegex_shape s Hm) as (y1 & y2 & y3 & y4 & m1 & m2 & d1 & d2 & -> & Hd).
  repeat match goal with
         | H : Forall _ (_ :: _) |- _ => inversion H; subst; clear H
         end.
  repeat match goal with
         | H : is_digit _ = true |- _ => apply is_digit_value in H
         end.
  cbn [substring]. unfold nat_of_digits. cbn [digits_value].
  set (y := N.to_nat (_ + digit_value y4)). set (m := N.to_nat (_ + digit_value m2)).
  set (dd := N.to_nat (_ + digit_value d2)).
  assert (Hy : y < 100 * 100) by (subst y; lia).
  assert (Hdd : dd < 100) by (subst dd; lia).
  clearbody y m dd.
  destruct ((1 <=? m)%nat && (m <=? 12)%nat && (1 <=? dd)%nat) eqn:Hc; [|discriminate].
  apply andb_true_iff in Hc as [Hc _]. apply andb_true_iff in Hc as [_ Hc].
  apply Nat.leb_le in Hc.
  destruct (dd <=? days_in_month y m)%nat.
  - intros [= <-]. cbn [year month day]. repeat split; lia.
  - destruct (day_rollover && (dd <=? 31)%nat); [|discriminate].
    intros [= <-]. cbn [year month day]. repeat split; lia.
Qed.

End ValidatorFacts.

(* ===================================================================== *)
(** * The row validator: the properties claimed                          *)
(* ===================================================================== *)

Module ValidatorClaims.
Import JS Num Validator ValidatorView ValidatorFacts.

Lemma finish_fields (st : vstate) :
  amount (finish st) = amount (snd st) /\
  issueDate (finish st) = issueDate (snd st) /\
  dueDate (finish st) = dueDate (snd st).
Proof.
  destruct st as [es i]. unfold finish. destruct (0 <? length es)%nat; repeat split.
Qed.

Lemma gt_zero_spec (x : number) : gt_zero x = negb (isNaN x || le_zero x).
Proof. destruct x as [|[]|[] m e]; reflexivity. Qed.

Lemma Date_new_truthy (day_rollover : bool) (v : string) (d : Date) :
  Date_new day_rollover v = Some d -> truthy v = true.
Proof. destruct v; [discriminate | reflexivity]. Qed.

Lemma Date_new_valid (day_rollover : bool) (v : string) (d : Date) :
  Date_new day_rollover v = Some d -> isValidDate day_rollover v = true.
Proof.
  intros H. unfold isValidDate. rewrite H.
  apply Date_new_range in H. apply H.
Qed.

(** C2.  For every raw row and row number, the record the validator
    returns has [isValid = true] exactly when its [validationErrors] is
    empty, and when [isValid = false] the list holds at least one
    message. *)
Theorem isValid_iff_no_errors (day_rollover : bool) (row : CsvRow) (rowNumber : nat) :
  let invoice := validateInvoiceData day_rollover row rowNumber in
  (isValid invoice = true <-> validationErrors invoice = []) /\
  (isValid invoice = false -> 1 <= length (validationErrors invoice)).
Proof.
  cbv zeta. rewrite validationErrors_closed. split.
  - apply isValid_closed.
  - intros Hf. destruct (all_errors day_rollover row rowNumber) eqn:He.
    + apply isValid_closed in He. congruence.
    + simpl. lia.
Qed.

(** C6.  When the validator's record is valid, both date fields of the
    row parsed, the record stores their normalised YYYY-MM-DD forms, the
    stored due date is strictly greater than the stored issue date as a
    string, and the due day is strictly after the issue day in the
    calendar.  When both dates parse and the due day is not strictly
    after the issue day, the order error is recorded, the record is
    invalid, and both stored dates keep their parsed, normalised values. *)
Theorem due_after_issue (day_rollover : bool) (row : CsvRow) (rowNumber : nat) :
  let invoice := validateInvoiceData day_rollover row rowNumber in
  (isValid invoice = true ->
   exists v1 v2 issue due,
     row !! "issue_date" = Some v1 /\ row !! "due_date" = Some v2 /\
     Date_new day_rollover v1 = Some issue /\
     Date_new day_rollover v2 = Some due /\
     issueDate invoice = iso_day issue /\ dueDate invoice = iso_day due /\
     str_lt (issueDate invoice) (dueDate invoice) = true /\
     date_ltb issue due = true) /\
  (forall v1 v2 issue due,
     row !! "issue_date" = Some v1 -> row !! "due_date" = Some v2 ->
     Date_new day_rollover v1 = Some issue ->
     Date_new day_rollover v2 = Some due ->
     date_ltb issue due = false ->
     In (msg_order rowNumber) (validationErrors invoice) /\
     isValid invoice = false /\
     issueDate invoice = iso_day issue /\ dueDate invoice = iso_day due).
Proof.
  cbv zeta. split.
  - intros Hvalid. apply isValid_closed in Hvalid.
    destruct (all_errors_nil _ _ _ Hvalid) as (Hi & Hd & Ho).
    pose proof (validateInvoiceData_closed day_rollover row rowNumber) as Hc.
    destruct (finish_fields (all_errors day_rollover row rowNumber,
                             field_values day_rollover row)) as (_ & Fi & Fd).
    rewrite <- Hc in Fi, Fd. cbn [snd] in Fi, Fd.
    unfold field_values in Fi, Fd. cbn [issueDate dueDate] in Fi, Fd.
    unfold order_violated, field_values in Ho. cbn [issueDate dueDate] in Ho.
    rewrite Hi in Fi, Ho. rewrite Hd in Fd, Ho.
    destruct (date_ok_parsed _ _ _ Hi) as (issue & Pi & Ii).
    destruct (date_ok_parsed _ _ _ Hd) as (due & Pd & Id).
    unfold date_ok in Hi, Hd. unfold field_of in Pi, Pd.
    destruct (row !! "issue_date") as [v1|]; [|discriminate].
    destruct (row !! "due_date") as [v2|]; [|discriminate].
    simpl in Pi, Pd.
    rewrite Ii, Id in Ho. rewrite !truthy_iso_day in Ho. simpl in Ho.
    apply str_le_false_lt in Ho.
    exists v1, v2, issue, due. rewrite Fi, Fd, Ii, Id.
    repeat split; try assumption.
    rewrite <- Ho. symmetry.
    destruct (Date_new_range _ _ _ Pi) as (? & ? & ? & _).
    destruct (Date_new_range _ _ _ Pd) as (? & ? & ? & _).
    by apply iso_day_lt.
  - intros v1 v2 issue due R1 R2 P1 P2 Hnot.
    assert (Hi : date_ok day_rollover row "issue_date" = true).
    { unfold date_ok. rewrite R1, (Date_new_truthy _ _ _ P1), (Date_new_valid _ _ _ P1).
      reflexivity. }
    assert (Hd : date_ok day_rollover row "due_date" = true).
    { unfold date_ok. rewrite R2, (Date_new_truthy _ _ _ P2), (Date_new_valid _ _ _ P2).
      reflexivity. }
    assert (Ii : iso_of day_rollover row "issue_date" = iso_day issue).
    { unfold iso_of, field_of, formatDateString. rewrite R1. simpl. by rewrite P1. }
    assert (Id : iso_of day_rollover row "due_date" = iso_day due).
    { unfold iso_of, field_of, formatDateString. rewrite R2. simpl. by rewrite P2. }
    assert (Ho : order_violated day_rollover row = true).
    { unfold order_violated, field_values. cbn [issueDate dueDate].
      rewrite Hi, Hd, Ii, Id, !truthy_iso_day. simpl.
      destruct (str_le (iso_day due) (iso_day issue)) eqn:Hle; [reflexivity|].
      apply str_le_false_lt in Hle.
      destruct (Date_new_range _ _ _ P1) as (? & ? & ? & _).
      destruct (Date_new_range _ _ _ P2) as (? & ? & ? & _).
      rewrite iso_day_lt in Hle by assumption. congruence. }
    pose proof (validateInvoiceData_closed day_rollover row rowNumber) as Hc.
    destruct (finish_fields (all_errors day_rollover row rowNumber,
                             field_values day_rollover row)) as (_ & Fi & Fd).
    rewrite <- Hc in Fi, Fd. cbn [snd] in Fi, Fd.
    unfold field_values in Fi, Fd. cbn [issueDate dueDate] in Fi, Fd.
    rewrite Hi, Ii in Fi. rewrite Hd, Id in Fd.
    assert (Hin : In (msg_order rowNumber) (all_errors day_rollover row rowNumber))
      by (by apply msg_order_in).
    rewrite validationErrors_closed. repeat split; try assumption.
    destruct (isValid (validateInvoiceData day_rollover row rowNumber)) eqn:Hv;
      [|reflexivity].
    apply isValid_closed in Hv. rewrite Hv in Hin. destruct Hin.
Qed.

(** C7 (amended).  The validator accepts the amount field exactly when
    [parseFloat] of it is not NaN and is strictly greater than zero; the
    record then stores that number, which is positive infinity when the
    text reads so or is too large for a finite double.  Otherwise the
    amount error is recorded and the stored amount stays 0. *)
Theorem amount_accepted_iff_positive (day_rollover : bool) (row : CsvRow)
  (rowNumber : nat) :
  let x := parseFloat (default "undefined" (row !! "amount")) in
  let invoice := validateInvoiceData day_rollover row rowNumber in
  (~ In (msg_amount rowNumber) (validationErrors invoice) <->
   isNaN x = false /\ gt_zero x = true) /\
  (gt_zero x = true -> amount invoice = x) /\
  (gt_zero x = false ->
   In (msg_amount rowNumber) (validationErrors invoice) /\ amount invoice = zero).
Proof.
  cbv zeta. rewrite validationErrors_closed, msg_amount_in.
  pose proof (validateInvoiceData_closed day_rollover row rowNumber) as Hc.
  destruct (finish_fields (all_errors day_rollover row rowNumber,
                           field_values day_rollover row)) as (Fa & _ & _).
  rewrite <- Hc in Fa. cbn [snd] in Fa. unfold field_values in Fa. cbn [amount] in Fa.
  rewrite Fa. unfold amount_ok, parsed_amount. rewrite gt_zero_spec.
  destruct (isNaN _) eqn:Hn, (le_zero _) eqn:Hl; simpl;
    repeat split; try congruence; try (intros []; congruence); tauto.
Qed.

End ValidatorClaims.

(* ===================================================================== *)
(** * Facts about the batch importer                                     *)
(* ===================================================================== *)

Module ImporterFacts.
Import JS Num Importer ImporterView.

Lemma count_app {A : Type} (f : A -> bool) (xs ys : list A) :
  count f (xs ++ ys) = count f xs + count f ys.
Proof. unfold count. rewrite List.filter_app, length_app. reflexivity. Qed.

Lemma count_cons {A : Type} (f : A -> bool) (x : A) (xs : list A) :
  count f (x :: xs) = (if f x then 1 else 0) + count f xs.
Proof. unfold count. simpl. destruct (f x); reflexivity. Qed.


Lemma count_perm {A : Type} (f : A -> bool) (xs ys : list A) :
  Permutation xs ys -> count f xs = count f ys.
Proof.
  induction 1 as [|x xs ys _ IH|x y xs|xs ys zs _ IH1 _ IH2].
  - reflexivity.
  - rewrite !count_cons, IH. reflexivity.
  - rewrite !count_cons. lia.
  - congruence.
Qed.

Lemma numbered_shift (i index : nat) (batch : list InvoiceData) :
  numbered i index batch = numbered (i + index) 0 batch.
Proof.
  revert i index. induction batch as [|inv rest IH]; intros i index; simpl; [reflexivity|].
  rewrite (IH i (S index)), (IH (i + index) 1).
  replace (i + index + 0 + 1) with (i + index + 1) by lia.
  replace (i + S index) with (i + index + 1) by lia. reflexivity.
Qed.

Lemma numbered_app (i index : nat) (xs ys : list InvoiceData) :
  numbered i index (xs ++ ys) = numbered i index xs ++ numbered i (index + length xs) ys.
Proof.
  revert index. induction xs as [|x xs IH]; intros index; simpl.
  - by rewrite Nat.add_0_r.
  - rewrite IH. replace (S index + length xs) with (index + S (length xs)) by lia.
    reflexivity.
Qed.

Lemma numbered_length (i index : nat) (batch : list InvoiceData) :
  length (numbered i index batch) = length batch.
Proof. revert index. induction batch; intros; simpl; auto. Qed.

Lemma numbered_lookup (i index k : nat) (batch : list InvoiceData) (p : nat * InvoiceData) :
  numbered i index batch !! k = Some p <->
  fst p = i + index + k + 1 /\ batch !! k = Some (snd p).
Proof.
  revert index k. induction batch as [|inv rest IH]; intros index k; simpl.
  - split; [discriminate | intros [_ H]; discriminate].
  - destruct k as [|k]; simpl.
    + destruct p as [g v]; simpl. split.
      * intros [= <- <-]. split; [lia | reflexivity].
      * intros [-> [= ->]]. replace (i + index + 0 + 1) with (i + index + 1) by lia.
        reflexivity.
    + rewrite IH. split; intros [H1 H2]; (split; [lia | exact H2]).
Qed.

(** ** The synchronous part of a batch *)

Lemma start_batch_spec (jobId : string) (i index : nat) (batch : list InvoiceData)
  (st : istate) :
  let pending := List.filter valid_row (numbered i index batch) in
  let st' := fst (start_batch jobId i index batch st) in
  snd (start_batch jobId i index batch st) = pending /\
  log st' = log st ++ map (create_event jobId) pending /\
  successfulCount st' = successfulCount st /\
  failedCount st' = failedCount st + count (fun p => negb (valid_row p)) (numbered i index batch).
Proof.
  revert index st. induction batch as [|inv rest IH]; intros index st; simpl.
  - rewrite app_nil_r. unfold count. simpl. repeat split; lia.
  - rewrite count_cons.
    change (valid_row (i + index + 1, inv)) with (isValid inv).
    destruct (isValid inv) eqn:Hv; cbn [negb].
    + specialize (IH (S index) (emit (InvoiceCreate (i + index + 1) inv jobId) st)).
      destruct (start_batch jobId i (S index) rest _) as [st' pend].
      cbn [fst snd] in *. destruct IH as (-> & -> & -> & ->).
      cbn [map emit log successfulCount failedCount create_event fst snd].
      rewrite <- app_assoc. repeat split; reflexivity.
    + specialize (IH (S index)
        (fail (mkProcessingError (i + index + 1) None (validationErrors inv)) st)).
      destruct (start_batch jobId i (S index) rest _) as [st' pend].
      cbn [fst snd] in *. destruct IH as (-> & -> & -> & ->).
      cbn [fail log successfulCount failedCount].
      repeat split; try reflexivity. lia.
Qed.

(** ** The settlements of a batch *)

Lemma settle_spec (B : Backend) (p : nat * InvoiceData) (st : istate) :
  log (settle B p st) = log st ++ [settled_event p] /\
  successfulCount (settle B p st) = successfulCount st + (if created B p then 1 else 0) /\
  failedCount (settle B p st) = failedCount st + (if created B p then 0 else 1).
Proof.
  destruct p as [g inv]. unfold settle, created, settled_event. simpl.
  destruct (invoice_create B g inv) as [[errs|] data|thrown]; simpl;
    repeat split; lia.
Qed.

Lemma settle_order_perm (B : Backend) (pending : list (nat * InvoiceData)) :
  Permutation (settle_order B (length pending) pending) pending.
Proof.
  remember (length pending) as n eqn:Hn. revert pending Hn.
  induction n as [|n IH]; intros pending Hn; simpl.
  - destruct pending; [constructor | discriminate].
  - set (k := pick B (map fst pending) mod length pending).
    assert (Hk : k < length pending).
    { subst k. apply Nat.mod_upper_bound. lia. }
    destruct (lookup_lt_is_Some_2 pending k Hk) as [p Hp]. rewrite Hp.
    rewrite (delete_Permutation pending k p Hp) at 2.
    constructor. apply IH.
    rewrite length_delete by eauto. lia.
Qed.

Lemma settle_all_spec (B : Backend) (n : nat) (pending : list (nat * InvoiceData))
  (st : istate) :
  let order := settle_order B n pending in
  let st' := settle_all B n pending st in
  log st' = log st ++ map settled_event order /\
  successfulCount st' = successfulCount st + count (created B) order /\
  failedCount st' = failedCount st + count (fun p => negb (created B p)) order.
Proof.
  revert pending st. induction n as [|n IH]; intros pending st; simpl.
  - rewrite app_nil_r. unfold count. simpl. repeat split; lia.
  - destruct (pending !! _) as [p|] eqn:Hp; simpl.
    + destruct (IH (delete (pick B (map fst pending) mod length pending) pending)
                  (settle B p st)) as (-> & -> & ->).
      destruct (settle_spec B p st) as (-> & -> & ->).
      rewrite !count_cons. rewrite <- app_assoc. simpl.
      destruct (created B p); simpl; repeat split; lia.
    + rewrite app_nil_r. unfold count. simpl. repeat split; lia.
Qed.

(** ** One turn of the loop *)

Lemma count_filter_valid (B : Backend) (xs : list (nat * InvoiceData)) :
  count (created B) (List.filter valid_row xs) = count (succeeds B) xs /\
  count (fun p => negb (valid_row p)) xs +
  count (fun p => negb (created B p)) (List.filter valid_row xs) =
  count (fun p => negb (succeeds B p)) xs.
Proof.
  induction xs as [|x xs [IH1 IH2]]; [split; reflexivity|].
  cbn [List.filter]. rewrite !count_cons.
  change (succeeds B x) with (valid_row x && created B x).
  destruct (valid_row x) eqn:Hv; rewrite ?count_cons;
    destruct (created B x); cbn [negb andb]; split; lia.
Qed.

Lemma run_batch_spec (B : Backend) (jobId : string) (i : nat)
  (batch : list InvoiceData) (st : istate) :
  let st' := run_batch B jobId i batch st in
  log st' = log st ++ segment B jobId i batch /\
  successfulCount st' = successfulCount st + count (succeeds B) (numbered i 0 batch) /\
  failedCount st' =
    failedCount st + count (fun p => negb (succeeds B p)) (numbered i 0 batch).
Proof.
  unfold run_batch, segment.
  pose proof (start_batch_spec jobId i 0 batch
                (emit (BatchStarted (i / batchSize + 1) (length batch)) st)) as Hs.
  destruct (start_batch jobId i 0 batch _) as [st1 pending].
  cbn [fst snd] in Hs. destruct Hs as (-> & L1 & S1 & F1).
  set (pending := List.filter valid_row (numbered i 0 batch)) in *.
  destruct (settle_all_spec B (length pending) pending st1) as (L2 & S2 & F2).
  cbn [emit log successfulCount failedCount] in *.
  rewrite L2, S2, F2, L1, S1, F1.
  rewrite !(count_perm _ _ _ (settle_order_perm B pending)).
  destruct (count_filter_valid B (numbered i 0 batch)) as [C1 C2].
  fold pending in C1, C2. rewrite C1, <- C2.
  repeat split; [|lia].
  rewrite <- !app_assoc. reflexivity.
Qed.

(** ** The loop *)

Lemma batches_left_zero (n i : nat) : n <= i -> batches_left n i = 0.
Proof.
  intros H. unfold batches_left, batchSize. replace (n - i) with 0 by lia. reflexivity.
Qed.

Lemma batches_left_succ (n i : nat) :
  i < n -> batches_left n i = S (batches_left n (i + batchSize)).
Proof.
  intros H. unfold batches_left, batchSize. cbn [Nat.sub].
  destruct (le_lt_dec 25 (n - i)) as [Hge|Hlt].
  - replace (n - i + 24) with (n - (i + 25) + 24 + 1 * 25) by lia.
    rewrite Nat.div_add by lia. lia.
  - replace (n - (i + 25)) with 0 by lia.
    rewrite (Nat.div_small (0 + 24)) by lia.
    symmetry. apply (Nat.div_unique _ 25 1 (n - i - 1)); lia.
Qed.

Lemma slice_numbered (i : nat) (invoiceData : list InvoiceData) :
  numbered i 0 (drop i invoiceData) =
  numbered i 0 (slice i (i + batchSize) invoiceData) ++
  numbered (i + batchSize) 0 (drop (i + batchSize) invoiceData).
Proof.
  unfold slice. replace (i + batchSize - i) with batchSize by lia.
  rewrite <- (take_drop batchSize (drop i invoiceData)) at 1.
  rewrite numbered_app, drop_drop. f_equal.
  rewrite numbered_shift. rewrite Nat.add_0_l.
  destruct (le_lt_dec (length (drop i invoiceData)) batchSize) as [Hle|Hlt].
  - rewrite (drop_ge invoiceData (i + batchSize)); [reflexivity|].
    rewrite length_drop in Hle. lia.
  - rewrite length_take, Nat.min_l by lia. reflexivity.
Qed.

Lemma batch_loop_spec (B : Backend) (jobId : string) (invoiceData : list InvoiceData)
  (i : nat) (st : istate) :
  let st' := batch_loop B jobId invoiceData i st in
  log st' =
    log st ++ concat (segments B jobId invoiceData i (batches_left (length invoiceData) i)) /\
  successfulCount st' =
    successfulCount st + count (succeeds B) (numbered i 0 (drop i invoiceData)) /\
  failedCount st' =
    failedCount st + count (fun p => negb (succeeds B p)) (numbered i 0 (drop i invoiceData)).
Proof.
  cbv zeta. funelim (batch_loop B jobId invoiceData i st).
  - clear Heqcall. destruct H as (HL & HS & HF).
    rewrite HL, HS, HF.
    destruct (run_batch_spec B jobId i (slice i (i + batchSize) invoiceData) st)
      as (L1 & S1 & F1).
    rewrite L1, S1, F1.
    rewrite (batches_left_succ _ _ l). cbn [segments concat].
    rewrite (slice_numbered i invoiceData), !count_app.
    rewrite <- !app_assoc. repeat split; lia.
  - clear Heqcall. rewrite batches_left_zero by lia. rewrite drop_ge by lia.
    cbn. rewrite app_nil_r. repeat split; lia.
Qed.

End ImporterFacts.

(* ===================================================================== *)
(** * The batch importer: the properties claimed                         *)
(* ===================================================================== *)

Module ImporterClaims.
Import JS Num Importer ImporterView ImporterFacts.

Lemma segment_batch_events (B : Backend) (jobId : string) (i : nat)
  (batch : list InvoiceData) :
  Forall (fun e => batch_event e = true) (segment B jobId i batch).
Proof.
  unfold segment. constructor; [reflexivity|].
  rewrite !Forall_app. repeat split.
  - apply Forall_forall. intros e He. apply list_elem_of_fmap in He as (p & -> & _).
    reflexivity.
  - apply Forall_forall. intros e He. apply list_elem_of_fmap in He as (p & -> & _).
    reflexivity.
  - repeat constructor.
Qed.

Lemma segments_batch_events (B : Backend) (jobId : string)
  (invoiceData : list InvoiceData) (i nb : nat) :
  Forall (fun e => batch_event e = true) (concat (segments B jobId invoiceData i nb)).
Proof.
  revert i. induction nb as [|nb IH]; intros i; cbn [segments concat]; [constructor|].
  apply Forall_app. split; [apply segment_batch_events | apply IH].
Qed.

Lemma batch_event_quiet (e : event) :
  batch_event e = true -> writes_counts e = false /\ is_job_update e = false.
Proof. destruct e; simpl; try discriminate; split; reflexivity. Qed.

(** The log of a run that reaches the batches. *)
Lemma import_rows_log (B : Backend) (jobId : string) (invoiceData : list InvoiceData)
  (log0 : list event) :
  let numbered_rows := numbered 0 0 invoiceData in
  let succeeded := count (succeeds B) numbered_rows in
  let failed := count (fun p => negb (succeeds B p)) numbered_rows in
  exists summary,
    log (import_rows B jobId invoiceData log0) =
    (log0 ++ concat (segments B jobId invoiceData 0 (batches_left (length invoiceData) 0)))
    ++ [JobUpdate jobId
          (if (failed =? 0)%nat then COMPLETED
           else if (succeeded =? 0)%nat then FAILED else COMPLETED)
          (Some (length invoiceData, succeeded, failed)) summary].
Proof.
  cbv zeta. unfold import_rows, update_job, finalStatus.
  destruct (batch_loop_spec B jobId invoiceData 0 (mkIstate 0 0 [] log0)) as (L & S & F).
  cbn [log successfulCount failedCount emit drop] in *.
  rewrite L, S, F. cbn [Nat.add]. eexists. reflexivity.
Qed.


(** C9 (amended).  The count fields of a job are written when the job
    record is created, as zeros, which is the first call of every run.
    Afterwards they are written once more only when the run returns: by
    its last call, the job update issued after all batches.  A run that
    throws writes them at creation only: the update that marks the job
    FAILED carries no count. *)
Theorem counts_written_at_creation_and_completion (B : Backend)
  (fileKey fileName : string) :
  exists rest,
    fst (processInvoiceFile B fileKey fileName) =
      JobCreate fileName (fileTypeOf fileName) fileKey PROCESSING 0 0 0 :: rest /\
    match snd (processInvoiceFile B fileKey fileName) with
    | Returned =>
        exists middle id status counts summary,
          rest = middle ++ [JobUpdate id status (Some counts) summary] /\
          Forall (fun e => writes_counts e = false) middle
    | Threw _ => Forall (fun e => writes_counts e = false) rest
    end.
Proof.
  unfold processInvoiceFile, on_error.
  destruct (job_create B) as [[errs|] [id|]|thrown]; cbn [fst snd];
    try (eexists; split; [reflexivity | constructor]).
  destruct (download_and_parse B fileKey (fileTypeOf fileName)) as [rows|thrown].
  - destruct (truthy id) eqn:Hid; cbn [negb fst snd].
    + destruct (import_rows_log B id rows
        ([JobCreate fileName (fileTypeOf fileName) fileKey PROCESSING 0 0 0] ++
         [DownloadAndParse fileKey (fileTypeOf fileName)])) as [summary Hlog].
      cbv zeta in Hlog. rewrite Hlog. clear Hlog.
      eexists. split; [reflexivity|].
      exists (DownloadAndParse fileKey (fileTypeOf fileName) ::
              concat (segments B id rows 0 (batches_left (length rows) 0))).
      eexists _, _, _, _. split; [reflexivity|].
      constructor; [reflexivity|].
      eapply Forall_impl; [apply segments_batch_events|].
      intros e He. apply (batch_event_quiet e He).
    + eexists. split; [reflexivity|]. repeat constructor.
  - destruct (truthy id); cbn [fst snd];
      (eexists; split; [reflexivity|]); repeat constructor.
Qed.

End ImporterClaims.

(* ===================================================================== *)
(** * The batches of a run, one after the other                          *)
(* ===================================================================== *)

Module BatchFacts.
Import JS Num Importer ImporterView ImporterFacts.

Lemma totalBatches_ceil (n : nat) :
  n <= batchSize * totalBatches n /\ batchSize * totalBatches n < n + batchSize.
Proof.
  unfold totalBatches, batchSize. cbn [Nat.sub].
  pose proof (Nat.div_mod_eq (n + 24) 25) as E.
  pose proof (Nat.mod_upper_bound (n + 24) 25). lia.
Qed.

Lemma batches_left_total (n : nat) : batches_left n 0 = totalBatches n.
Proof. unfold batches_left, totalBatches. by rewrite Nat.sub_0_r. Qed.

Lemma segments_length (B : Backend) (jobId : string) (invoiceData : list InvoiceData)
  (i nb : nat) : length (segments B jobId invoiceData i nb) = nb.
Proof. revert i. induction nb; intros i; cbn [segments length]; auto. Qed.

Lemma segments_lookup (B : Backend) (jobId : string) (invoiceData : list InvoiceData)
  (i nb k : nat) :
  k < nb ->
  segments B jobId invoiceData i nb !! k =
  Some (segment B jobId (i + batchSize * k)
          (slice (i + batchSize * k) (i + batchSize * k + batchSize) invoiceData)).
Proof.
  revert i k. induction nb as [|nb IH]; intros i k Hk; [lia|].
  cbn [segments]. destruct k as [|k].
  - rewrite Nat.mul_0_r, Nat.add_0_r. reflexivity.
  - cbn [lookup list_lookup]. rewrite IH by lia.
    replace (i + batchSize + batchSize * k) with (i + batchSize * S k) by lia.
    reflexivity.
Qed.

Lemma batch_at_length (invoiceData : list InvoiceData) (k : nat) :
  length (batch_at invoiceData k) = min batchSize (length invoiceData - batchSize * k).
Proof.
  unfold batch_at, slice.
  replace (batchSize * k + batchSize - batchSize * k) with batchSize by lia.
  by rewrite length_take, length_drop.
Qed.

Lemma batch_at_concat (invoiceData : list InvoiceData) (nb : nat) :
  concat (map (batch_at invoiceData) (seq 0 nb)) = take (batchSize * nb) invoiceData.
Proof.
  induction nb as [|nb IH].
  - rewrite Nat.mul_0_r. reflexivity.
  - rewrite seq_S, map_app, concat_app, IH. cbn [map concat Nat.add].
    rewrite app_nil_r. unfold batch_at, slice.
    replace (batchSize * nb + batchSize - batchSize * nb) with batchSize by lia.
    rewrite take_take_drop. f_equal. lia.
Qed.

Lemma batch_at_lookup (invoiceData : list InvoiceData) (k j : nat) (invoice : InvoiceData) :
  j < batchSize ->
  invoiceData !! (batchSize * k + j) = Some invoice ->
  batch_at invoiceData k !! j = Some invoice.
Proof.
  intros Hj H. unfold batch_at, slice.
  replace (batchSize * k + batchSize - batchSize * k) with batchSize by lia.
  rewrite lookup_take_lt by exact Hj. by rewrite lookup_drop.
Qed.

(** Where an element of a concatenation sits. *)
Lemma concat_split_at {A : Type} (segs : list (list A)) (l1 l2 : list A) (x : A) :
  l1 ++ x :: l2 = concat segs ->
  exists k pre post,
    segs !! k = Some (pre ++ x :: post) /\ l1 = concat (take k segs) ++ pre.
Proof.
  revert l1. induction segs as [|s rest IH]; intros l1 H.
  - destruct l1; discriminate H.
  - cbn [concat] in H. apply app_eq_inv in H as [(m & -> & Hm)|(m & -> & Hm)].
    + symmetry in Hm. destruct (IH m Hm) as (k & pre & post & Hk & ->).
      exists (S k), pre, post. split; [exact Hk|].
      cbn [take concat]. by rewrite <- app_assoc.
    + destruct m as [|y m].
      * cbn [app] in Hm.
        destruct (IH [] Hm) as (k & pre & post & Hk & Hnil).
        exists (S k), pre, post. split; [exact Hk|].
        cbn [take concat]. by rewrite <- app_assoc, <- Hnil, !app_nil_r.
      * injection Hm as <- ->. exists 0, l1, m. split; reflexivity.
Qed.

(** A create call in the segment of a batch is for a row of that batch. *)
Lemma segment_create_row (B : Backend) (jobId : string) (i : nat)
  (batch : list InvoiceData) (g : nat) (invoice : InvoiceData) (uploadJobId : string) :
  length batch <= batchSize ->
  In (InvoiceCreate g invoice uploadJobId) (segment B jobId i batch) ->
  i + 1 <= g <= i + batchSize.
Proof.
  intros Hlen Hin. unfold segment in Hin.
  destruct Hin as [Hin|Hin]; [discriminate|].
  rewrite !in_app_iff in Hin. destruct Hin as [Hin|[Hin|Hin]].
  - apply in_map_iff in Hin as (p & Hp & Hin).
    apply filter_In in Hin as [Hin _].
    apply list_elem_of_In, list_elem_of_lookup in Hin as [j Hj].
    pose proof (lookup_lt_Some _ _ _ Hj) as Hlt. rewrite numbered_length in Hlt.
    apply numbered_lookup in Hj as [Hg _].
    unfold create_event in Hp. injection Hp as <- _ _. lia.
  - apply in_map_iff in Hin as (p & Hp & _). discriminate Hp.
  - destruct Hin as [Hin|[]]. discriminate Hin.
Qed.

(** A valid row of a batch is created and settled within its segment. *)
Lemma segment_valid_row (B : Backend) (jobId : string) (i j : nat)
  (batch : list InvoiceData) (invoice : InvoiceData) :
  batch !! j = Some invoice -> isValid invoice = true ->
  In (InvoiceCreate (i + j + 1) invoice jobId) (segment B jobId i batch) /\
  In (InvoiceSettled (i + j + 1)) (segment B jobId i batch).
Proof.
  intros Hj Hv.
  assert (Hp : In (i + j + 1, invoice) (List.filter valid_row (numbered i 0 batch))).
  { apply filter_In. split; [|exact Hv].
    apply list_elem_of_In, list_elem_of_lookup. exists j.
    apply numbered_lookup. split; [simpl; lia | exact Hj]. }
  unfold segment. split; right; rewrite !in_app_iff.
  - left. apply in_map_iff. exists (i + j + 1, invoice). split; [reflexivity | exact Hp].
  - right. left. apply in_map_iff. exists (i + j + 1, invoice). split; [reflexivity|].
    eapply Permutation_in; [|exact Hp].
    symmetry. apply settle_order_perm.
Qed.

End BatchFacts.

Module BatchClaims.
Import JS Num Importer ImporterView ImporterFacts BatchFacts.

Lemma segments_as_map (B : Backend) (jobId : string) (invoiceData : list InvoiceData)
  (nb : nat) :
  segments B jobId invoiceData 0 nb =
  map (fun k => segment B jobId (batchSize * k) (batch_at invoiceData k)) (seq 0 nb).
Proof.
  apply list_eq. intros k. destruct (le_lt_dec nb k) as [Hge|Hlt].
  - rewrite !lookup_ge_None_2; [reflexivity | |].
    + by rewrite length_map, length_seq.
    + by rewrite segments_length.
  - rewrite segments_lookup by exact Hlt.
    change (map ?f ?l) with (f <$> l).
    rewrite list_lookup_fmap, lookup_seq_lt by exact Hlt. reflexivity.
Qed.

Lemma in_earlier_segment {A : Type} (segs : list (list A)) (k1 k : nat)
  (seg : list A) (x : A) :
  segs !! k1 = Some seg -> k1 < k -> In x seg -> In x (concat (take k segs)).
Proof.
  intros Hseg Hlt Hin. apply in_concat. exists seg. split; [|exact Hin].
  apply list_elem_of_In, list_elem_of_lookup. exists k1.
  by rewrite lookup_take_lt.
Qed.

(** C3.  The loop runs [totalBatches n] turns for [n] rows, the least
    number of batches of 25 that covers them.  The batches, taken in
    order, make up the row list; each holds between 1 and 25 rows, and
    every batch but the last holds 25.  The log of the loop is the
    segments of the batches one after the other, and in front of a create
    call for a row of a later batch, every valid row of an earlier batch
    has had its create call issued and settled.  Sixty rows give three
    batches of 25, 25 and 10 rows. *)
Theorem batches_sequential (B : Backend) (jobId : string) (rows : list InvoiceData)
  (log0 : list event) :
  let n := length rows in
  let nb := totalBatches n in
  let st := batch_loop B jobId rows 0 (mkIstate 0 0 [] log0) in
  (n <= batchSize * nb /\ batchSize * nb < n + batchSize) /\
  concat (map (batch_at rows) (seq 0 nb)) = rows /\
  (forall k, k < nb ->
     1 <= length (batch_at rows k) <= batchSize /\
     (k + 1 < nb -> length (batch_at rows k) = batchSize)) /\
  log st =
    log0 ++
    concat (map (fun k => segment B jobId (batchSize * k) (batch_at rows k)) (seq 0 nb)) /\
  (forall l1 l2 g2 inv2,
     log st = log0 ++ l1 ++ InvoiceCreate g2 inv2 jobId :: l2 ->
     forall r1 inv1,
       rows !! r1 = Some inv1 -> isValid inv1 = true ->
       r1 / batchSize < (g2 - 1) / batchSize ->
       In (InvoiceCreate (r1 + 1) inv1 jobId) l1 /\ In (InvoiceSettled (r1 + 1)) l1) /\
  (n = 60 ->
   nb = 3 /\ map (fun k => length (batch_at rows k)) (seq 0 nb) = [25; 25; 10]).
Proof.
  cbv zeta.
  pose proof (totalBatches_ceil (length rows)) as [Hc1 Hc2].
  destruct (batch_loop_spec B jobId rows 0 (mkIstate 0 0 [] log0)) as (HL & _ & _).
  cbn [log] in HL. rewrite batches_left_total, segments_as_map in HL.
  split; [split; assumption|]. split; [|split; [|split; [|split]]].
  - rewrite batch_at_concat. apply take_ge. lia.
  - intros k Hk. rewrite batch_at_length. unfold batchSize in *. lia.
  - exact HL.
  - intros l1 l2 g2 inv2 Hlog r1 inv1 Hr1 Hv Hbefore.
    rewrite HL in Hlog. apply app_inv_head in Hlog. symmetry in Hlog.
    apply concat_split_at in Hlog as (k & pre & post & Hk & ->).
    rewrite <- (segments_as_map B jobId rows) in Hk.
    pose proof (lookup_lt_Some _ _ _ Hk) as Hknb. rewrite segments_length in Hknb.
    rewrite segments_lookup in Hk by exact Hknb.
    rewrite !Nat.add_0_l in Hk. fold (batch_at rows k) in Hk.
    assert (Hseg_k : segment B jobId (batchSize * k) (batch_at rows k) =
                     pre ++ InvoiceCreate g2 inv2 jobId :: post) by congruence.
    clear Hk.
    assert (Hg2 : batchSize * k + 1 <= g2 <= batchSize * k + batchSize).
    { apply (segment_create_row B jobId (batchSize * k) (batch_at rows k) g2 inv2 jobId).
      - rewrite batch_at_length. lia.
      - rewrite Hseg_k. apply in_app_iff. right. left. reflexivity. }
    assert (Hk2 : (g2 - 1) / batchSize = k).
    { symmetry. apply (Nat.div_unique _ batchSize k (g2 - 1 - batchSize * k));
        unfold batchSize in *; lia. }
    rewrite Hk2 in Hbefore.
    pose proof (Nat.div_mod_eq r1 batchSize) as Er1.
    assert (Hj : r1 mod batchSize < batchSize)
      by (apply Nat.mod_upper_bound; discriminate).
    set (k1 := r1 / batchSize) in *. set (j := r1 mod batchSize) in *.
    assert (Hb : batch_at rows k1 !! j = Some inv1).
    { apply batch_at_lookup; [exact Hj|]. rewrite <- Er1. exact Hr1. }
    destruct (segment_valid_row B jobId (batchSize * k1) j (batch_at rows k1) inv1 Hb Hv)
      as [Hcreate Hsettle].
    replace (batchSize * k1 + j + 1) with (r1 + 1) in Hcreate, Hsettle by lia.
    assert (Hseg : segments B jobId rows 0 (totalBatches (length rows)) !! k1 =
                   Some (segment B jobId (batchSize * k1) (batch_at rows k1))).
    { rewrite segments_lookup by lia. rewrite !Nat.add_0_l. reflexivity. }
    rewrite segments_as_map in Hseg.
    split; apply in_app_iff; left; eapply in_earlier_segment; eauto.
  - intros Hn. assert (Hnb : totalBatches (length rows) = 3).
    { rewrite Hn. reflexivity. }
    rewrite Hnb. split; [reflexivity|].
    cbn [seq map]. rewrite !batch_at_length, Hn. reflexivity.
Qed.

End BatchClaims.

(* ===================================================================== *)
(** * Cascade deletion: the order of the calls                           *)
(* ===================================================================== *)

Module CascadeFacts.
Import JS Cascade CascadeView.

(** Every attachment removal is issued, whatever the earlier ones
    answered. *)
Lemma delete_pdfs_log (B : Backend) (invoicesWithPdfs : list Invoice) (log : list event) :
  delete_pdfs B invoicesWithPdfs log = (log ++ map pdf_removal invoicesWithPdfs, inl tt).
Proof.
  revert log. induction invoicesWithPdfs as [|invoice rest IH]; intros log.
  - cbn. by rewrite app_nil_r.
  - cbn [delete_pdfs map]. unfold bind at 1.
    assert (Hone : ignore_failure (await_remove B (default EmptyString (pdfS3Key invoice))) log
                   = (log ++ [pdf_removal invoice], inl tt)).
    { unfold ignore_failure, await_remove, bind, log_call, pdf_removal.
      destruct (remove B _); reflexivity. }
    rewrite Hone, IH, <- app_assoc. reflexivity.
Qed.

Lemma issue_deletions_log (associatedInvoices : list Invoice) (log : list event) :
  issue_deletions associatedInvoices log =
  (log ++ map record_deletion associatedInvoices, inl tt).
Proof.
  revert log. induction associatedInvoices as [|invoice rest IH]; intros log.
  - cbn. by rewrite app_nil_r.
  - cbn [issue_deletions map]. unfold bind, log_call at 1.
    rewrite IH, <- app_assoc. reflexivity.
Qed.

Lemma delete_invoices_log (B : Backend) (associatedInvoices : list Invoice)
  (log : list event) :
  delete_invoices B associatedInvoices log =
  (log ++ map record_deletion associatedInvoices,
   if (0 <? failed_deletions B associatedInvoices)%nat
   then inr (Some (msg_failed (failed_deletions B associatedInvoices)
                     (length associatedInvoices)))
   else inl tt).
Proof.
  unfold delete_invoices, failed_deletions.
  destruct associatedInvoices as [|invoice rest].
  - cbn. by rewrite app_nil_r.
  - change (0 <? length (invoice :: rest))%nat with true. cbv iota.
    unfold bind. rewrite issue_deletions_log.
    destruct (0 <? _)%nat; reflexivity.
Qed.

(** The calls of one turn of the loop over the jobs, for a job whose
    invoices could be listed; a listing without data counts as empty. *)
Lemma delete_job_cascade_log (B : Backend) (job : Job) (data : option (list Invoice))
  (log : list event) :
  list_invoices B (job_id job) = Resolved None data ->
  let invoices := default [] data in
  let failed := failed_deletions B invoices in
  let upto_records :=
    log ++ [ListInvoices (job_id job)] ++
    map pdf_removal (List.filter has_pdf invoices) ++ map record_deletion invoices in
  delete_job_cascade B job log =
  if (0 <? failed)%nat
  then (upto_records, inr (Some (msg_failed failed (length invoices))))
  else (upto_records ++ [DeleteJob (job_id job)],
        match delete_job B (job_id job) with
        | Rejected thrown => inr thrown
        | Resolved (Some errs) _ =>
            inr (Some ("Failed to delete processing job: " ++ first_message errs)%string)
        | Resolved None _ => inl tt
        end).
Proof.
  intros Hlist. cbv zeta. unfold delete_job_cascade. rewrite Hlist.
  generalize (default [] data). intros invoices.
  unfold bind at 1. unfold log_call at 1.
  unfold bind at 1. rewrite delete_pdfs_log.
  unfold bind at 1. rewrite delete_invoices_log.
  destruct (0 <? failed_deletions B invoices)%nat.
  - rewrite <- !app_assoc. reflexivity.
  - unfold bind, log_call.
    rewrite <- !app_assoc.
    destruct (delete_job B (job_id job)) as [[errs|] d|thrown]; reflexivity.
Qed.

(** The jobs are handled one after the other: the calls for a job come
    after all the calls for the job before it. *)
Lemma for_each_job_cons (B : Backend) (job : Job) (rest : list Job) (log : list event) :
  for_each_job B (job :: rest) log =
  match delete_job_cascade B job log with
  | (log', inl _) => for_each_job B rest log'
  | (log', inr thrown) => (log', inr thrown)
  end.
Proof. reflexivity. Qed.

(** ** The calls, read off the answers of the backend *)

Lemma has_pdf_removals (invoices : list Invoice) :
  map pdf_removal (List.filter has_pdf invoices) = attachment_removals invoices.
Proof.
  induction invoices as [|invoice rest IH]; [reflexivity|].
  cbn [List.filter attachment_removals]. unfold has_pdf at 1.
  destruct (pdfS3Key invoice) as [[|c key]|] eqn:Hkey; cbn [truthy_opt truthy];
    [exact IH | | exact IH].
  cbn [map]. unfold pdf_removal at 1. rewrite Hkey, IH. reflexivity.
Qed.

Lemma failed_deletions_refusals (B : Backend) (invoices : list Invoice) :
  failed_deletions B invoices = refusals B invoices.
Proof.
  unfold failed_deletions, refusals. f_equal.
Qed.

(** What one turn of the loop over the jobs issues and how it ends. *)
Lemma delete_job_cascade_calls (B : Backend) (job : Job) (log : list event) :
  fst (delete_job_cascade B job log) = log ++ job_calls B job /\
  (snd (delete_job_cascade B job log) = inl tt <-> job_ok B job = true) /\
  (forall invoices, records_of B job = Some invoices -> 0 < refusals B invoices ->
     snd (delete_job_cascade B job log) =
     inr (Some ("Failed to delete " ++ of_nat (refusals B invoices) ++ " out of " ++
                of_nat (length invoices) ++ " invoices")%string)).
Proof.
  unfold job_calls, job_ok, records_of, job_deleted.
  destruct (list_invoices B (job_id job)) as [[errs|] data|thrown] eqn:Hlist.
  - unfold delete_job_cascade, bind, log_call, throw_error, throw. rewrite Hlist.
    cbn [fst snd]. split; [reflexivity|]. split; [split; discriminate | discriminate].
  - rewrite (delete_job_cascade_log B job data log Hlist). cbv zeta.
    assert (Hdata : match data with Some invoices => Some invoices | None => Some [] end
                    = Some (default [] data)) by (destruct data; reflexivity).
    rewrite Hdata. generalize (default [] data). intros invoices.
    rewrite has_pdf_removals, failed_deletions_refusals.
    change (map record_deletion invoices)
      with (map (fun invoice => DeleteInvoice (id invoice)) invoices).
    destruct (refusals B invoices) as [|n] eqn:Hn;
      cbn [Nat.ltb Nat.leb Nat.eqb andb fst snd].
    + rewrite <- !app_assoc. split; [reflexivity|]. split.
      * destruct (delete_job B (job_id job)) as [[e|] d|t]; split; congruence.
      * intros invoices' [= <-]. lia.
    + rewrite app_nil_r. split; [reflexivity|]. split; [split; discriminate|].
      intros invoices' [= <-] _. unfold msg_failed. rewrite Hn. reflexivity.
  - unfold delete_job_cascade, bind, log_call, throw_error, throw. rewrite Hlist.
    cbn [fst snd]. split; [reflexivity|]. split; [split; discriminate | discriminate].
Qed.

(** The loop over the jobs stops at the first job whose cascade does not
    go through. *)
Lemma for_each_job_calls (B : Backend) (jobs : list Job) (log : list event) :
  fst (for_each_job B jobs log) = log ++ concat (map (job_calls B) (reached B jobs)) /\
  (snd (for_each_job B jobs log) = inl tt <-> forallb (job_ok B) jobs = true).
Proof.
  revert log. induction jobs as [|job rest IH]; intros log.
  - cbn. rewrite app_nil_r. split; [reflexivity | split; reflexivity].
  - rewrite for_each_job_cons.
    destruct (delete_job_cascade_calls B job log) as (Hlog & Hok & _).
    destruct (delete_job_cascade B job log) as [log' [[]|thrown]]; cbn [fst snd] in *.
    + assert (Hj : job_ok B job = true) by (by apply Hok).
      cbn [reached forallb map concat]. rewrite Hj. cbn [andb].
      destruct (IH log') as [IH1 IH2]. rewrite IH1. subst log'.
      rewrite <- app_assoc. split; [reflexivity | exact IH2].
    + assert (Hj : job_ok B job = false).
      { destruct (job_ok B job); [|reflexivity].
        assert (@inr unit _ thrown = inl tt) by (by apply Hok). discriminate. }
      cbn [reached forallb map concat]. rewrite Hj. cbn [andb map concat].
      rewrite app_nil_r. split; [exact Hlog | split; discriminate].
Qed.

(** The loop over jobs that all go through, followed by one more job. *)
Lemma for_each_job_app (B : Backend) (done : list Job) (job : Job) (rest : list Job)
  (log : list event) :
  forallb (job_ok B) done = true ->
  for_each_job B (done ++ job :: rest) log =
  match delete_job_cascade B job (log ++ concat (map (job_calls B) done)) with
  | (log', inl _) => for_each_job B rest log'
  | (log', inr thrown) => (log', inr thrown)
  end.
Proof.
  revert log. induction done as [|d done IH]; intros log Hdone.
  - cbn [app map concat]. rewrite app_nil_r. apply for_each_job_cons.
  - cbn [forallb] in Hdone. apply andb_true_iff in Hdone as [Hd Hdone].
    change ((d :: done) ++ job :: rest) with (d :: (done ++ job :: rest)).
    rewrite for_each_job_cons.
    destruct (delete_job_cascade_calls B d log) as (Hlog & Hok & _).
    destruct (delete_job_cascade B d log) as [log' [[]|thrown]]; cbn [fst snd] in *.
    + rewrite (IH log' Hdone). subst log'. cbn [map concat].
      rewrite <- app_assoc. reflexivity.
    + apply Hok in Hd. discriminate Hd.
Qed.

End CascadeFacts.

Module CascadeClaims.
Import JS Cascade CascadeView CascadeFacts.

(** C5 (amended).  For a confirmed deletion of a file whose jobs can be
    listed, the jobs are handled one after the other, in the order of the
    listing.  For each job the handler lists its records, then issues one
    removal for every record that has an attachment, whatever the
    removals answer, then one deletion for every record, and then, when
    the backend refused none of these deletions, the deletion of the job.
    The first job whose cascade does not go through stops everything:
    later jobs are not touched and the stored file is kept.  The stored
    file is removed, as the last call, only when the cascade of every job
    went through, and the handler ends without an error exactly when that
    removal succeeds too.  When the backend refuses [k > 0] of the [N]
    record deletions of a job, the record deletions of that job are the
    last calls issued, and the error reads: Failed to delete file and
    associated data: Failed to delete [k] out of [N] invoices. *)
Theorem cascade_order (B : Backend) (filePath : string) (data : option (list Job)) :
  confirm B = true ->
  list_jobs B filePath = Resolved None data ->
  let jobs := default [] data in
  let r := handleDeleteFile B filePath in
  issued r =
    ListJobs filePath :: concat (map (job_calls B) (reached B jobs)) ++
    (if forallb (job_ok B) jobs then [RemoveObject filePath] else []) /\
  (error r = None <-> forallb (job_ok B) jobs = true /\ remove B filePath = None) /\
  (forall done job rest invoices,
     jobs = done ++ job :: rest ->
     forallb (job_ok B) done = true ->
     records_of B job = Some invoices ->
     0 < refusals B invoices ->
     issued r =
       ListJobs filePath :: concat (map (job_calls B) done) ++
       ListInvoices (job_id job) :: attachment_removals invoices ++
       map (fun invoice => DeleteInvoice (id invoice)) invoices /\
     error r =
       Some ("Failed to delete file and associated data: Failed to delete " ++
             of_nat (refusals B invoices) ++ " out of " ++ of_nat (length invoices) ++
             " invoices")%string).
Proof.
  intros Hconfirm Hjobs. cbv zeta.
  unfold handleDeleteFile. rewrite Hconfirm. cbn [negb].
  unfold delete_steps. rewrite Hjobs.
  generalize (default [] data). intros jobs.
  unfold bind, log_call. change ([] ++ [ListJobs filePath]) with [ListJobs filePath].
  split; [|split].
  - destruct (for_each_job_calls B jobs [ListJobs filePath]) as [Hlog Hok].
    destruct (for_each_job B jobs [ListJobs filePath]) as [log' [[]|thrown]];
      cbn [fst snd] in *.
    + assert (Hall : forallb (job_ok B) jobs = true) by (by apply Hok).
      rewrite Hall, Hlog. unfold await_remove, bind, log_call, ret, throw.
      destruct (remove B filePath) as [t|]; cbn [issued];
        rewrite <- app_assoc; reflexivity.
    + assert (Hall : forallb (job_ok B) jobs = false).
      { destruct (forallb (job_ok B) jobs); [|reflexivity].
        assert (@inr unit _ thrown = inl tt) by (by apply Hok). discriminate. }
      rewrite Hall, Hlog. cbn [issued]. rewrite app_nil_r. reflexivity.
  - destruct (for_each_job_calls B jobs [ListJobs filePath]) as [Hlog Hok].
    destruct (for_each_job B jobs [ListJobs filePath]) as [log' [[]|thrown]];
      cbn [fst snd] in *.
    + assert (Hall : forallb (job_ok B) jobs = true) by (by apply Hok).
      unfold await_remove, bind, log_call, ret, throw.
      destruct (remove B filePath) as [t|]; cbn [error].
      * split; [discriminate | intros [_ H]; discriminate H].
      * split; [intros _; split; [exact Hall | reflexivity] | reflexivity].
    + cbn [error]. split; [discriminate|]. intros [Hall _].
      apply Hok in Hall. discriminate Hall.
  - intros done job rest invoices -> Hdone Hrecords Hrefused.
    rewrite (for_each_job_app B done job rest _ Hdone).
    destruct (delete_job_cascade_calls B job
                ([ListJobs filePath] ++ concat (map (job_calls B) done)))
      as (Hlog & _ & Hthrown).
    specialize (Hthrown invoices Hrecords Hrefused).
    destruct (delete_job_cascade B job _) as [log' outcome]. cbn [fst snd] in *.
    subst log' outcome. cbn [issued error]. unfold job_calls. rewrite Hrecords.
    destruct (refusals B invoices) as [|n] eqn:Hn; [lia|]. cbn [Nat.eqb].
    rewrite app_nil_r, <- app_assoc. split; reflexivity.
Qed.

End CascadeClaims.

(* ===================================================================== *)
(** * The file picker: what the extension filter lets through            *)
(* ===================================================================== *)

Module IngestClaims.
Import JS Ingest.

Lemma filter_length_eq {A : Type} (f : A -> bool) (xs : list A) :
  length (List.filter f xs) = length xs -> List.filter f xs = xs.
Proof.
  induction xs as [|x xs IH]; [reflexivity|]. simpl.
  pose proof (List.filter_length_le f xs) as Hle.
  destruct (f x); simpl; intros H.
  - f_equal. apply IH. lia.
  - lia.
Qed.

Lemma upload_loop_transfers (H : Host) (index : nat) (files : list string) :
  forallb is_transfer (upload_loop H index files) = true.
Proof.
  revert index. induction files as [|name rest IH]; intros index; [reflexivity|].
  cbn [upload_loop forallb is_transfer]. rewrite forallb_app, IH.
  destruct (uploadData H index name); reflexivity.
Qed.

(** A selection with a file that the filter refuses is refused as a
    whole: one error is set, and nothing is uploaded or processed.  A
    selection that passes whole is uploaded file by file, in order. *)
Lemma all_or_nothing (H : Host) (files : list string) :
  (List.filter isInvoiceFile files <> files ->
   exists message, handleFileSelect H (Some files) = [SetError (Some message)]) /\
  (List.filter isInvoiceFile files = files -> files <> [] ->
   handleFileSelect H (Some files) = upload_loop H 0 files ++ [SetError None]).
Proof.
  unfold handleFileSelect. split.
  - intros Hne.
    destruct (Nat.eqb_spec (length (List.filter isInvoiceFile files)) 0);
      [eexists; reflexivity|].
    destruct (Nat.eqb_spec (length (List.filter isInvoiceFile files)) (length files))
      as [Heq|_]; [|eexists; reflexivity].
    exfalso. apply Hne. by apply filter_length_eq.
  - intros Heq Hnil. rewrite Heq.
    destruct files as [|f rest]; [congruence|].
    cbn [length Nat.eqb]. rewrite Nat.eqb_refl. reflexivity.
Qed.

(** C4 on the code: a file named [report.xls], which the picker offers,
    does not pass the filter, and selecting it alone sets an error and
    uploads nothing. *)
Theorem xls_refused_by_filter (H : Host) :
  Described.isInvoiceFile_described "report.xls" = true /\
  offered_by_picker "report.xls" = true /\
  isInvoiceFile "report.xls" = false /\
  handleFileSelect H (Some ["report.xls"]) =
    [SetError (Some "Please select CSV or Excel files containing invoice data")].
Proof. repeat split. Qed.

Example csv_and_xlsx_pass :
  map isInvoiceFile ["a.csv"; "B.CSV"; "c.xlsx"; "d.XlsX"; "e.txt"; "csv"; "f.csv.bak"] =
  [true; true; true; true; false; false; false].
Proof. reflexivity. Qed.

End IngestClaims.

(* ===================================================================== *)
(** * Detaching a PDF: what changes and what does not                    *)
(* ===================================================================== *)

Module PdfClaims.
Import JS Pdf PdfView.

Lemma delete_request_id (invoice : Doc) :
  string_field (delete_request invoice) "id" = string_field invoice "id".
Proof. reflexivity. Qed.

Lemma delete_request_pdf (invoice : Doc) (field : string) :
  In field pdf_fields -> delete_request invoice !! field = Some Null.
Proof.
  intros Hin. unfold pdf_fields in Hin. simpl in Hin.
  destruct Hin as [<-|[<-|[<-|[<-|[]]]]]; reflexivity.
Qed.

Lemma delete_request_other (invoice : Doc) (field : string) :
  ~ In field pdf_fields -> field <> "id" -> delete_request invoice !! field = None.
Proof.
  intros Hnot Hid. unfold delete_request.
  rewrite lookup_insert_ne by congruence.
  rewrite !lookup_insert_ne; [apply lookup_empty | | | |];
    intros <-; apply Hnot; simpl; tauto.
Qed.

(** C10.  Whatever the record, the table and the answers, the handler
    issues no removal from the object store, and the only update it can
    issue names the record's id and sets the four PDF fields to null.
    Every record of the table is still there afterwards with every field
    other than those four as before; records are neither added nor
    removed.  When the update goes through, the four fields of the
    record are null. *)
Theorem pdf_delete_frame (W : World) (invoice : Doc) (table : Table) :
  let table' := fst (handlePdfDelete W invoice table) in
  let events := snd (handlePdfDelete W invoice table) in
  forallb (fun e => negb (is_storage_remove e)) events = true /\
  (forall request, In (InvoiceUpdate request) events ->
     request = delete_request invoice /\
     dom request = list_to_set ("id" :: pdf_fields)) /\
  (forall key, table !! key = None -> table' !! key = None) /\
  (forall key doc, table !! key = Some doc ->
     exists doc', table' !! key = Some doc' /\
       (forall field, ~ In field pdf_fields -> field <> "id" ->
          doc' !! field = doc !! field) /\
       (doc !! "id" = Some (Str key) -> doc' !! "id" = Some (Str key))) /\
  (In RefreshInvoices events ->
   forall doc', table' !! string_field invoice "id" = Some doc' ->
     forall field, In field pdf_fields -> doc' !! field = Some Null).
Proof.
  cbv zeta. unfold handlePdfDelete.
  assert (Hsame : forall key doc, table !! key = Some doc ->
    exists doc', table !! key = Some doc' /\
      (forall field, ~ In field pdf_fields -> field <> "id" ->
         doc' !! field = doc !! field) /\
      (doc !! "id" = Some (Str key) -> doc' !! "id" = Some (Str key))).
  { intros key doc Hdoc. exists doc. split; [exact Hdoc|]. split; auto. }
  destruct (negb (truthy_field invoice "pdfS3Key") || negb (truthy_field invoice "id"))
    eqn:Hguard; cbn [fst snd].
  { split; [reflexivity|]. split; [|split; [|split]].
    - intros request [].
    - tauto.
    - exact Hsame.
    - intros []. }
  destruct (confirm W); cbn [negb fst snd].
  2:{ split; [reflexivity|]. split; [|split; [|split]].
      - intros request [H|[]]. discriminate H.
      - tauto.
      - exact Hsame.
      - intros [H|[]]. discriminate H. }
  assert (Hreq : forall request tail,
    In (InvoiceUpdate request)
       ([Confirm (confirm_message invoice); InvoiceUpdate (delete_request invoice)] ++ tail)
    -> ~ In (InvoiceUpdate request) tail
    -> request = delete_request invoice /\
       dom request = list_to_set ("id" :: pdf_fields)).
  { intros request tail Hin Htail.
    apply in_app_iff in Hin as [[H|[H|[]]]|Hin]; [discriminate H | | contradiction].
    injection H as <-.
    split; [reflexivity|]. unfold delete_request, pdf_fields.
    rewrite !dom_insert_L, dom_empty_L. cbn [list_to_set]. reflexivity. }
  destruct (invoice_update W (delete_request invoice)) as [|errs|thrown] eqn:Hupd;
    cbn [fst snd].
  - split; [reflexivity|]. split; [|split; [|split]].
    + intros request Hin. apply (Hreq _ _ Hin). intros [H|[]]. discriminate H.
    + intros key Hnone. unfold apply_update. rewrite lookup_alter.
      case_decide; [subst; by rewrite Hnone | exact Hnone].
    + intros key doc Hdoc. unfold apply_update. rewrite lookup_alter.
      rewrite delete_request_id.
      case_decide as Hkey; [|by apply Hsame].
      subst key. rewrite Hdoc. cbn [fmap option_fmap option_map].
      eexists. split; [reflexivity|]. split.
      * intros field Hnot Hid. apply lookup_union_r.
        by apply delete_request_other.
      * intros _. apply lookup_union_Some_l. reflexivity.
    + intros _ doc' Hdoc' field Hfield.
      unfold apply_update in Hdoc'. rewrite lookup_alter, delete_request_id in Hdoc'.
      case_decide; [|congruence].
      destruct (table !! string_field invoice "id") as [doc|]; [|discriminate].
      injection Hdoc' as <-. apply lookup_union_Some_l.
      by apply delete_request_pdf.
  - split; [reflexivity|]. split; [|split; [|split]].
    + intros request Hin. apply (Hreq _ _ Hin). intros [H|[]]. discriminate H.
    + tauto.
    + exact Hsame.
    + intros Hin. apply in_app_iff in Hin as [[H|[H|[]]]|[H|[]]]; discriminate H.
  - split; [reflexivity|]. split; [|split; [|split]].
    + intros request Hin. apply (Hreq _ _ Hin). intros [H|[]]. discriminate H.
    + tauto.
    + exact Hsame.
    + intros Hin. apply in_app_iff in Hin as [[H|[H|[]]]|[H|[]]]; discriminate H.
Qed.

End PdfClaims.

(* ===================================================================== *)
(** * The claims on the sample inputs                                    *)
(* ===================================================================== *)

Module ValidatorChecks.
Import JS Num Validator ValidatorView ValidatorFacts ValidatorClaims Samples.

(** The good row is valid and its due date follows its issue date; the
    same row due on the day of issue gets the order error and keeps both
    dates. *)
Lemma due_after_issue_witness :
  str_lt (issueDate (validateInvoiceData false good_row 2))
         (dueDate (validateInvoiceData false good_row 2)) = true /\
  (In (msg_order 2) (validationErrors (validateInvoiceData false same_day_row 2)) /\
   isValid (validateInvoiceData false same_day_row 2) = false /\
   issueDate (validateInvoiceData false same_day_row 2) = "2024-01-31" /\
   dueDate (validateInvoiceData false same_day_row 2) = "2024-01-31").
Proof.
  split.
  - destruct (proj1 (due_after_issue false good_row 2))
      as (v1 & v2 & issue & due & _ & _ & _ & _ & _ & _ & Hlt & _).
    + vm_compute. reflexivity.
    + exact Hlt.
  - apply (proj2 (due_after_issue false same_day_row 2)
             "2024-01-31" "2024-01-31" (mkDate 2024 1 31) (mkDate 2024 1 31));
      vm_compute; reflexivity.
Defined.

(** The amount text 0.01 is accepted and stored. *)
Lemma amount_accepted_iff_positive_witness :
  amount (validateInvoiceData false (row_with_amount "0.01") 2) = Decimal false 1 (-2).
Proof.
  apply (proj1 (proj2 (amount_accepted_iff_positive false (row_with_amount "0.01") 2))).
  vm_compute. reflexivity.
Defined.

(** C7, as first stated, fails: the amount text [Infinity] is accepted,
    and the number stored for it is not finite. *)
Lemma infinite_amount_accepted :
  let row := row_with_amount "Infinity" in
  let x := parseFloat (default "undefined" (row !! "amount")) in
  let invoice := validateInvoiceData false row 2 in
  ~ In (msg_amount 2) (validationErrors invoice) /\
  isValid invoice = true /\
  amount invoice = Infinity false /\
  ~ (isFinite x = true /\ gt_zero x = true).
Proof.
  cbv zeta. split; [|split; [|split]].
  - vm_compute. intros [].
  - vm_compute. reflexivity.
  - vm_compute. reflexivity.
  - vm_compute. intros [H _]. discriminate H.
Qed.

Example too_large_amount_accepted :
  amount (validateInvoiceData false (row_with_amount "1e999") 2) = Infinity false.
Proof. vm_compute. reflexivity. Qed.

Example amounts_refused :
  map (fun text =>
         existsb (String.eqb (msg_amount 2))
           (validationErrors (validateInvoiceData false (row_with_amount text) 2)))
      ["0"; "-5"; "abc"; "0.01"] = [true; true; true; false].
Proof. vm_compute. reflexivity. Qed.

Example good_row_validated :
  validateInvoiceData false good_row 2 = valid_invoice.
Proof. vm_compute. reflexivity. Qed.

Example uuid_examples :
  map isValidUUID [uuid; "not-a-uuid"; ""; "123e4567-e89b-12d3-a456-42661417400"] =
  [true; false; false; false].
Proof. vm_compute. reflexivity. Qed.

(** A day past the end of its month: refused by a strict host, rolled
    over by a lenient one. *)
Example day_past_month_end :
  Date_new false "2023-02-30" = None /\
  Date_new true "2023-02-30" = Some (mkDate 2023 3 2).
Proof. vm_compute. split; reflexivity. Qed.

End ValidatorChecks.

Module ImporterChecks.
Import JS Num Importer ImporterView ImporterFacts ImporterClaims BatchFacts BatchClaims Samples.


Example all_rows_refused :
  last (fst (processInvoiceFile (backend sixty_rows (fun _ => true)) "key" "invoices.csv")) =
  Some (JobUpdate "job-1" FAILED (Some (60, 0, 60))
          (Some "60 validation errors. Sample: Row 25: rejected; Row 24: rejected; Row 23: rejected")).
Proof. vm_compute. reflexivity. Qed.

(** Three rows, the second with a bad currency: one job, COMPLETED, two
    records created, one row failed with the currency error alone. *)
Example three_rows_one_bad_currency :
  let rows := validate_rows false 0 (parseCSV three_row_text) in
  map isValid rows = [true; false; true] /\
  map validationErrors rows =
    [[]; ["Row 3: Invalid currency. Must be one of: USD, EUR, GBP, JPY, CAD, AUD, CHF, CNY"]; []] /\
  last (fst (processInvoiceFile (backend rows (fun _ => false)) "key" "invoices.csv")) =
    Some (JobUpdate "job-1" COMPLETED (Some (3, 2, 1))
            (Some "1 validation errors. Sample: Row 2: Row 3: Invalid currency. Must be one of: USD, EUR, GBP, JPY, CAD, AUD, CHF, CNY")).
Proof. vm_compute. repeat split; reflexivity. Qed.

Example no_row_at_all :
  processInvoiceFile (backend [] (fun _ => false)) "key" "invoices.csv" =
  ([JobCreate "invoices.csv" CSV "key" PROCESSING 0 0 0; DownloadAndParse "key" CSV;
    JobUpdate "job-1" COMPLETED (Some (0, 0, 0)) None], Returned).
Proof. vm_compute. reflexivity. Qed.

(** Sixty rows: three batches of 25, 25 and 10 rows. *)
Lemma batches_sequential_witness :
  totalBatches (length sixty_rows) = 3 /\
  map (fun k => length (batch_at sixty_rows k)) (seq 0 (totalBatches (length sixty_rows))) =
  [25; 25; 10].
Proof.
  apply (batches_sequential (backend sixty_rows every_sixth) "job-1" sixty_rows []).
  vm_compute. reflexivity.
Defined.

Example sixty_rows_batch_marks :
  List.filter (fun e => match e with BatchStarted _ _ => true | _ => false end)
    (fst (processInvoiceFile (backend sixty_rows every_sixth) "key" "invoices.csv")) =
  [BatchStarted 1 25; BatchStarted 2 25; BatchStarted 3 10].
Proof. vm_compute. reflexivity. Qed.

(** C9, as first stated, fails: in a run over one valid row the count
    fields are written twice, and the first time is at the creation of
    the job, before any row is processed. *)
Lemma counts_written_at_creation :
  let run := fst (processInvoiceFile (backend [valid_invoice] (fun _ => false))
                    "key" "invoices.csv") in
  List.filter writes_counts run =
    [JobCreate "invoices.csv" CSV "key" PROCESSING 0 0 0;
     JobUpdate "job-1" COMPLETED (Some (1, 1, 0)) None] /\
  length (List.filter writes_counts run) <> 1.
Proof. vm_compute. split; [reflexivity | discriminate]. Qed.

End ImporterChecks.

Module CascadeChecks.
Import JS Cascade CascadeView CascadeFacts CascadeClaims Samples.

(** One job with five records and two attachments: two removals, five
    record deletions, the job deletion, the file removal, in that order;
    the failure of the first removal stops nothing.  When the backend
    refuses the deletion of two of the five records, the record deletions
    are the last calls and the error names two out of five. *)
Lemma cascade_order_witness :
  issued (handleDeleteFile (store []) "user-files/u/1-invoices.csv") =
    [ListJobs "user-files/u/1-invoices.csv"; ListInvoices "job-1";
     RemoveObject "pdfs/a.pdf"; RemoveObject "pdfs/c.pdf";
     DeleteInvoice "r1"; DeleteInvoice "r2"; DeleteInvoice "r3";
     DeleteInvoice "r4"; DeleteInvoice "r5";
     DeleteJob "job-1"; RemoveObject "user-files/u/1-invoices.csv"] /\
  (issued (handleDeleteFile (store ["r2"; "r4"]) "user-files/u/1-invoices.csv") =
     [ListJobs "user-files/u/1-invoices.csv"; ListInvoices "job-1";
      RemoveObject "pdfs/a.pdf"; RemoveObject "pdfs/c.pdf";
      DeleteInvoice "r1"; DeleteInvoice "r2"; DeleteInvoice "r3";
      DeleteInvoice "r4"; DeleteInvoice "r5"] /\
   error (handleDeleteFile (store ["r2"; "r4"]) "user-files/u/1-invoices.csv") =
     Some "Failed to delete file and associated data: Failed to delete 2 out of 5 invoices").
Proof.
  split.
  - destruct (cascade_order (store []) "user-files/u/1-invoices.csv" (Some [job])
                eq_refl eq_refl) as (Hissued & _ & _).
    rewrite Hissued. vm_compute. reflexivity.
  - destruct (cascade_order (store ["r2"; "r4"]) "user-files/u/1-invoices.csv" (Some [job])
                eq_refl eq_refl) as (_ & _ & Hrefused).
    destruct (Hrefused [] job [] five_invoices eq_refl eq_refl eq_refl) as [Hissued Herror].
    + vm_compute. lia.
    + rewrite Hissued, Herror. split; vm_compute; reflexivity.
Defined.

(** C5, as first stated, fails when two jobs point at the file: the
    record of the first job is deleted, and so is the first job, before
    the attachment of the second job's record is removed. *)
Lemma record_deleted_before_later_attachment :
  let calls := issued (handleDeleteFile two_job_store "f") in
  calls !! 3 = Some (DeleteInvoice "job-1-r") /\
  calls !! 4 = Some (DeleteJob "job-1") /\
  calls !! 6 = Some (RemoveObject "job-2.pdf") /\
  error (handleDeleteFile two_job_store "f") = None.
Proof. vm_compute. repeat split. Qed.

(** With two jobs for one file the same sequence runs once per job. *)
Example two_jobs_in_turn :
  issued (handleDeleteFile two_job_store "f") =
  [ListJobs "f";
   ListInvoices "job-1"; RemoveObject "job-1.pdf"; DeleteInvoice "job-1-r"; DeleteJob "job-1";
   ListInvoices "job-2"; RemoveObject "job-2.pdf"; DeleteInvoice "job-2-r"; DeleteJob "job-2";
   RemoveObject "f"].
Proof. vm_compute. reflexivity. Qed.

Example two_record_deletions_fail :
  handleDeleteFile (store ["r2"; "r4"]) "user-files/u/1-invoices.csv" =
  mkResult
    [ListJobs "user-files/u/1-invoices.csv"; ListInvoices "job-1";
     RemoveObject "pdfs/a.pdf"; RemoveObject "pdfs/c.pdf";
     DeleteInvoice "r1"; DeleteInvoice "r2"; DeleteInvoice "r3";
     DeleteInvoice "r4"; DeleteInvoice "r5"]
    (Some "Failed to delete file and associated data: Failed to delete 2 out of 5 invoices").
Proof. vm_compute. reflexivity. Qed.

End CascadeChecks.

Module PdfChecks.
Import JS Pdf PdfView PdfClaims Samples.

(** Detaching the PDF of the stored record: its four PDF fields become
    null and its amount stays. *)
Lemma pdf_delete_frame_witness :
  exists doc',
    fst (handlePdfDelete willing stored_invoice one_record_table) !! "r1" = Some doc' /\
    doc' !! "amount" = stored_invoice !! "amount" /\
    doc' !! "pdfS3Key" = Some Null.
Proof.
  destruct (pdf_delete_frame willing stored_invoice one_record_table)
    as (_ & _ & _ & Hframe & Hnull).
  destruct (Hframe "r1" stored_invoice eq_refl) as (doc' & Hdoc & Hother & _).
  exists doc'. split; [exact Hdoc|]. split.
  - apply Hother; [|discriminate].
    intros [H|[H|[H|[H|[]]]]]; discriminate H.
  - apply (Hnull (or_intror (or_intror (or_introl eq_refl))) doc' Hdoc).
    left. reflexivity.
Defined.

Example detach_issues_update_only :
  snd (handlePdfDelete willing stored_invoice one_record_table) =
  [Confirm (confirm_message stored_invoice);
   InvoiceUpdate (delete_request stored_invoice);
   RefreshInvoices].
Proof. reflexivity. Qed.

End PdfChecks.

(* ===================================================================== *)
(** * Strings, dates and the row validator: further properties *)
(* ===================================================================== *)

Module OptionFacts.

(** An option that holds something holds its value. *)
Lemma some_default {A : Type} (o : option A) (d : A) :
  (match o with Some _ => true | None => false end) = true -> o = Some (default d o).
Proof. destruct o; [reflexivity | discriminate]. Qed.

End OptionFacts.

Module StringFacts.
Import JS.

Lemma append_cons (c : ascii) (s t : string) :
  (String c s ++ t)%string = String c (s ++ t)%string.
Proof. reflexivity. Qed.

Lemma append_nil_l (s : string) : (EmptyString ++ s)%string = s.
Proof. reflexivity. Qed.

Lemma append_nil_r (s : string) : (s ++ EmptyString)%string = s.
Proof.
  induction s as [|c s IH]; [reflexivity|]. by rewrite append_cons, IH.
Qed.

Lemma append_assoc (a b c : string) : ((a ++ b) ++ c = a ++ (b ++ c))%string.
Proof.
  induction a as [|x a IH]; [reflexivity|]. by rewrite !append_cons, IH.
Qed.

Lemma rev_string_spec (s acc : string) :
  rev_string s acc = (reverse_string s ++ acc)%string.
Proof.
  unfold reverse_string. revert acc.
  induction s as [|c s IH]; intros acc; cbn [rev_string]; [reflexivity|].
  rewrite (IH (String c acc)), (IH (String c EmptyString)), append_assoc. reflexivity.
Qed.

Lemma reverse_string_cons (c : ascii) (s : string) :
  reverse_string (String c s) = (reverse_string s ++ String c EmptyString)%string.
Proof. unfold reverse_string at 1. cbn [rev_string]. apply rev_string_spec. Qed.

Lemma reverse_string_app (a b : string) :
  reverse_string (a ++ b) = (reverse_string b ++ reverse_string a)%string.
Proof.
  induction a as [|c a IH].
  - rewrite append_nil_l. change (reverse_string EmptyString) with EmptyString.
    by rewrite append_nil_r.
  - rewrite append_cons, !reverse_string_cons, IH, append_assoc. reflexivity.
Qed.

Lemma reverse_string_involutive (s : string) : reverse_string (reverse_string s) = s.
Proof.
  induction s as [|c s IH]; [reflexivity|].
  rewrite reverse_string_cons, reverse_string_app, IH. reflexivity.
Qed.

Lemma trimStart_idempotent (s : string) : trimStart (trimStart s) = trimStart s.
Proof.
  induction s as [|c s IH]; [reflexivity|]. cbn [trimStart].
  destruct (isWhiteSpace c) eqn:Hc; [exact IH|]. cbn [trimStart]. by rewrite Hc.
Qed.

(** Text after the first character that is no white space is kept. *)
Lemma trimStart_app (s t : string) :
  trimStart s <> EmptyString -> trimStart (s ++ t) = (trimStart s ++ t)%string.
Proof.
  induction s as [|c s IH]; [cbn [trimStart]; congruence|].
  rewrite append_cons. cbn [trimStart].
  destruct (isWhiteSpace c); [exact IH | reflexivity].
Qed.

Lemma trimStart_app_blank (s t : string) :
  trimStart s = EmptyString -> trimStart (s ++ t) = trimStart t.
Proof.
  induction s as [|c s IH]; [reflexivity|].
  rewrite append_cons. cbn [trimStart].
  destruct (isWhiteSpace c); [exact IH | discriminate].
Qed.

Lemma reverse_string_nil (s : string) : reverse_string s = EmptyString -> s = EmptyString.
Proof.
  intros H. apply (f_equal reverse_string) in H.
  by rewrite reverse_string_involutive in H.
Qed.

(** [trimEnd], read from the left. *)
Lemma trimEnd_cons (c : ascii) (r : string) :
  trimEnd (String c r) =
  match trimEnd r with
  | EmptyString => if isWhiteSpace c then EmptyString else String c EmptyString
  | t => String c t
  end.
Proof.
  unfold trimEnd. rewrite reverse_string_cons.
  destruct (trimStart (reverse_string r)) as [|d u] eqn:Hr.
  - rewrite trimStart_app_blank by exact Hr. cbn [trimStart].
    change (reverse_string EmptyString) with EmptyString. cbv iota.
    destruct (isWhiteSpace c); reflexivity.
  - rewrite trimStart_app by (rewrite Hr; discriminate). rewrite Hr.
    rewrite reverse_string_app.
    change (reverse_string (String c EmptyString)) with (String c EmptyString).
    rewrite append_cons, append_nil_l.
    destruct (reverse_string (String d u)) eqn:Hd; [|reflexivity].
    apply reverse_string_nil in Hd. discriminate Hd.
Qed.

(** [trimEnd], read from the right. *)
Lemma trimEnd_snoc (s : string) (c : ascii) :
  trimEnd (s ++ String c EmptyString) =
  if isWhiteSpace c then trimEnd s else (s ++ String c EmptyString)%string.
Proof.
  unfold trimEnd. rewrite reverse_string_app.
  change (reverse_string (String c EmptyString)) with (String c EmptyString).
  rewrite append_cons, append_nil_l. cbn [trimStart].
  destruct (isWhiteSpace c); [reflexivity|].
  rewrite <- (reverse_string_involutive (s ++ String c EmptyString)).
  rewrite reverse_string_app. reflexivity.
Qed.

Lemma trimEnd_idempotent (s : string) : trimEnd (trimEnd s) = trimEnd s.
Proof.
  unfold trimEnd. by rewrite reverse_string_involutive, trimStart_idempotent.
Qed.

Lemma trimStart_trimEnd (s : string) :
  trimStart s = s -> trimStart (trimEnd s) = trimEnd s.
Proof.
  destruct s as [|c r]; [reflexivity|]. cbn [trimStart].
  destruct (isWhiteSpace c) eqn:Hc.
  - intros H. exfalso.
    assert (Hlen : String.length (trimStart r) <= String.length r).
    { clear. induction r as [|d r IH]; cbn [trimStart]; [lia|].
      destruct (isWhiteSpace d); cbn [String.length]; lia. }
    rewrite H in Hlen. cbn [String.length] in Hlen. lia.
  - intros _. rewrite trimEnd_cons.
    destruct (trimEnd r); rewrite ?Hc; cbn [trimStart]; rewrite Hc; reflexivity.
Qed.

(** [trim] is idempotent: a trimmed text has no white space left at
    either end. *)
Lemma trim_idempotent (s : string) : trim (trim s) = trim s.
Proof.
  unfold trim.
  rewrite (trimStart_trimEnd (trimStart s)) by apply trimStart_idempotent.
  apply trimEnd_idempotent.
Qed.

Lemma prefix_append (p s : string) : String.prefix p (p ++ s) = true.
Proof.
  induction p as [|c p IH]; [destruct s; reflexivity|].
  rewrite append_cons. cbn [String.prefix].
  destruct (ascii_dec c c); [exact IH | congruence].
Qed.

Lemma prefix_append_assoc (a b c : string) :
  String.prefix (a ++ b) (a ++ b ++ c) = true.
Proof. rewrite <- append_assoc. apply prefix_append. Qed.

End StringFacts.

Module DateFacts.
Import JS Num Validator ValidatorFacts StringFacts.



Lemma is_digit_digit_char (n : nat) : is_digit (digit_char n) = true.
Proof.
  unfold digit_char.
  pose proof (Nat.mod_upper_bound n 10 ltac:(lia)) as H.
  set (k := n mod 10) in *. clearbody k.
  do 10 (destruct k as [|k]; [reflexivity|]). lia.
Qed.

Lemma digit_value_digit_char (n : nat) : digit_value (digit_char n) = N.of_nat (n mod 10).
Proof.
  unfold digit_char.
  pose proof (Nat.mod_upper_bound n 10 ltac:(lia)) as H.
  set (k := n mod 10) in *. clearbody k.
  do 10 (destruct k as [|k]; [reflexivity|]). lia.
Qed.


(** The day that [new Date] answers is a day of the calendar. *)
Lemma Date_new_calendar (day_rollover : bool) (s : string) (d : Date) :
  Date_new day_rollover s = Some d ->
  year d < 100 * 100 /\ 1 <= month d <= 12 /\
  1 <= day d <= days_in_month (year d) (month d).
Proof.
  intros H. destruct (Date_new_range _ _ _ H) as (Hy & _ & _ & Hm).
  split; [exact Hy|]. revert H. unfold Date_new. rewrite Hm.
  set (y := nat_of_digits (substring 0 4 s)).
  set (m := nat_of_digits (substring 5 2 s)).
  set (dd := nat_of_digits (substring 8 2 s)).
  destruct ((1 <=? m)%nat && (m <=? 12)%nat && (1 <=? dd)%nat) eqn:Hc; [|discriminate].
  apply andb_true_iff in Hc as [Hc H3]. apply andb_true_iff in Hc as [H1 H2].
  apply Nat.leb_le in H1, H2, H3.
  destruct (Nat.leb_spec dd (days_in_month y m)) as [Hle|Hgt].
  - intros [= <-]. cbn [year month day]. lia.
  - destruct day_rollover; [|discriminate]. cbn [andb].
    destruct (Nat.leb_spec dd 31) as [H31|]; [|discriminate].
    intros [= <-]. cbn [year month day].
    assert (Hm12 : m = 2 \/ m = 4 \/ m = 6 \/ m = 9 \/ m = 11).
    { do 13 (destruct m as [|m]; [cbn in Hgt; lia|]). lia. }
    destruct Hm12 as [->|[->|[->|[->| ->]]]]; cbn [days_in_month Nat.add] in *;
      lia.
Qed.

(** Printing a calendar day and reading it back gives the day, on every
    host. *)
Lemma Date_new_iso_day (host : bool) (d : Date) :
  year d < 100 * 100 -> 1 <= month d <= 12 ->
  1 <= day d <= days_in_month (year d) (month d) ->
  Date_new host (iso_day d) = Some d.
Proof.
  destruct d as [y m dd]. cbn [year month day]. intros Hy Hm Hd.
  assert (Hd31 : dd <= 31).
  { assert (days_in_month y m <= 31); [|lia].
    unfold days_in_month. do 13 (destruct m as [|m]; [try lia; destruct (is_leap y); lia|]). lia. }
  unfold Date_new, iso_day, pad4, pad2. cbn [year month day].
  rewrite !append_cons, !append_nil_l.
  unfold dateRegex. cbn [repeat app matches].
  rewrite !is_digit_digit_char. cbn [andb dash].
  change (Ascii.eqb "-" (chr 45)) with true. cbn [andb].
  cbn [substring]. unfold nat_of_digits. cbn [digits_value].
  rewrite !digit_value_digit_char.
  pose proof (four_digits y Hy) as Ey.
  pose proof (two_digits m ltac:(lia)) as Em.
  pose proof (two_digits dd ltac:(lia)) as Ed.
  set (a1 := (y / 1000) mod 10) in *. set (a2 := (y / 100) mod 10) in *.
  set (a3 := (y / 10) mod 10) in *. set (a4 := y mod 10) in *.
  set (b1 := (m / 10) mod 10) in *. set (b2 := m mod 10) in *.
  set (c1 := (dd / 10) mod 10) in *. set (c2 := dd mod 10) in *.
  replace (N.to_nat (10 * (10 * (10 * (10 * 0 + N.of_nat a1) + N.of_nat a2) + N.of_nat a3)
                     + N.of_nat a4)) with y by lia.
  replace (N.to_nat (10 * (10 * 0 + N.of_nat b1) + N.of_nat b2)) with m by lia.
  replace (N.to_nat (10 * (10 * 0 + N.of_nat c1) + N.of_nat c2)) with dd by lia.
  destruct (Nat.leb_spec 1 m); [|lia]. destruct (Nat.leb_spec m 12); [|lia].
  destruct (Nat.leb_spec 1 dd); [|lia]. cbn [andb].
  destruct (Nat.leb_spec dd (days_in_month y m)); [reflexivity | lia].
Qed.


End DateFacts.

Module ValidatorMore.
Import JS Num Validator ValidatorView ValidatorFacts StringFacts DateFacts.

Lemma finish_data (st : vstate) :
  invoiceId (finish st) = invoiceId (snd st) /\
  sellerId (finish st) = sellerId (snd st) /\
  debtorId (finish st) = debtorId (snd st) /\
  currency (finish st) = currency (snd st) /\
  amount (finish st) = amount (snd st) /\
  product (finish st) = product (snd st) /\
  issueDate (finish st) = issueDate (snd st) /\
  dueDate (finish st) = dueDate (snd st).
Proof.
  destruct st as [es i]. unfold finish.
  destruct (0 <? length es)%nat; cbn; tauto.
Qed.

(** The data fields of the validator's record, rule by rule. *)
Lemma validated_data (day_rollover : bool) (row : CsvRow) (rowNumber : nat) :
  let invoice := validateInvoiceData day_rollover row rowNumber in
  invoiceId invoice = (if uuid_ok row "invoice_id" then field_of row "invoice_id" else EmptyString) /\
  sellerId invoice = (if uuid_ok row "seller_id" then field_of row "seller_id" else EmptyString) /\
  debtorId invoice = (if uuid_ok row "debtor_id" then field_of row "debtor_id" else EmptyString) /\
  currency invoice =
    (if currency_ok row then toUpperCase (field_of row "currency") else EmptyString) /\
  amount invoice = (if amount_ok row then parsed_amount row else zero) /\
  product invoice = (if product_ok row then trim (field_of row "product") else EmptyString) /\
  issueDate invoice =
    (if date_ok day_rollover row "issue_date" then iso_of day_rollover row "issue_date"
     else EmptyString) /\
  dueDate invoice =
    (if date_ok day_rollover row "due_date" then iso_of day_rollover row "due_date"
     else EmptyString).
Proof.
  cbv zeta. rewrite validateInvoiceData_closed.
  destruct (finish_data (all_errors day_rollover row rowNumber, field_values day_rollover row))
    as (-> & -> & -> & -> & -> & -> & -> & ->).
  cbn. tauto.
Qed.

Lemma errors_if_length (ok : bool) (msg : string) :
  length (errors_if ok msg) = if ok then 0 else 1.
Proof. destruct ok; reflexivity. Qed.

Lemma errors_if_prefix (ok : bool) (p rest : string) :
  Forall (fun m => String.prefix p m = true) (errors_if ok (p ++ rest)%string).
Proof.
  destruct ok; [constructor|]. constructor; [apply prefix_append | constructor].
Qed.

Lemma validationErrors_prefixed (day_rollover : bool) (row : CsvRow) (rowNumber : nat) :
  Forall (fun m => exists rest, m = (row_prefix rowNumber ++ rest)%string)
    (validationErrors (validateInvoiceData day_rollover row rowNumber)).
Proof.
  rewrite validationErrors_closed. unfold all_errors, field_errors.
  unfold msg_uuid, msg_currency, msg_amount, msg_product, msg_date, msg_order.
  rewrite !Forall_app.
  repeat split;
    match goal with
    | |- Forall _ (errors_if ?ok _) =>
        destruct ok; repeat constructor; eexists; reflexivity
    end.
Qed.

(** X1.  The validator reports every rule that fails, not only the
    first: the error list of its record is, in the order of the rules,
    the message of each failing rule (three identifiers, currency,
    amount, product, issue date, due date, and the order of the two
    dates).  Every message starts with the row number it was given, and
    there are at most eight of them, since the order rule only fires when
    both dates passed. *)
Theorem errors_one_per_failing_rule (day_rollover : bool) (row : CsvRow) (rowNumber : nat) :
  let errors := validationErrors (validateInvoiceData day_rollover row rowNumber) in
  let tag := ("Row " ++ of_nat rowNumber ++ ": ")%string in
  errors =
    errors_if (uuid_ok row "invoice_id")
      (tag ++ "Invalid or missing invoice_id (must be UUID format)")%string ++
    errors_if (uuid_ok row "seller_id")
      (tag ++ "Invalid or missing seller_id (must be UUID format)")%string ++
    errors_if (uuid_ok row "debtor_id")
      (tag ++ "Invalid or missing debtor_id (must be UUID format)")%string ++
    errors_if (currency_ok row)
      (tag ++ "Invalid currency. Must be one of: USD, EUR, GBP, JPY, CAD, AUD, CHF, CNY")%string ++
    errors_if (amount_ok row) (tag ++ "Invalid amount (must be positive number)")%string ++
    errors_if (product_ok row) (tag ++ "Product field is required")%string ++
    errors_if (date_ok day_rollover row "issue_date")
      (tag ++ "Invalid issue_date (must be YYYY-MM-DD format)")%string ++
    errors_if (date_ok day_rollover row "due_date")
      (tag ++ "Invalid due_date (must be YYYY-MM-DD format)")%string ++
    errors_if (negb (order_violated day_rollover row))
      (tag ++ "Due date must be after issue date")%string /\
  Forall (fun m => String.prefix tag m = true) errors /\
  length errors <= 8.
Proof.
  cbv zeta. rewrite validationErrors_closed.
  unfold all_errors, field_errors. rewrite <- !app_assoc.
  split; [reflexivity|]. split.
  - unfold msg_uuid, msg_currency, msg_amount, msg_product, msg_date, msg_order.
    fold (row_prefix rowNumber).
    rewrite !Forall_app. repeat split; apply errors_if_prefix.
  - rewrite !length_app, !errors_if_length.
    unfold order_violated, field_values. cbn [issueDate dueDate].
    destruct (date_ok day_rollover row "issue_date"), (date_ok day_rollover row "due_date");
      cbn [truthy andb negb];
      repeat match goal with |- context [if ?b then _ else _] => destruct b end; lia.
Qed.

(** X2.  Each field of the record depends on its own column alone: two
    rows that agree on a column give records that agree on the field
    read from it, whatever the other columns and the row numbers are.  So
    an error in one column never blanks or changes the field of another
    column. *)
Theorem fields_validated_independently (day_rollover : bool) (row1 row2 : CsvRow)
  (n1 n2 : nat) :
  let a := validateInvoiceData day_rollover row1 n1 in
  let b := validateInvoiceData day_rollover row2 n2 in
  (row1 !! "invoice_id" = row2 !! "invoice_id" -> invoiceId a = invoiceId b) /\
  (row1 !! "seller_id" = row2 !! "seller_id" -> sellerId a = sellerId b) /\
  (row1 !! "debtor_id" = row2 !! "debtor_id" -> debtorId a = debtorId b) /\
  (row1 !! "currency" = row2 !! "currency" -> currency a = currency b) /\
  (row1 !! "amount" = row2 !! "amount" -> amount a = amount b) /\
  (row1 !! "product" = row2 !! "product" -> product a = product b) /\
  (row1 !! "issue_date" = row2 !! "issue_date" -> issueDate a = issueDate b) /\
  (row1 !! "due_date" = row2 !! "due_date" -> dueDate a = dueDate b).
Proof.
  cbv zeta.
  destruct (validated_data day_rollover row1 n1) as (-> & -> & -> & -> & -> & -> & -> & ->).
  destruct (validated_data day_rollover row2 n2) as (-> & -> & -> & -> & -> & -> & -> & ->).
  unfold uuid_ok, currency_ok, amount_ok, parsed_amount, product_ok, date_ok, iso_of, field_of.
  repeat split; intros ->; reflexivity.
Qed.

(** The good row and the same row with another amount: same identifier. *)
Lemma fields_validated_independently_witness :
  invoiceId (validateInvoiceData false Samples.good_row 2) =
  invoiceId (validateInvoiceData false (Samples.row_with_amount "abc") 7).
Proof.
  apply (proj1 (fields_validated_independently false Samples.good_row
                  (Samples.row_with_amount "abc") 2 7)).
  reflexivity.
Defined.

Lemma all_errors_nil_all (day_rollover : bool) (row : CsvRow) (rowNumber : nat) :
  all_errors day_rollover row rowNumber = [] ->
  uuid_ok row "invoice_id" = true /\ uuid_ok row "seller_id" = true /\
  uuid_ok row "debtor_id" = true /\ currency_ok row = true /\
  amount_ok row = true /\ product_ok row = true /\
  date_ok day_rollover row "issue_date" = true /\
  date_ok day_rollover row "due_date" = true.
Proof.
  unfold all_errors, field_errors, errors_if. intros H.
  destruct (uuid_ok row "invoice_id"); [|discriminate H].
  destruct (uuid_ok row "seller_id"); [|discriminate H].
  destruct (uuid_ok row "debtor_id"); [|discriminate H].
  destruct (currency_ok row); [|discriminate H].
  destruct (amount_ok row); [|discriminate H].
  destruct (product_ok row); [|discriminate H].
  destruct (date_ok day_rollover row "issue_date"); [|discriminate H].
  destruct (date_ok day_rollover row "due_date"); [|discriminate H].
  repeat split.
Qed.

Lemma includes_In (xs : list string) (x : string) : includes xs x = true -> In x xs.
Proof.
  unfold includes. intros H. apply existsb_exists in H as (y & Hy & Heq).
  apply String.eqb_eq in Heq. by subst.
Qed.

(** X3.  A record that the validator marks valid is well formed.  Its
    three identifiers are the texts of their columns, unchanged, and match
    the UUID pattern; its currency is the upper-case form of the column
    and is one of the eight accepted codes; its amount is the number
    parseFloat reads from the column and is greater than zero; its product
    is the trimmed column, is not empty and has no white space at either
    end; and its two dates are days of the calendar, which every host
    accepts. *)
Theorem valid_record_well_formed (day_rollover : bool) (row : CsvRow) (rowNumber : nat) :
  let invoice := validateInvoiceData day_rollover row rowNumber in
  isValid invoice = true ->
  (row !! "invoice_id" = Some (invoiceId invoice) /\ isValidUUID (invoiceId invoice) = true) /\
  (row !! "seller_id" = Some (sellerId invoice) /\ isValidUUID (sellerId invoice) = true) /\
  (row !! "debtor_id" = Some (debtorId invoice) /\ isValidUUID (debtorId invoice) = true) /\
  (exists text, row !! "currency" = Some text /\ currency invoice = toUpperCase text) /\
  In (currency invoice) ["USD"; "EUR"; "GBP"; "JPY"; "CAD"; "AUD"; "CHF"; "CNY"] /\
  (exists text, row !! "amount" = Some text /\ amount invoice = parseFloat text) /\
  gt_zero (amount invoice) = true /\
  (exists text, row !! "product" = Some text /\ product invoice = trim text) /\
  product invoice <> EmptyString /\
  trim (product invoice) = product invoice /\
  (forall host, isValidDate host (issueDate invoice) = true /\
                isValidDate host (dueDate invoice) = true).
Proof.
  cbv zeta. intros Hvalid. apply isValid_closed in Hvalid.
  destruct (all_errors_nil_all _ _ _ Hvalid) as (U1 & U2 & U3 & C & A & P & D1 & D2).
  destruct (validated_data day_rollover row rowNumber)
    as (-> & -> & -> & -> & -> & -> & -> & ->).
  rewrite U1, U2, U3, C, A, P, D1, D2.
  destruct (date_ok_parsed _ _ _ D1) as (issue & Pi & ->).
  destruct (date_ok_parsed _ _ _ D2) as (due & Pd & ->).
  unfold uuid_ok, currency_ok, amount_ok, parsed_amount, product_ok, field_of in *.
  destruct (row !! "invoice_id") as [v1|]; [|discriminate].
  destruct (row !! "seller_id") as [v2|]; [|discriminate].
  destruct (row !! "debtor_id") as [v3|]; [|discriminate].
  destruct (row !! "currency") as [c|]; [|discriminate].
  destruct (row !! "product") as [p|]; [|discriminate].
  apply andb_true_iff in U1 as [_ U1]. apply andb_true_iff in U2 as [_ U2].
  apply andb_true_iff in U3 as [_ U3]. apply andb_true_iff in C as [_ C].
  apply andb_true_iff in P as [_ P]. apply negb_true_iff, Nat.eqb_neq in P.
  cbn [default]. unfold Datatypes.id.
  split; [split; [reflexivity | exact U1]|].
  split; [split; [reflexivity | exact U2]|].
  split; [split; [reflexivity | exact U3]|].
  split; [exists c; split; reflexivity|].
  split; [by apply includes_In|].
  assert (Hamount : exists text, row !! "amount" = Some text).
  { destruct (row !! "amount") as [t|]; [by exists t|].
    vm_compute in A. discriminate A. }
  destruct Hamount as [t Ht]. rewrite Ht in *. cbn [default] in *.
  unfold Datatypes.id in *.
  split; [exists t; split; reflexivity|].
  split.
  { by rewrite ValidatorClaims.gt_zero_spec. }
  split; [exists p; split; reflexivity|].
  split; [intros Hp; rewrite Hp in P; by apply P|].
  split; [apply trim_idempotent|].
  intros host.
  destruct (Date_new_calendar _ _ _ Pi) as (Y1 & M1 & Dd1).
  destruct (Date_new_calendar _ _ _ Pd) as (Y2 & M2 & Dd2).
  split; eapply ValidatorClaims.Date_new_valid; apply Date_new_iso_day; assumption.
Qed.

(** The good row of the samples is valid: its identifiers match the
    pattern and its currency is on the list. *)
Lemma valid_record_well_formed_witness :
  isValidUUID (invoiceId (validateInvoiceData false Samples.good_row 2)) = true /\
  In (currency (validateInvoiceData false Samples.good_row 2))
    ["USD"; "EUR"; "GBP"; "JPY"; "CAD"; "AUD"; "CHF"; "CNY"].
Proof.
  destruct (valid_record_well_formed false Samples.good_row 2)
    as ((_ & H1) & _ & _ & _ & H2 & _).
  - vm_compute. reflexivity.
  - split; [exact H1 | exact H2].
Defined.












Lemma span_digits_app (ds rest : string) :
  AmountView.all_digits ds = true -> AmountView.ends_number rest = true ->
  span_digits (ds ++ rest) = (ds, rest).
Proof.
  unfold AmountView.all_digits. intros Hds Hrest.
  induction ds as [|c ds IH].
  - rewrite append_nil_l. destruct rest as [|c r]; [reflexivity|].
    cbn [span_digits]. cbn [AmountView.ends_number] in Hrest.
    destruct (is_digit c); [discriminate Hrest | reflexivity].
  - cbn [list_ascii_of_string forallb] in Hds. apply andb_true_iff in Hds as [Hc Hds].
    rewrite append_cons. cbn [span_digits]. rewrite Hc, (IH Hds). reflexivity.
Qed.

(** What [parseFloat] reads from digits followed by other text. *)
Lemma parseFloat_digits (c : ascii) (ds rest : string) :
  AmountView.all_digits (String c ds) = true -> AmountView.ends_number rest = true ->
  parseFloat (String c ds ++ rest) =
  let v := digits_value (String c ds) 0 in
  if rounds_to_infinity v 0 then Infinity false else Decimal false v 0.
Proof.
  intros Hds Hrest. unfold parseFloat.
  assert (Hc : is_digit c = true).
  { unfold AmountView.all_digits in Hds. cbn in Hds. by apply andb_true_iff in Hds as [? _]. }
  rewrite append_cons. cbn [trimStart].
  assert (Hfacts : isWhiteSpace c = false /\ Ascii.eqb c (chr 45) = false /\
                   Ascii.eqb c (chr 43) = false /\ Ascii.eqb c "I" = false).
  { revert Hc. clear. destruct c as [[] [] [] [] [] [] [] []]; cbn; try discriminate;
      repeat split. }
  destruct Hfacts as (W & M & P & I). rewrite W, M, P.
  assert (Hpre : String.prefix "Infinity" (String c (ds ++ rest)) = false).
  { cbn [String.prefix]. destruct (ascii_dec "I" c) as [<-|]; [discriminate I | reflexivity]. }
  rewrite Hpre. rewrite <- append_cons, (span_digits_app _ _ Hds Hrest).
  assert (Hs3 : match rest with
                | String d r =>
                    if Ascii.eqb d (chr 46) then
                      let (fs, r') := span_digits r in
                      match String c ds, fs with
                      | EmptyString, EmptyString => (EmptyString, rest)
                      | _, _ => (fs, r')
                      end
                    else (EmptyString, rest)
                | EmptyString => (EmptyString, rest)
                end = (EmptyString, rest)).
  { destruct rest as [|d r]; [reflexivity|]. cbn [AmountView.ends_number] in Hrest.
    destruct (Ascii.eqb d (chr 46)); [|reflexivity].
    rewrite !orb_true_r in Hrest. discriminate Hrest. }
  rewrite Hs3. rewrite append_nil_r.
  assert (He : exponent_part rest = 0%Z).
  { destruct rest as [|d r]; [reflexivity|]. cbn [AmountView.ends_number] in Hrest.
    unfold exponent_part.
    destruct (Ascii.eqb d (chr 101)); [rewrite !orb_true_r in Hrest; discriminate Hrest|].
    destruct (Ascii.eqb d (chr 69)); [rewrite !orb_true_r in Hrest; discriminate Hrest|].
    reflexivity. }
  rewrite He. reflexivity.
Qed.

Lemma amount_refused (day_rollover : bool) (row : CsvRow) (rowNumber : nat) :
  amount_ok row = false ->
  let invoice := validateInvoiceData day_rollover row rowNumber in
  In (msg_amount rowNumber) (validationErrors invoice) /\
  amount invoice = zero /\ isValid invoice = false.
Proof.
  intros Hno. cbv zeta.
  assert (Hin : In (msg_amount rowNumber) (all_errors day_rollover row rowNumber))
    by (by apply msg_amount_in).
  rewrite validationErrors_closed. split; [exact Hin|]. split.
  - destruct (validated_data day_rollover row rowNumber) as (_ & _ & _ & _ & -> & _).
    by rewrite Hno.
  - destruct (isValid _) eqn:Hv; [|reflexivity].
    apply isValid_closed in Hv. rewrite Hv in Hin. destruct Hin.
Qed.

(** X6.  A row whose amount column is missing, is empty or holds only
    white space, or starts (after white space) with a minus sign is
    never valid: the amount error is recorded and the stored amount
    stays 0, whatever follows the minus sign. *)
Theorem amount_without_positive_number_refused (day_rollover : bool) (row : CsvRow)
  (rowNumber : nat) :
  (row !! "amount" = None \/
   exists text, row !! "amount" = Some text /\
     (trimStart text = EmptyString \/ exists rest, trimStart text = String "-" rest)) ->
  let invoice := validateInvoiceData day_rollover row rowNumber in
  In (("Row " ++ of_nat rowNumber ++ ": ") ++ "Invalid amount (must be positive number)")%string
     (validationErrors invoice) /\
  amount invoice = zero /\ isValid invoice = false.
Proof.
  intros H. apply amount_refused. unfold amount_ok, parsed_amount.
  destruct H as [->|(text & -> & H)]; [reflexivity|].
  cbn [default]. unfold Datatypes.id, parseFloat.
  destruct H as [->|(rest & ->)]; [reflexivity|].
  change (Ascii.eqb "-" (chr 45)) with true. cbv iota.
  repeat match goal with
         | |- context [if ?b then _ else _] => destruct b
         | |- context [let (_, _) := ?p in _] => destruct p
         | |- context [match ?x with _ => _ end] => destruct x
         end; reflexivity.
Qed.

(** A row without an amount column, and one whose amount is -5. *)
Lemma amount_without_positive_number_refused_witness :
  isValid (validateInvoiceData false (delete "amount" Samples.good_row) 2) = false /\
  isValid (validateInvoiceData false (Samples.row_with_amount " -5") 2) = false.
Proof.
  split.
  - apply (amount_without_positive_number_refused false (delete "amount" Samples.good_row) 2).
    left. vm_compute. reflexivity.
  - apply (amount_without_positive_number_refused false (Samples.row_with_amount " -5") 2).
    right. exists " -5". split; [vm_compute; reflexivity|].
    right. exists "5". reflexivity.
Defined.

(** X7.  An amount column that starts with decimal digits is read up
    to the first character that cannot continue the number: when the
    digits are followed by the end of the text or by a character that is
    no digit, no dot and no exponent mark, the rest of the column is
    ignored.  The amount is accepted exactly when the digits are not all
    zeros, and the stored amount is then the number they write (positive
    infinity when it is too large for a finite double).  So the text
    [1 000] is accepted as 1. *)
Theorem amount_read_up_to_other_text (day_rollover : bool) (row : CsvRow)
  (rowNumber : nat) (c : ascii) (ds rest : string) :
  AmountView.all_digits (String c ds) = true ->
  AmountView.ends_number rest = true ->
  row !! "amount" = Some (String c ds ++ rest)%string ->
  let invoice := validateInvoiceData day_rollover row rowNumber in
  let v := digits_value (String c ds) 0 in
  let message :=
    (("Row " ++ of_nat rowNumber ++ ": ") ++ "Invalid amount (must be positive number)")%string in
  (v <> 0%N ->
   ~ In message (validationErrors invoice) /\
   amount invoice = if rounds_to_infinity v 0 then Infinity false else Decimal false v 0) /\
  (v = 0%N ->
   In message (validationErrors invoice) /\ amount invoice = zero).
Proof.
  intros Hds Hrest Hrow. cbv zeta.
  change (("Row " ++ of_nat rowNumber ++ ": ") ++ "Invalid amount (must be positive number)")%string
    with (msg_amount rowNumber).
  pose proof (parseFloat_digits c ds rest Hds Hrest) as Hparse. cbv zeta in Hparse.
  set (v := digits_value (String c ds) 0) in *.
  assert (Hx : parsed_amount row =
               if rounds_to_infinity v 0 then Infinity false else Decimal false v 0).
  { unfold parsed_amount. rewrite Hrow. exact Hparse. }
  assert (Hok : amount_ok row = negb (v =? 0)%N).
  { unfold amount_ok. rewrite Hx.
    destruct (rounds_to_infinity v 0) eqn:Hinf.
    - destruct (N.eqb_spec v 0) as [Hz|]; [|reflexivity].
      rewrite Hz in Hinf. vm_compute in Hinf. discriminate Hinf.
    - cbn [isNaN le_zero orb]. unfold rounds_to_zero.
      change (0 <? 0)%Z with false. by rewrite andb_false_l, orb_false_r. }
  rewrite validationErrors_closed, msg_amount_in, Hok.
  destruct (validated_data day_rollover row rowNumber) as (_ & _ & _ & _ & -> & _).
  rewrite Hok, Hx.
  split; intros Hv.
  - apply N.eqb_neq in Hv. rewrite Hv. split; [discriminate | reflexivity].
  - rewrite Hv. split; reflexivity.
Qed.

(** The text [1 000] is accepted as 1. *)
Lemma amount_read_up_to_other_text_witness :
  amount (validateInvoiceData false (Samples.row_with_amount "1 000") 2) = Decimal false 1 0.
Proof.
  assert (Hrow : Samples.row_with_amount "1 000" !! "amount" = Some ("1" ++ " 000")%string)
    by (vm_compute; reflexivity).
  destruct (amount_read_up_to_other_text false _ 2 "1" "" " 000" eq_refl eq_refl Hrow)
    as [Hpos _].
  destruct (Hpos ltac:(discriminate)) as [_ Ha].
  rewrite Ha. vm_compute. reflexivity.
Defined.


End ValidatorMore.

(* ===================================================================== *)
(** * The CSV parser: line ends *)
(* ===================================================================== *)

Module CsvMore.
Import JS Csv CsvView StringFacts.

(** [a] is [b], possibly with one more character [c] at its end. *)
Local Abbreviation extended c := (fun a b : string => a = b \/ a = (b ++ String c EmptyString)%string).

Lemma split_snoc (sep c : ascii) (s : string) :
  Ascii.eqb c sep = false ->
  exists fields last,
    split sep s = fields ++ [last] /\
    split sep (s ++ String c EmptyString) = fields ++ [(last ++ String c EmptyString)%string].
Proof.
  intros Hc. induction s as [|d r (fields & last & E1 & E2)].
  - exists [], EmptyString. rewrite append_nil_l. cbn [split]. rewrite Hc. split; reflexivity.
  - rewrite append_cons. cbn [split]. rewrite E1, E2.
    destruct (Ascii.eqb d sep).
    + exists (EmptyString :: fields), last. split; reflexivity.
    + destruct fields as [|f fields]; cbn [app].
      * exists [], (String d last). split; reflexivity.
      * exists (String d f :: fields), last. split; reflexivity.
Qed.

Lemma trim_snoc (s : string) (c : ascii) :
  isWhiteSpace c = true -> trim (s ++ String c EmptyString) = trim s.
Proof.
  intros Hc. unfold trim.
  destruct (trimStart s) as [|d u] eqn:Hs.
  - rewrite trimStart_app_blank by exact Hs. cbn [trimStart]. by rewrite Hc.
  - rewrite trimStart_app by (rewrite Hs; discriminate).
    rewrite trimEnd_snoc, Hc, Hs. reflexivity.
Qed.

Lemma clean_snoc (s : string) (c : ascii) :
  isWhiteSpace c = true -> clean (s ++ String c EmptyString) = clean s.
Proof. intros Hc. unfold clean. by rewrite trim_snoc. Qed.

(** Two lines that the parser cannot tell apart. *)
Local Abbreviation alike := (fun a b : string =>
  trim a = trim b /\ map clean (split comma a) = map clean (split comma b)).

Lemma alike_snoc (s : string) : alike (s ++ String CR EmptyString)%string s.
Proof.
  split; [by apply trim_snoc|].
  destruct (split_snoc comma CR s eq_refl) as (fields & last & -> & ->).
  rewrite !map_app. cbn [map]. by rewrite clean_snoc.
Qed.

Lemma split_with_crlf (text : string) :
  Forall2 (extended CR) (split LF (with_crlf text)) (split LF text).
Proof.
  induction text as [|c r IH].
  - repeat constructor.
  - cbn [with_crlf split]. destruct (Ascii.eqb c LF) eqn:Hc.
    + cbn [split]. change (Ascii.eqb CR LF) with false. cbv iota.
      change (Ascii.eqb LF LF) with true. cbv iota.
      constructor; [|exact IH]. right. reflexivity.
    + cbn [split]. rewrite Hc.
      destruct IH as [|a b ta tb Hab IH]; [repeat constructor|].
      constructor; [|exact IH].
      destruct Hab as [->| ->]; [left | right]; reflexivity.
Qed.

Lemma filter_alike (xs ys : list string) :
  Forall2 alike xs ys ->
  Forall2 alike (filter (fun line => Is_true (truthy (trim line))) xs)
                (filter (fun line => Is_true (truthy (trim line))) ys).
Proof.
  induction 1 as [|a b ta tb Hab _ IH]; [constructor|].
  rewrite !filter_cons. destruct Hab as [Ht Hf]. rewrite Ht.
  destruct (decide (Is_true (truthy (trim b)))); [|exact IH].
  constructor; [split; assumption | exact IH].
Qed.

Lemma map_parse_line_alike (headers : list string) (xs ys : list string) :
  Forall2 alike xs ys -> map (parse_line headers) xs = map (parse_line headers) ys.
Proof.
  induction 1 as [|a b ta tb [_ Hf] _ IH]; [reflexivity|].
  cbn [map]. unfold parse_line at 1 3. rewrite Hf, IH. reflexivity.
Qed.

(** X8.  A text saved with CR LF line ends parses to the same rows as
    the text with bare line feeds: the carriage return left at the end of
    each line is white space, which is trimmed off the last field of the
    line, and a line that holds nothing else is dropped as blank. *)
Theorem parseCSV_ignores_carriage_returns (csvText : string) :
  parseCSV (with_crlf csvText) = parseCSV csvText.
Proof.
  assert (Hlines : Forall2 alike (nonblank_lines (with_crlf csvText)) (nonblank_lines csvText)).
  { unfold nonblank_lines. apply filter_alike.
    eapply Forall2_impl; [apply split_with_crlf|].
    intros a b [->| ->]; [split; reflexivity | apply alike_snoc]. }
  unfold parseCSV. rewrite (Forall2_length _ _ _ Hlines).
  destruct (length (nonblank_lines csvText) <? 2)%nat; [reflexivity|].
  destruct Hlines as [|a b ta tb [_ Hf] Hrest]; [reflexivity|].
  rewrite Hf. by apply map_parse_line_alike.
Qed.

End CsvMore.

(* ===================================================================== *)
(** * The batch importer: further properties *)
(* ===================================================================== *)

Module ImporterMore.
Import JS Num Importer ImporterView ImporterFacts RunView StringFacts ValidatorFacts ValidatorMore.

Lemma filter_map_all {A B : Type} (p : B -> bool) (f : A -> B) (xs : list A) :
  (forall x, p (f x) = true) -> List.filter p (map f xs) = map f xs.
Proof.
  intros H. induction xs as [|x xs IH]; [reflexivity|].
  cbn [map List.filter]. by rewrite H, IH.
Qed.

Lemma filter_map_none {A B : Type} (p : B -> bool) (f : A -> B) (xs : list A) :
  (forall x, p (f x) = false) -> List.filter p (map f xs) = [].
Proof.
  intros H. induction xs as [|x xs IH]; [reflexivity|].
  cbn [map List.filter]. by rewrite H, IH.
Qed.

Lemma segment_creates (B : Backend) (jobId : string) (i : nat) (batch : list InvoiceData) :
  List.filter is_create (segment B jobId i batch) =
  map (create_event jobId) (List.filter valid_row (numbered i 0 batch)).
Proof.
  unfold segment. cbn [List.filter is_create].
  rewrite !List.filter_app.
  rewrite (filter_map_all is_create (create_event jobId)) by reflexivity.
  rewrite (filter_map_none is_create settled_event) by reflexivity.
  cbn. by rewrite app_nil_r.
Qed.

Lemma segment_settlements (B : Backend) (jobId : string) (i : nat) (batch : list InvoiceData) :
  Permutation (List.filter is_settled (segment B jobId i batch))
    (map settled_event (List.filter valid_row (numbered i 0 batch))).
Proof.
  unfold segment. cbn [List.filter is_settled].
  rewrite !List.filter_app.
  rewrite (filter_map_none is_settled (create_event jobId)) by reflexivity.
  rewrite (filter_map_all is_settled settled_event) by reflexivity.
  cbn. rewrite app_nil_r.
  apply Permutation_map, settle_order_perm.
Qed.

Lemma batches_left_is_zero (n i : nat) : batches_left n i = 0 -> n <= i.
Proof.
  intros H. destruct (le_lt_dec n i) as [|Hlt]; [assumption|].
  rewrite (batches_left_succ _ _ Hlt) in H. discriminate H.
Qed.

(** The create calls of the loop from index [i] on: the valid rows from
    there on, in row order. *)
Lemma segments_creates (B : Backend) (jobId : string) (rows : list InvoiceData)
  (nb i : nat) :
  nb = batches_left (length rows) i ->
  List.filter is_create (concat (segments B jobId rows i nb)) =
    map (create_event jobId) (List.filter valid_row (numbered i 0 (drop i rows))) /\
  Permutation (List.filter is_settled (concat (segments B jobId rows i nb)))
    (map settled_event (List.filter valid_row (numbered i 0 (drop i rows)))).
Proof.
  revert i. induction nb as [|nb IH]; intros i Hnb.
  - symmetry in Hnb. apply batches_left_is_zero in Hnb.
    rewrite drop_ge by exact Hnb. split; [reflexivity | constructor].
  - assert (Hlt : i < length rows).
    { destruct (le_lt_dec (length rows) i) as [Hge|]; [|assumption].
      rewrite (batches_left_zero _ _ Hge) in Hnb. discriminate Hnb. }
    rewrite (batches_left_succ _ _ Hlt) in Hnb. injection Hnb as Hnb.
    destruct (IH _ Hnb) as [IH1 IH2].
    cbn [segments concat]. rewrite !List.filter_app, IH1, segment_creates.
    rewrite (slice_numbered i rows), !List.filter_app, !map_app.
    split; [reflexivity|].
    apply Permutation_app; [apply segment_settlements | exact IH2].
Qed.

(** X9.  In a run whose job is created and whose file parses, a create
    call is issued for every valid row and for no other: the create calls
    of the run are, in row order, those of the valid rows, each with its
    row number counted from 1 and with the id of the run's job.  Every one
    of these calls settles exactly once before the run ends. *)
Theorem only_valid_rows_created (B : Backend) (fileKey fileName jobId : string)
  (rows : list InvoiceData) :
  job_create B = Resolved None (Some jobId) ->
  truthy jobId = true ->
  download_and_parse B fileKey (fileTypeOf fileName) = inl rows ->
  let run := fst (processInvoiceFile B fileKey fileName) in
  let valid_rows := List.filter valid_row (numbered 0 0 rows) in
  List.filter is_create run =
    map (fun p => InvoiceCreate (fst p) (snd p) jobId) valid_rows /\
  Permutation (List.filter is_settled run)
    (map (fun p => InvoiceSettled (fst p)) valid_rows).
Proof.
  intros Hjob Hid Hparse. cbv zeta.
  unfold processInvoiceFile. rewrite Hjob, Hparse, Hid. cbn [negb fst].
  destruct (ImporterClaims.import_rows_log B jobId rows
    ([JobCreate fileName (fileTypeOf fileName) fileKey PROCESSING 0 0 0] ++
     [DownloadAndParse fileKey (fileTypeOf fileName)])) as [summary Hlog].
  cbv zeta in Hlog. rewrite Hlog. clear Hlog.
  rewrite !List.filter_app. cbn [app List.filter is_create is_settled].
  rewrite !app_nil_r.
  destruct (segments_creates B jobId rows _ 0 eq_refl) as [H1 H2].
  cbn [drop] in H1, H2. split; [exact H1 | exact H2].
Qed.

(** One valid row, one invalid row, one valid row: two create calls. *)
Lemma only_valid_rows_created_witness :
  List.filter is_create
    (fst (processInvoiceFile
            (Samples.backend [Samples.valid_invoice; Samples.invalid_invoice;
                              Samples.valid_invoice] (fun _ => false))
            "key" "invoices.csv")) =
  [InvoiceCreate 1 Samples.valid_invoice "job-1";
   InvoiceCreate 3 Samples.valid_invoice "job-1"].
Proof.
  apply (only_valid_rows_created
           (Samples.backend [Samples.valid_invoice; Samples.invalid_invoice;
                             Samples.valid_invoice] (fun _ => false))
           "key" "invoices.csv" "job-1" _ eq_refl eq_refl eq_refl).
Defined.

(** X10.  A run that throws has created no invoice record.  When the
    job could not be created, the creation attempt is the only call of the
    run.  When the job exists and the download or the parsing throws, one
    more call follows: the update that marks that job FAILED with the
    message of the error (no update when the job came back with an empty
    id).  A run returns only when the job was created with an id and the
    file was parsed. *)
Theorem thrown_run_creates_no_record (B : Backend) (fileKey fileName : string) :
  let run := fst (processInvoiceFile B fileKey fileName) in
  let fileType := fileTypeOf fileName in
  let creation := JobCreate fileName fileType fileKey PROCESSING 0 0 0 in
  match snd (processInvoiceFile B fileKey fileName) with
  | Returned =>
      exists id rows,
        job_create B = Resolved None (Some id) /\ truthy id = true /\
        download_and_parse B fileKey fileType = inl rows
  | Threw thrown =>
      List.filter is_create run = [] /\
      ((forall id, job_create B <> Resolved None (Some id)) -> run = [creation]) /\
      (forall id, job_create B = Resolved None (Some id) ->
         run = [creation; DownloadAndParse fileKey fileType] ++
               (if truthy id
                then [JobUpdate id FAILED None
                        (Some (match thrown with
                               | Some message => message
                               | None => "Unknown processing error"
                               end))]
                else []))
  end.
Proof.
  cbv zeta. unfold processInvoiceFile, on_error.
  destruct (job_create B) as [[errs|] [id|]|thrown] eqn:Hjob; cbn [fst snd];
    try (split; [reflexivity|]; split; [reflexivity | intros id' [=]]).
  destruct (download_and_parse B fileKey (fileTypeOf fileName)) as [rows|thrown] eqn:Hparse.
  - destruct (truthy id) eqn:Hid; cbn [negb fst snd].
    + exists id, rows. repeat split; assumption.
    + split; [reflexivity|]. split.
      * intros Hno. exfalso. by apply (Hno id).
      * intros id' [= <-]. rewrite Hid. reflexivity.
  - destruct (truthy id) eqn:Hid; cbn [fst snd].
    + split; [reflexivity|]. split.
      * intros Hno. exfalso. by apply (Hno id).
      * intros id' [= <-]. rewrite Hid. reflexivity.
    + split; [reflexivity|]. split.
      * intros Hno. exfalso. by apply (Hno id).
      * intros id' [= <-]. rewrite Hid. reflexivity.
Qed.

(** A backend that cannot be reached: the attempt to create the job is
    the only call. *)
Lemma thrown_run_creates_no_record_witness :
  fst (processInvoiceFile MoreSamples.jobless_backend "key" "invoices.csv") =
  [JobCreate "invoices.csv" CSV "key" PROCESSING 0 0 0].
Proof.
  pose proof (thrown_run_creates_no_record MoreSamples.jobless_backend "key" "invoices.csv")
    as H.
  cbv zeta in H.
  change (snd (processInvoiceFile MoreSamples.jobless_backend "key" "invoices.csv"))
    with (Threw (Some "offline")) in H.
  destruct H as (_ & Hlog & _). apply Hlog. intros id. discriminate.
Defined.

Lemma segment_perm (B B' : Backend) (jobId : string) (i : nat) (batch : list InvoiceData) :
  Permutation (segment B jobId i batch) (segment B' jobId i batch).
Proof.
  unfold segment. constructor. apply Permutation_app_head, Permutation_app_tail.
  apply Permutation_map.
  rewrite settle_order_perm. symmetry. apply settle_order_perm.
Qed.

Lemma segments_perm (B B' : Backend) (jobId : string) (rows : list InvoiceData) (i nb : nat) :
  Permutation (concat (segments B jobId rows i nb)) (concat (segments B' jobId rows i nb)).
Proof.
  revert i. induction nb as [|nb IH]; intros i; cbn [segments concat]; [constructor|].
  apply Permutation_app; [apply segment_perm | apply IH].
Qed.

Lemma count_ext {A : Type} (f g : A -> bool) (xs : list A) :
  (forall x, f x = g x) -> count f xs = count g xs.
Proof.
  intros H. unfold count. f_equal. apply List.filter_ext. exact H.
Qed.

(** X11.  The order in which the backend answers the create calls of a
    batch does not change the outcome.  Two runs over the same rows
    against backends that give the same answer to every create call, but
    that answer the calls of a batch in different orders, issue the same
    calls up to their order and end with a job update carrying the same
    status and the same counts. *)
Theorem outcome_independent_of_settle_order (B B' : Backend)
  (fileKey fileName jobId : string) (rows : list InvoiceData) :
  job_create B = Resolved None (Some jobId) ->
  job_create B' = Resolved None (Some jobId) ->
  truthy jobId = true ->
  download_and_parse B fileKey (fileTypeOf fileName) = inl rows ->
  download_and_parse B' fileKey (fileTypeOf fileName) = inl rows ->
  (forall globalIndex invoice,
     invoice_create B globalIndex invoice = invoice_create B' globalIndex invoice) ->
  exists before before' status counts summary summary',
    processInvoiceFile B fileKey fileName =
      (before ++ [JobUpdate jobId status counts summary], Returned) /\
    processInvoiceFile B' fileKey fileName =
      (before' ++ [JobUpdate jobId status counts summary'], Returned) /\
    Permutation before before'.
Proof.
  intros Hjob Hjob' Hid Hparse Hparse' Hsame.
  unfold processInvoiceFile. rewrite Hjob, Hjob', Hparse, Hparse', Hid. cbn [negb].
  set (log1 := [JobCreate fileName (fileTypeOf fileName) fileKey PROCESSING 0 0 0] ++
               [DownloadAndParse fileKey (fileTypeOf fileName)]).
  destruct (ImporterClaims.import_rows_log B jobId rows log1) as [summary Hlog].
  destruct (ImporterClaims.import_rows_log B' jobId rows log1) as [summary' Hlog'].
  cbv zeta in Hlog, Hlog'. rewrite Hlog, Hlog'. clear Hlog Hlog'.
  assert (Hs : forall p, succeeds B p = succeeds B' p).
  { intros p. unfold succeeds, created. by rewrite Hsame. }
  rewrite (count_ext (succeeds B) (succeeds B') _ Hs).
  rewrite (count_ext (fun p => negb (succeeds B p)) (fun p => negb (succeeds B' p)))
    by (intros p; by rewrite Hs).
  eexists _, _, _, _, summary, summary'.
  split; [reflexivity|]. split; [reflexivity|].
  apply Permutation_app_head, segments_perm.
Qed.

(** Sixty rows, every sixth refused, answered newest first and oldest
    first. *)
Lemma outcome_independent_of_settle_order_witness :
  exists before before' status counts summary summary',
    processInvoiceFile (Samples.backend Samples.sixty_rows Samples.every_sixth)
      "key" "invoices.csv" =
      (before ++ [JobUpdate "job-1" status counts summary], Returned) /\
    processInvoiceFile (MoreSamples.backend_oldest_first Samples.sixty_rows Samples.every_sixth)
      "key" "invoices.csv" =
      (before' ++ [JobUpdate "job-1" status counts summary'], Returned) /\
    Permutation before before'.
Proof.
  apply (outcome_independent_of_settle_order
           (Samples.backend Samples.sixty_rows Samples.every_sixth)
           (MoreSamples.backend_oldest_first Samples.sixty_rows Samples.every_sixth)
           "key" "invoices.csv" "job-1" Samples.sixty_rows
           eq_refl eq_refl eq_refl eq_refl eq_refl).
  intros globalIndex invoice. reflexivity.
Defined.

(** ** The error entries *)

Lemma start_batch_errors (jobId : string) (i index : nat) (batch : list InvoiceData)
  (st : istate) :
  let st' := fst (start_batch jobId i index batch st) in
  length (allErrors st') + failedCount st = length (allErrors st) + failedCount st'.
Proof.
  revert index st. induction batch as [|inv rest IH]; intros index st; cbn [start_batch].
  - reflexivity.
  - destruct (isValid inv); cbn [negb].
    + specialize (IH (S index) (emit (InvoiceCreate (i + index + 1) inv jobId) st)).
      destruct (start_batch jobId i (S index) rest _) as [st' pend].
      cbn [fst emit allErrors failedCount] in *. exact IH.
    + specialize (IH (S index)
        (fail (mkProcessingError (i + index + 1) None (validationErrors inv)) st)).
      cbv zeta in IH. cbn [fst fail allErrors failedCount] in *.
      rewrite length_app in IH. cbn [length] in IH. lia.
Qed.

Lemma settle_errors (B : Backend) (p : nat * InvoiceData) (st : istate) :
  length (allErrors (settle B p st)) + failedCount st =
  length (allErrors st) + failedCount (settle B p st).
Proof.
  destruct p as [g inv]. unfold settle.
  destruct (invoice_create B g inv) as [[errs|] data|thrown];
    cbn [fail succeed emit allErrors failedCount]; rewrite ?length_app; cbn [length]; lia.
Qed.

Lemma settle_all_errors (B : Backend) (n : nat) (pending : list (nat * InvoiceData))
  (st : istate) :
  length (allErrors (settle_all B n pending st)) + failedCount st =
  length (allErrors st) + failedCount (settle_all B n pending st).
Proof.
  revert pending st. induction n as [|n IH]; intros pending st; cbn [settle_all].
  - reflexivity.
  - destruct (pending !! _) as [p|]; [|reflexivity].
    pose proof (IH (delete (pick B (map fst pending) mod length pending) pending)
                  (settle B p st)) as H1.
    pose proof (settle_errors B p st) as H2. lia.
Qed.

Lemma run_batch_errors (B : Backend) (jobId : string) (i : nat)
  (batch : list InvoiceData) (st : istate) :
  length (allErrors (run_batch B jobId i batch st)) + failedCount st =
  length (allErrors st) + failedCount (run_batch B jobId i batch st).
Proof.
  unfold run_batch.
  pose proof (start_batch_errors jobId i 0 batch
                (emit (BatchStarted (i / batchSize + 1) (length batch)) st)) as H1.
  destruct (start_batch jobId i 0 batch _) as [st1 pending].
  cbn [fst emit allErrors failedCount] in *.
  pose proof (settle_all_errors B (length pending) pending st1) as H2. lia.
Qed.

Lemma batch_loop_errors (B : Backend) (jobId : string) (invoiceData : list InvoiceData)
  (i : nat) (st : istate) :
  length (allErrors (batch_loop B jobId invoiceData i st)) + failedCount st =
  length (allErrors st) + failedCount (batch_loop B jobId invoiceData i st).
Proof.
  funelim (batch_loop B jobId invoiceData i st).
  - clear Heqcall.
    pose proof (run_batch_errors B jobId i (slice i (i + batchSize) invoiceData) st). lia.
  - reflexivity.
Qed.

(** X12.  The error message of the final job update is there exactly
    when some row failed.  It then starts with the number of failed rows
    followed by the words [validation errors. Sample:], whether the rows
    failed validation or were refused by the backend; with no failed row
    the update carries no error message. *)
Theorem error_summary_iff_failed_rows (B : Backend) (fileKey fileName jobId : string)
  (rows : list InvoiceData) :
  job_create B = Resolved None (Some jobId) ->
  truthy jobId = true ->
  download_and_parse B fileKey (fileTypeOf fileName) = inl rows ->
  let failed := count (fun p => negb (succeeds B p)) (numbered 0 0 rows) in
  exists status counts summary,
    last (fst (processInvoiceFile B fileKey fileName)) =
      Some (JobUpdate jobId status counts summary) /\
    (summary = None <-> failed = 0) /\
    (forall text, summary = Some text ->
       String.prefix (of_nat failed ++ " validation errors. Sample: ") text = true).
Proof.
  intros Hjob Hid Hparse. cbv zeta.
  unfold processInvoiceFile. rewrite Hjob, Hparse, Hid. cbn [negb fst].
  unfold import_rows, update_job. cbn [emit log].
  set (log1 := [JobCreate fileName (fileTypeOf fileName) fileKey PROCESSING 0 0 0] ++
               [DownloadAndParse fileKey (fileTypeOf fileName)]).
  set (st := batch_loop B jobId rows 0 (mkIstate 0 0 [] log1)).
  pose proof (batch_loop_errors B jobId rows 0 (mkIstate 0 0 [] log1)) as He.
  destruct (batch_loop_spec B jobId rows 0 (mkIstate 0 0 [] log1)) as (_ & _ & Hf).
  fold st in He, Hf. cbn [allErrors failedCount length Nat.add] in He, Hf.
  change (drop 0 rows) with rows in Hf.
  rewrite Nat.add_0_r in He. rewrite <- Hf, <- He.
  eexists _, _, _. split; [apply last_snoc|].
  unfold errorSummary. destruct (allErrors st) as [|e es]; cbn [length Nat.ltb Nat.leb].
  - split; [split; reflexivity | discriminate].
  - split; [split; [discriminate | lia]|].
    intros text [= <-]. apply prefix_append_assoc.
Qed.

(** Ten of the sixty rows are refused. *)
Lemma error_summary_iff_failed_rows_witness :
  exists status counts summary,
    last (fst (processInvoiceFile (Samples.backend Samples.sixty_rows Samples.every_sixth)
                 "key" "invoices.csv")) =
      Some (JobUpdate "job-1" status counts summary) /\
    (summary = None <->
     count (fun p => negb (succeeds (Samples.backend Samples.sixty_rows Samples.every_sixth) p))
       (numbered 0 0 Samples.sixty_rows) = 0).
Proof.
  destruct (error_summary_iff_failed_rows
              (Samples.backend Samples.sixty_rows Samples.every_sixth)
              "key" "invoices.csv" "job-1" Samples.sixty_rows eq_refl eq_refl eq_refl)
    as (status & counts & summary & Hlast & Hnone & _).
  exists status, counts, summary. split; [exact Hlast | exact Hnone].
Defined.

Lemma start_batch_entries (jobId : string) (i index : nat) (batch : list InvoiceData)
  (st : istate) :
  allErrors (fst (start_batch jobId i index batch st)) =
  allErrors st ++ map validation_entry (List.filter invalid_row (numbered i index batch)).
Proof.
  revert index st. induction batch as [|inv rest IH]; intros index st;
    cbn [start_batch numbered List.filter].
  - by rewrite app_nil_r.
  - change (invalid_row (i + index + 1, inv)) with (negb (isValid inv)).
    destruct (isValid inv); cbn [negb].
    + specialize (IH (S index) (emit (InvoiceCreate (i + index + 1) inv jobId) st)).
      destruct (start_batch jobId i (S index) rest _) as [st' pend].
      cbn [fst emit allErrors] in *. exact IH.
    + rewrite IH. cbn [fail allErrors map]. rewrite <- app_assoc. reflexivity.
Qed.

Lemma settle_all_entries (B : Backend) (n : nat) (pending : list (nat * InvoiceData))
  (st : istate) :
  (forall p, created B p = true) ->
  allErrors (settle_all B n pending st) = allErrors st.
Proof.
  intros Hall. revert pending st. induction n as [|n IH]; intros pending st;
    cbn [settle_all]; [reflexivity|].
  destruct (pending !! _) as [p|]; [|reflexivity].
  rewrite IH. specialize (Hall p). destruct p as [g inv].
  unfold created in Hall. unfold settle. cbn [fst snd] in Hall.
  destruct (invoice_create B g inv) as [[errs|] data|thrown]; try discriminate Hall.
  reflexivity.
Qed.

Lemma batch_loop_entries (B : Backend) (jobId : string) (invoiceData : list InvoiceData)
  (i : nat) (st : istate) :
  (forall p, created B p = true) ->
  allErrors (batch_loop B jobId invoiceData i st) =
  allErrors st ++
  map validation_entry (List.filter invalid_row (numbered i 0 (drop i invoiceData))).
Proof.
  intros Hall. funelim (batch_loop B jobId invoiceData i st).
  - clear Heqcall. rewrite H by assumption.
    assert (Hrun : allErrors (run_batch B jobId i (slice i (i + batchSize) invoiceData) st) =
                   allErrors st ++
                   map validation_entry
                     (List.filter invalid_row
                        (numbered i 0 (slice i (i + batchSize) invoiceData)))).
    { unfold run_batch.
      pose proof (start_batch_entries jobId i 0 (slice i (i + batchSize) invoiceData)
                    (emit (BatchStarted (i / batchSize + 1)
                             (length (slice i (i + batchSize) invoiceData))) st)) as H1.
      destruct (start_batch jobId i 0 _ _) as [st1 pending].
      cbn [fst emit allErrors] in *. by rewrite settle_all_entries. }
    rewrite Hrun, (slice_numbered i invoiceData), List.filter_app, map_app, <- app_assoc.
    reflexivity.
  - clear Heqcall. rewrite drop_ge by lia. by rewrite app_nil_r.
Qed.

Lemma validate_rows_lookup (day_rollover : bool) (index k : nat) (rawData : list CsvRow)
  (row : CsvRow) :
  rawData !! k = Some row ->
  validate_rows day_rollover index rawData !! k =
  Some (validateInvoiceData day_rollover row (index + k + 2)).
Proof.
  revert index k. induction rawData as [|r rest IH]; intros index k; [discriminate|].
  destruct k as [|k]; cbn [validate_rows].
  - intros [= ->]. by rewrite Nat.add_0_r.
  - intros Hk.
    change (validate_rows day_rollover (S index) rest !! k =
            Some (validateInvoiceData day_rollover row (index + S k + 2))).
    change (rest !! k = Some row) in Hk.
    rewrite (IH (S index) k Hk).
    replace (S index + k + 2) with (index + S k + 2) by lia. reflexivity.
Qed.

Lemma validate_rows_length (day_rollover : bool) (index : nat) (rawData : list CsvRow) :
  length (validate_rows day_rollover index rawData) = length rawData.
Proof. revert index. induction rawData; intros; cbn [validate_rows length]; auto. Qed.

Lemma filter_first {A : Type} (f : A -> bool) (xs : list A) (k : nat) (x : A) :
  xs !! k = Some x -> f x = true ->
  (forall j y, j < k -> xs !! j = Some y -> f y = false) ->
  exists rest, List.filter f xs = x :: rest.
Proof.
  revert k. induction xs as [|a xs IH]; intros k Hk Hx Hbefore; [discriminate|].
  destruct k as [|k].
  - injection Hk as ->. cbn [List.filter]. rewrite Hx. by eexists.
  - cbn [List.filter]. rewrite (Hbefore 0 a) by (reflexivity || lia).
    apply (IH k Hk Hx). intros j y Hj Hy. apply (Hbefore (S j) y); [lia | exact Hy].
Qed.

Lemma prefix_join_head (sep x : string) (rest : list string) :
  exists tail, join sep (x :: rest) = (x ++ tail)%string.
Proof.
  destruct rest as [|y rest]; cbn [join].
  - exists EmptyString. by rewrite append_nil_r.
  - eexists. reflexivity.
Qed.

(** X13.  When no create call is refused, the error message of the
    final job update names the first invalid row of the file.  That row is
    named twice, by two different numbers: first by its position among the
    data rows counted from 1, which is the number the importer gives it,
    and then, inside the quoted validation message, by that number plus
    one, which is the number the validator was given (it counts the header
    line too). *)
Theorem error_summary_names_first_invalid_row (day_rollover : bool) (B : Backend)
  (fileKey fileName jobId : string) (rawData : list CsvRow) (k : nat) (row : CsvRow) :
  job_create B = Resolved None (Some jobId) ->
  truthy jobId = true ->
  download_and_parse B fileKey (fileTypeOf fileName) =
    inl (validate_rows day_rollover 0 rawData) ->
  (forall p, created B p = true) ->
  rawData !! k = Some row ->
  isValid (validateInvoiceData day_rollover row (k + 2)) = false ->
  (forall j earlier, j < k -> rawData !! j = Some earlier ->
     isValid (validateInvoiceData day_rollover earlier (j + 2)) = true) ->
  let failed := count invalid_row (numbered 0 0 (validate_rows day_rollover 0 rawData)) in
  exists status counts rest,
    last (fst (processInvoiceFile B fileKey fileName)) =
      Some (JobUpdate jobId status counts
              (Some (of_nat failed ++ " validation errors. Sample: Row " ++ of_nat (k + 1) ++
                     ": Row " ++ of_nat (k + 2) ++ ": " ++ rest)%string)).
Proof.
  intros Hjob Hid Hparse Hall Hk Hbad Hbefore. cbv zeta.
  unfold processInvoiceFile. rewrite Hjob, Hparse, Hid. cbn [negb fst].
  unfold import_rows, update_job. cbn [emit log].
  set (rows := validate_rows day_rollover 0 rawData).
  set (log1 := [JobCreate fileName (fileTypeOf fileName) fileKey PROCESSING 0 0 0] ++
               [DownloadAndParse fileKey (fileTypeOf fileName)]).
  rewrite (batch_loop_entries B jobId rows 0 (mkIstate 0 0 [] log1) Hall).
  cbn [allErrors app]. change (drop 0 rows) with rows.
  set (invoice := validateInvoiceData day_rollover row (k + 2)) in *.
  assert (Hrow : numbered 0 0 rows !! k = Some (k + 1, invoice)).
  { apply numbered_lookup. cbn [fst snd]. split; [lia|].
    subst rows invoice. by rewrite (validate_rows_lookup _ 0 k rawData row Hk). }
  destruct (filter_first invalid_row (numbered 0 0 rows) k (k + 1, invoice) Hrow)
    as [others Hfilter].
  { unfold invalid_row. cbn [snd]. by rewrite Hbad. }
  { intros j y Hj Hy. apply numbered_lookup in Hy as [_ Hy].
    assert (Hlt : j < length rawData).
    { apply lookup_lt_Some in Hk. lia. }
    destruct (lookup_lt_is_Some_2 rawData j Hlt) as [earlier He].
    subst rows. rewrite (validate_rows_lookup _ 0 j rawData earlier He) in Hy.
    injection Hy as Hy. unfold invalid_row. rewrite <- Hy.
    rewrite (Hbefore j earlier Hj He). reflexivity. }
  unfold count. rewrite Hfilter. cbn [map]. unfold errorSummary.
  cbn [length Nat.ltb Nat.leb]. rewrite length_map.
  unfold slice. cbn [drop take map Nat.sub].
  destruct (prefix_join_head "; "
              ("Row " ++ of_nat (Importer.row (validation_entry (k + 1, invoice))) ++ ": " ++
               first_error (validation_entry (k + 1, invoice)))
              (map (fun e => "Row " ++ of_nat (Importer.row e) ++ ": " ++ first_error e)%string
                 (take 2 (map validation_entry others)))) as [tail ->].
  unfold validation_entry at 1 2. cbn [Importer.row first_error errors fst snd].
  pose proof (validationErrors_prefixed day_rollover row (k + 2)) as Hpre.
  fold invoice in Hpre.
  destruct (validationErrors invoice) as [|m ms] eqn:Herrs.
  { exfalso. subst invoice. rewrite validationErrors_closed in Herrs.
    apply isValid_closed in Herrs. congruence. }
  inversion Hpre as [|? ? [rest' ->] _]; subst. unfold row_prefix.
  eexists _, _, (rest' ++ tail)%string. rewrite last_snoc. do 3 f_equal.
  cbn [first_error errors]. rewrite !append_assoc. reflexivity.
Qed.

(** The three-row sample file, whose second data row has a currency
    that is not on the list: the message names row 2 and quotes row 3. *)
Lemma error_summary_names_first_invalid_row_witness :
  exists status counts rest,
    last (fst (processInvoiceFile
                 (Samples.backend (validate_rows false 0 MoreSamples.three_rows)
                    (fun _ => false))
                 "key" "invoices.csv")) =
      Some (JobUpdate "job-1" status counts
              (Some (of_nat (count invalid_row
                               (numbered 0 0 (validate_rows false 0 MoreSamples.three_rows))) ++
                     " validation errors. Sample: Row " ++ of_nat (1 + 1) ++
                     ": Row " ++ of_nat (1 + 2) ++ ": " ++ rest)%string)).
Proof.
  assert (Hfirst : MoreSamples.three_rows !! 0 = Some MoreSamples.first_row).
  { apply OptionFacts.some_default. vm_compute. reflexivity. }
  assert (Hsecond : MoreSamples.three_rows !! 1 = Some MoreSamples.second_row).
  { apply OptionFacts.some_default. vm_compute. reflexivity. }
  apply (error_summary_names_first_invalid_row false
           (Samples.backend (validate_rows false 0 MoreSamples.three_rows) (fun _ => false))
           "key" "invoices.csv" "job-1" MoreSamples.three_rows 1 MoreSamples.second_row
           eq_refl eq_refl eq_refl).
  - intros p. reflexivity.
  - exact Hsecond.
  - vm_compute. reflexivity.
  - intros j earlier Hj Hearlier. destruct j as [|j]; [|lia].
    assert (earlier = MoreSamples.first_row) by congruence. subst earlier.
    vm_compute. reflexivity.
Defined.

End ImporterMore.

(* ===================================================================== *)
(** * Cascade deletion: when nothing is deleted *)
(* ===================================================================== *)

Module CascadeMore.
Import JS Cascade CascadeView CascadeFacts DeletionView.

(** X14.  Nothing is deleted unless the user confirms and the jobs of
    the file can be listed.  Without the confirmation no call is issued at
    all.  When the listing of the jobs throws or answers with errors, the
    listing is the only call, and the handler ends with an error: no
    record, no job and no stored object is touched. *)
Theorem nothing_deleted_without_job_listing (B : Backend) (filePath : string) :
  let r := handleDeleteFile B filePath in
  (confirm B = false -> issued r = [] /\ error r = None) /\
  ((forall data, list_jobs B filePath <> Resolved None data) ->
   forallb (fun e => negb (is_deletion e)) (issued r) = true /\
   (confirm B = true -> issued r = [ListJobs filePath] /\ error r <> None)).
Proof.
  cbv zeta. unfold handleDeleteFile. split.
  - intros ->. split; reflexivity.
  - intros Hno. destruct (confirm B); cbn [negb]; [|split; [reflexivity | discriminate]].
    unfold delete_steps, bind, log_call, throw_error, throw. cbn [app].
    destruct (list_jobs B filePath) as [[errs|] data|thrown] eqn:Hjobs; cbn [issued error].
    + split; [reflexivity|]. intros _. split; [reflexivity | discriminate].
    + exfalso. by apply (Hno data).
    + split; [reflexivity|]. intros _. split; [reflexivity | discriminate].
Qed.

(** A store whose job listing throws: the listing is the only call. *)
Lemma nothing_deleted_without_job_listing_witness :
  issued (handleDeleteFile MoreSamples.unlisted_store "f") = [ListJobs "f"] /\
  error (handleDeleteFile MoreSamples.unlisted_store "f") <> None.
Proof.
  apply (proj2 (nothing_deleted_without_job_listing MoreSamples.unlisted_store "f")).
  - intros data. discriminate.
  - reflexivity.
Defined.

End CascadeMore.

(* ===================================================================== *)
(** * Attaching a PDF *)
(* ===================================================================== *)

Module PdfUploadFacts.
Import JS Pdf PdfUpload StringFacts.

Lemma upload_request_id (invoiceId resultPath fullS3Path fileName uploadedAt : string) :
  string_field (upload_request invoiceId resultPath fullS3Path fileName uploadedAt) "id"
  = invoiceId.
Proof. reflexivity. Qed.

Lemma upload_request_other (invoiceId resultPath fullS3Path fileName uploadedAt field : string) :
  ~ In field pdf_fields -> field <> "id" ->
  upload_request invoiceId resultPath fullS3Path fileName uploadedAt !! field = None.
Proof.
  intros Hnot Hid. unfold upload_request.
  rewrite lookup_insert_ne by congruence.
  rewrite !lookup_insert_ne; [apply lookup_empty | | | |];
    intros <-; apply Hnot; simpl; tauto.
Qed.

Lemma bucket_at_nonempty (s bucket : string) :
  bucket_at s = Some bucket -> bucket <> EmptyString.
Proof.
  unfold bucket_at. destruct (String.prefix "https://" s); [|discriminate].
  destruct (span_no_dot (skip 8 s)) as [run rest].
  destruct run; cbn [truthy andb]; [discriminate|].
  destruct (String.prefix ".s3." rest); [|discriminate].
  intros [= <-]. discriminate.
Qed.

Lemma bucket_match_nonempty (urlString bucket : string) :
  bucket_match urlString = Some bucket -> bucket <> EmptyString.
Proof.
  induction urlString as [|c r IH]; cbn [bucket_match].
  - destruct (bucket_at EmptyString) eqn:Hb; [|discriminate].
    intros [= <-]. by apply bucket_at_nonempty in Hb.
  - destruct (bucket_at (String c r)) eqn:Hb; [|exact IH].
    intros [= <-]. by apply bucket_at_nonempty in Hb.
Qed.

(** The full path when the configuration names no bucket. *)
Lemma looked_up_path_shape (W : World) (resultPath : string) :
  exists bucket,
    bucket <> EmptyString /\
    fst (let placeholder :=
           ("AMPLIFY_BUCKET_" ++ of_nat (now_placeholder W) ++ "/" ++ resultPath)%string in
         match get_url W resultPath with
         | Some urlString =>
             match bucket_match urlString with
             | Some extractedBucketName =>
                 ((extractedBucketName ++ "/" ++ resultPath)%string,
                  [GetUrl resultPath; CacheBucketName extractedBucketName])
             | None => (placeholder, [GetUrl resultPath])
             end
         | None => (placeholder, [GetUrl resultPath])
         end) = (bucket ++ "/" ++ resultPath)%string.
Proof.
  cbv zeta.
  assert (Hp : exists bucket, bucket <> EmptyString /\
            ("AMPLIFY_BUCKET_" ++ of_nat (now_placeholder W) ++ "/" ++ resultPath)%string =
            (bucket ++ "/" ++ resultPath)%string).
  { exists ("AMPLIFY_BUCKET_" ++ of_nat (now_placeholder W))%string.
    split; [discriminate|]. by rewrite append_assoc. }
  destruct (get_url W resultPath) as [url|]; [|exact Hp].
  destruct (bucket_match url) as [b|] eqn:Hb; [|exact Hp].
  exists b. split; [by apply bucket_match_nonempty in Hb | reflexivity].
Qed.

(** The bucket part of the full path is never empty, and the key follows
    it after a slash. *)
Lemma full_path_shape (W : World) (resultPath : string) :
  exists bucket,
    bucket <> EmptyString /\
    fst (full_path W resultPath) = (bucket ++ "/" ++ resultPath)%string.
Proof.
  unfold full_path.
  destruct (truthy (getS3BucketName (config W))) eqn:Ht; cbn [andb];
    [|apply looked_up_path_shape].
  destruct (String.eqb_spec (getS3BucketName (config W)) "DYNAMIC_EXTRACTION") as [He|Hne];
    cbn [negb]; [apply looked_up_path_shape|].
  unfold constructFullS3Path. cbn [truthy_opt default]. unfold Datatypes.id.
  rewrite Ht. destruct (String.eqb_spec (getS3BucketName (config W)) "DYNAMIC_EXTRACTION");
    [contradiction|]. cbn [andb negb fst].
  exists (getS3BucketName (config W)). split; [|reflexivity].
  intros E. rewrite E in Ht. discriminate Ht.
Qed.

Lemma apply_update_lookup_ne (request : Doc) (table : Table) (key : string) :
  key <> string_field request "id" -> apply_update request table !! key = table !! key.
Proof.
  intros Hne. unfold apply_update. rewrite lookup_alter_ne by congruence. reflexivity.
Qed.

Lemma apply_update_lookup (request : Doc) (table : Table) :
  apply_update request table !! string_field request "id" =
  (fun doc => request ∪ doc) <$> table !! string_field request "id".
Proof. unfold apply_update. by rewrite lookup_alter_eq. Qed.

(** The run of the handler once the file is accepted and the record
    found. *)
Lemma handlePdfUpload_cases (W : World) (invoices : list Doc) (invoiceId : string)
  (file : File) (table : Table) :
  let run := handlePdfUpload W invoices invoiceId file table in
  (fst run = table /\ ~ In RefreshInvoices (snd run)) \/
  (exists resultPath,
     upload_data W (uploadPath (identityId W) invoiceId (now W) (name file)) = inl resultPath /\
     fst run =
       apply_update
         (upload_request invoiceId resultPath (fst (full_path W resultPath)) (name file)
            (uploadedAt W)) table /\
     In RefreshInvoices (snd run)).
Proof.
  cbv zeta. unfold handlePdfUpload.
  destruct (negb (contains "pdf" (type file))).
  { left. split; [reflexivity|]. intros [H|[]]. discriminate H. }
  destruct (List.find (has_id invoiceId) invoices).
  2:{ left. split; [reflexivity|]. intros [H|[]]. discriminate H. }
  destruct (upload_data W _) as [resultPath|thrown] eqn:Hup.
  2:{ left. split; [reflexivity|]. intros [H|[H|[]]]; discriminate H. }
  destruct (full_path W resultPath) as [fullS3Path lookups] eqn:Hfull.
  assert (Hlookups : ~ In RefreshInvoices lookups).
  { revert Hfull. unfold full_path.
    destruct (truthy (getS3BucketName (config W)) &&
              negb (String.eqb (getS3BucketName (config W)) "DYNAMIC_EXTRACTION")).
    - intros [= _ <-]. intros [].
    - destruct (get_url W resultPath) as [url|];
        [destruct (bucket_match url) as [b|]|]; intros [= _ <-];
        cbn [In]; intros H; repeat destruct H as [H|H]; try discriminate H; exact H. }
  assert (Hno : forall e, e <> RefreshInvoices ->
            ~ In RefreshInvoices
                ((UploadData (uploadPath (identityId W) invoiceId (now W) (name file)) (name file)
                  :: lookups ++ [InvoiceUpdate (upload_request invoiceId resultPath fullS3Path
                                                  (name file) (uploadedAt W))]) ++ [e])).
  { intros e He Hin. apply in_app_iff in Hin as [Hin|[Hin|[]]]; [|congruence].
    destruct Hin as [Hin|Hin]; [discriminate Hin|].
    apply in_app_iff in Hin as [Hin|[Hin|[]]]; [contradiction | discriminate Hin]. }
  destruct (invoice_update W _) as [[errors|] [|]|thrown].
  - left. split; [reflexivity | apply Hno; discriminate].
  - left. split; [reflexivity | apply Hno; discriminate].
  - right. exists resultPath. rewrite Hfull. cbn [fst snd].
    split; [reflexivity|]. split; [reflexivity|].
    apply in_app_iff. right. left. reflexivity.
  - left. split; [reflexivity | apply Hno; discriminate].
  - left. split; [reflexivity | apply Hno; discriminate].
Qed.

End PdfUploadFacts.

Module PdfUploadMore.
Import JS Pdf PdfUpload StringFacts PdfUploadFacts.



(** X16.  After a run that ends with the refresh, the record holds the
    attachment: its key is the path the object store answered for the
    upload to the user's folder of that invoice, its file name is the
    name of the chosen file as it was (not the sanitized one), its upload
    time is the time of the update, and its full path is the key behind a
    bucket part that is never empty and a slash. *)
Theorem pdf_upload_stores_attachment (W : World) (invoices : list Doc) (invoiceId : string)
  (file : File) (table : Table) :
  let table' := fst (handlePdfUpload W invoices invoiceId file table) in
  let events := snd (handlePdfUpload W invoices invoiceId file table) in
  In RefreshInvoices events ->
  exists resultPath bucket,
    upload_data W (uploadPath (identityId W) invoiceId (now W) (name file)) = inl resultPath /\
    bucket <> EmptyString /\
    forall doc', table' !! invoiceId = Some doc' ->
      doc' !! "id" = Some (Str invoiceId) /\
      doc' !! "pdfS3Key" = Some (Str resultPath) /\
      doc' !! "pdfS3FullPath" = Some (Str (bucket ++ "/" ++ resultPath)) /\
      doc' !! "pdfFileName" = Some (Str (name file)) /\
      doc' !! "pdfUploadedAt" = Some (Str (uploadedAt W)).
Proof.
  cbv zeta. intros Hin.
  destruct (handlePdfUpload_cases W invoices invoiceId file table)
    as [[_ Hno]|(p & Hup & -> & _)]; [contradiction|].
  destruct (full_path_shape W p) as (bucket & Hb & Hfull).
  exists p, bucket. split; [exact Hup|]. split; [exact Hb|].
  intros doc' Hdoc'.
  pose proof (apply_update_lookup
                (upload_request invoiceId p (fst (full_path W p)) (name file) (uploadedAt W))
                table) as H.
  rewrite upload_request_id in H. rewrite H in Hdoc'.
  destruct (table !! invoiceId) as [doc|]; [|discriminate].
  injection Hdoc' as <-. rewrite <- Hfull.
  split; [|split; [|split; [|split]]]; apply lookup_union_Some_l; reflexivity.
Qed.

(** The sample upload: the record holds the name of the file as it was,
    and a key whose last part is the sanitized name. *)
Lemma pdf_upload_stores_attachment_witness :
  let table' :=
    fst (handlePdfUpload MoreSamples.upload_world [Samples.stored_invoice] "r1"
           MoreSamples.pdf_file Samples.one_record_table) in
  let doc' := default ∅ (table' !! "r1") in
  doc' !! "pdfFileName" = Some (Str "Invoice #1 (final).pdf") /\
  doc' !! "pdfS3Key" =
    Some (Str "user-files/eu-west-1:abc/invoices/r1/1700-Invoice__1__final_.pdf").
Proof.
  cbv zeta.
  destruct (pdf_upload_stores_attachment MoreSamples.upload_world [Samples.stored_invoice]
              "r1" MoreSamples.pdf_file Samples.one_record_table)
    as (resultPath & bucket & Hup & _ & Hdoc).
  - vm_compute. do 4 right. left. reflexivity.
  - vm_compute in Hup. injection Hup as <-.
    refine (let H := Hdoc _ _ in conj (proj1 (proj2 (proj2 (proj2 H)))) (proj1 (proj2 H))).
    apply OptionFacts.some_default. vm_compute. reflexivity.
Defined.

(** X17.  Attaching a PDF and detaching it again leaves the record as
    it was, but for its four PDF fields, which are null.  When the upload
    ends with the refresh, and the user then confirms the deletion of the
    attachment of the updated record and the update goes through, the
    record holds null in its four PDF fields and, in every other field,
    what it held before the upload; every other record of the table is as
    it was before the upload. *)
Theorem pdf_upload_then_delete (W : PdfUpload.World) (D : Pdf.World)
  (invoices : list Doc) (invoiceId : string) (file : File) (table : Table)
  (doc doc1 : Doc) :
  table !! invoiceId = Some doc ->
  doc !! "id" = Some (Str invoiceId) ->
  truthy invoiceId = true ->
  In RefreshInvoices (snd (handlePdfUpload W invoices invoiceId file table)) ->
  fst (handlePdfUpload W invoices invoiceId file table) !! invoiceId = Some doc1 ->
  truthy_field doc1 "pdfS3Key" = true ->
  Pdf.confirm D = true ->
  Pdf.invoice_update D (delete_request doc1) = Updated ->
  let table2 :=
    fst (handlePdfDelete D doc1 (fst (handlePdfUpload W invoices invoiceId file table))) in
  (exists doc2,
     table2 !! invoiceId = Some doc2 /\
     (forall field, In field pdf_fields -> doc2 !! field = Some Null) /\
     (forall field, ~ In field pdf_fields -> doc2 !! field = doc !! field)) /\
  (forall key, key <> invoiceId -> table2 !! key = table !! key).
Proof.
  intros Hdoc Hid Htruthy Hin Hdoc1 Hkey Hconfirm Hupdate. cbv zeta.
  destruct (handlePdfUpload_cases W invoices invoiceId file table)
    as [[_ Hno]|(p & _ & Htable & _)]; [contradiction|].
  rewrite Htable in *. clear Htable Hin.
  set (request := upload_request invoiceId p (fst (full_path W p)) (name file)
                    (uploadedAt W)) in *.
  assert (H1 : apply_update request table !! invoiceId =
               (fun d => request ∪ d) <$> table !! invoiceId).
  { pose proof (apply_update_lookup request table) as H.
    replace (string_field request "id") with invoiceId in H
      by (symmetry; apply upload_request_id).
    exact H. }
  rewrite H1, Hdoc in Hdoc1. cbn [fmap option_fmap option_map] in Hdoc1.
  injection Hdoc1 as Hdoc1.
  assert (Hid1 : doc1 !! "id" = Some (Str invoiceId)).
  { rewrite <- Hdoc1. apply lookup_union_Some_l. reflexivity. }
  assert (Hsf : string_field doc1 "id" = invoiceId).
  { unfold string_field. by rewrite Hid1. }
  assert (Htf : truthy_field doc1 "id" = true).
  { unfold truthy_field. by rewrite Hid1. }
  unfold handlePdfDelete. rewrite Hkey, Htf.
  cbn [negb orb]. rewrite Hconfirm, Hupdate. cbn [negb fst].
  pose proof (apply_update_lookup (delete_request doc1) (apply_update request table)) as H2.
  replace (string_field (delete_request doc1) "id") with invoiceId in H2
    by (rewrite PdfClaims.delete_request_id; symmetry; exact Hsf).
  split.
  - rewrite H2, H1, Hdoc. cbn [fmap option_fmap option_map].
    eexists. split; [reflexivity|]. split.
    + intros field Hfield. apply lookup_union_Some_l.
      by apply PdfClaims.delete_request_pdf.
    + intros field Hfield.
      destruct (String.eqb_spec field "id") as [->|Hne].
      * rewrite Hid. apply lookup_union_Some_l.
        unfold delete_request. rewrite lookup_insert_eq, Hsf. reflexivity.
      * rewrite lookup_union_r by (by apply PdfClaims.delete_request_other).
        apply lookup_union_r. by apply upload_request_other.
  - intros key Hne.
    rewrite apply_update_lookup_ne
      by (rewrite PdfClaims.delete_request_id, Hsf; exact Hne).
    apply apply_update_lookup_ne. unfold request. by rewrite upload_request_id.
Qed.

(** The sample upload, followed by a confirmed detach: the key is null
    again and the amount is what it was. *)
Lemma pdf_upload_then_delete_witness :
  let table1 :=
    fst (handlePdfUpload MoreSamples.upload_world [Samples.stored_invoice] "r1"
           MoreSamples.pdf_file Samples.one_record_table) in
  let doc1 := default ∅ (table1 !! "r1") in
  exists doc2,
    fst (handlePdfDelete Samples.willing doc1 table1) !! "r1" = Some doc2 /\
    doc2 !! "pdfS3Key" = Some Null /\
    doc2 !! "amount" = Samples.stored_invoice !! "amount".
Proof.
  cbv zeta.
  destruct (pdf_upload_then_delete MoreSamples.upload_world Samples.willing
              [Samples.stored_invoice] "r1" MoreSamples.pdf_file Samples.one_record_table
              Samples.stored_invoice
              (default ∅ (fst (handlePdfUpload MoreSamples.upload_world
                                 [Samples.stored_invoice] "r1" MoreSamples.pdf_file
                                 Samples.one_record_table) !! "r1")))
    as [(doc2 & Hdoc2 & Hnull & Hother) _].
  - reflexivity.
  - reflexivity.
  - reflexivity.
  - vm_compute. do 4 right. left. reflexivity.
  - apply OptionFacts.some_default. vm_compute. reflexivity.
  - vm_compute. reflexivity.
  - reflexivity.
  - reflexivity.
  - exists doc2. split; [exact Hdoc2|]. split.
    + apply Hnull. left. reflexivity.
    + apply Hother. intros [H|[H|[H|[H|[]]]]]; discriminate H.
Defined.

Lemma sanitized_char_kept (c : ascii) :
  PdfUploadView.kept_char (if safe_char c then c else chr 95) = true.
Proof.
  unfold PdfUploadView.kept_char. destruct (safe_char c) eqn:Hc.
  - by rewrite Hc.
  - by rewrite orb_true_r.
Qed.

Lemma sanitized_char_fixed (c : ascii) :
  let d := if safe_char c then c else chr 95 in
  (if safe_char d then d else chr 95) = d.
Proof.
  cbv zeta. destruct (safe_char c) eqn:Hc; [by rewrite Hc | reflexivity].
Qed.

(** X18.  The sanitized file name, which ends the key of an uploaded
    PDF, has as many characters as the name of the file; each of them is
    a letter, a digit, a dot, a dash or an underscore, so that it holds no
    slash; sanitizing it again changes nothing; and a name made of
    letters, digits, dots and dashes only is kept as it is. *)
Theorem sanitizedFileName_safe (fileName : string) :
  String.length (sanitizedFileName fileName) = String.length fileName /\
  forallb PdfUploadView.kept_char (list_ascii_of_string (sanitizedFileName fileName)) = true /\
  ~ In (chr 47) (list_ascii_of_string (sanitizedFileName fileName)) /\
  sanitizedFileName (sanitizedFileName fileName) = sanitizedFileName fileName /\
  (forallb safe_char (list_ascii_of_string fileName) = true ->
   sanitizedFileName fileName = fileName).
Proof.
  induction fileName as [|c r (IH1 & IH2 & IH3 & IH4 & IH5)].
  - repeat split; try reflexivity. intros [].
  - cbn [sanitizedFileName String.length list_ascii_of_string forallb In].
    rewrite IH1, IH2, IH4, sanitized_char_kept, sanitized_char_fixed.
    split; [reflexivity|]. split; [reflexivity|]. split; [|split; [reflexivity|]].
    + intros [H|H]; [|by apply IH3].
      pose proof (sanitized_char_kept c) as Hk. rewrite H in Hk. discriminate Hk.
    + intros H. apply andb_true_iff in H as [Hc Hr]. by rewrite Hc, (IH5 Hr).
Qed.

(** A name of letters, digits, a dot and a dash is kept. *)
Lemma sanitizedFileName_safe_witness : sanitizedFileName "scan-01.pdf" = "scan-01.pdf".
Proof.
  apply (proj2 (proj2 (proj2 (proj2 (sanitizedFileName_safe "scan-01.pdf"))))).
  reflexivity.
Defined.

Lemma span_no_dot_app (bucket rest : string) :
  PdfUploadView.no_dot bucket = true ->
  span_no_dot (bucket ++ String (chr 46) rest) = (bucket, String (chr 46) rest).
Proof.
  unfold PdfUploadView.no_dot. induction bucket as [|c b IH]; intros H.
  - reflexivity.
  - cbn [list_ascii_of_string forallb] in H. apply andb_true_iff in H as [Hc Hb].
    rewrite append_cons. cbn [span_no_dot].
    apply negb_true_iff in Hc. rewrite Hc, (IH Hb). reflexivity.
Qed.

(** X19.  The bucket is read off a signed URL of the virtual-hosted
    form: for a URL that starts with [https://], then a bucket name that
    is not empty and holds no dot, then [.s3.], the pattern finds that
    bucket name, whatever follows.  When no bucket name is configured or
    cached, the handler then stores the bucket name, a slash and the key
    as the full path, after asking for the URL and caching the name. *)
Theorem bucket_read_off_signed_url (W : World) (resultPath bucket rest : string) :
  bucket <> EmptyString ->
  PdfUploadView.no_dot bucket = true ->
  bucket_match ("https://" ++ bucket ++ ".s3." ++ rest) = Some bucket /\
  (getS3BucketName (config W) = "DYNAMIC_EXTRACTION" ->
   get_url W resultPath = Some ("https://" ++ bucket ++ ".s3." ++ rest)%string ->
   full_path W resultPath =
     ((bucket ++ "/" ++ resultPath)%string, [GetUrl resultPath; CacheBucketName bucket])).
Proof.
  intros Hne Hdot.
  assert (Hat : bucket_at ("https://" ++ bucket ++ ".s3." ++ rest) = Some bucket).
  { unfold bucket_at. rewrite prefix_append.
    change (skip 8 ("https://" ++ bucket ++ ".s3." ++ rest))
      with (bucket ++ String (chr 46) ("s3." ++ rest))%string.
    rewrite (span_no_dot_app _ _ Hdot).
    destruct bucket; [congruence|]. cbn [truthy andb].
    change (String (chr 46) ("s3." ++ rest)) with (".s3." ++ rest)%string.
    by rewrite prefix_append. }
  assert (Hmatch : bucket_match ("https://" ++ bucket ++ ".s3." ++ rest) = Some bucket).
  { change ("https://" ++ bucket ++ ".s3." ++ rest)%string
      with (String "h" ("ttps://" ++ bucket ++ ".s3." ++ rest))%string in *.
    cbn [bucket_match]. by rewrite Hat. }
  split; [exact Hmatch|].
  intros Hconfig Hurl. unfold full_path. rewrite Hconfig, Hurl, Hmatch. reflexivity.
Qed.

(** The sample store signs URLs of that form for the bucket
    [my-bucket]. *)
Lemma bucket_read_off_signed_url_witness :
  full_path MoreSamples.upload_world "k.pdf" =
  ("my-bucket/k.pdf", [GetUrl "k.pdf"; CacheBucketName "my-bucket"]).
Proof.
  apply (proj2 (bucket_read_off_signed_url MoreSamples.upload_world "k.pdf" "my-bucket"
                  "eu-west-1.amazonaws.com/k.pdf" ltac:(discriminate) eq_refl));
    reflexivity.
Defined.

End PdfUploadMore.

(* ===================================================================== *)
(** * The invoice table and the file names *)
(* ===================================================================== *)

Module ViewerMore.
Import JS Viewer StringFacts.

Lemma pages_concat {A : Type} (xs : list A) (nb : nat) :
  concat (map (paginatedInvoices xs) (seq 1 nb)) = take (nb * itemsPerPage) xs.
Proof.
  induction nb as [|nb IH]; [reflexivity|].
  rewrite seq_S, map_app, concat_app, IH. cbn [map concat Nat.add paginatedInvoices].
  rewrite app_nil_r, take_take_drop. f_equal. lia.
Qed.

Lemma totalPages_ceil {A : Type} (xs : list A) :
  length xs <= totalPages xs * itemsPerPage /\
  totalPages xs * itemsPerPage < length xs + itemsPerPage.
Proof.
  unfold totalPages, itemsPerPage. cbn [Nat.sub].
  pose proof (Nat.div_mod_eq (length xs + 19) 20) as E.
  pose proof (Nat.mod_upper_bound (length xs + 19) 20). lia.
Qed.

(** X20.  The pages of the invoice table, taken from page 1 to the last
    page, make up the sorted list: no invoice is shown twice and none is
    left out.  A page holds at most 20 invoices; every page from 1 to the
    last holds at least one; and a current page beyond the last, or the
    page 0, shows no invoice.  The pager is not rendered when the list
    fits on one page, so that a current page that was left beyond the
    first when the list shrank to 20 invoices or fewer shows an empty
    table without a way to page back. *)
Theorem pages_partition {A : Type} (sortedInvoices : list A) :
  concat (map (paginatedInvoices sortedInvoices) (seq 1 (totalPages sortedInvoices)))
    = sortedInvoices /\
  (forall currentPage,
     length (paginatedInvoices sortedInvoices currentPage) <= 20) /\
  (forall currentPage, 1 <= currentPage <= totalPages sortedInvoices ->
     paginatedInvoices sortedInvoices currentPage <> []) /\
  (forall currentPage, currentPage = 0 \/ totalPages sortedInvoices < currentPage ->
     paginatedInvoices sortedInvoices currentPage = []) /\
  (length sortedInvoices <= 20 ->
   pager_shown sortedInvoices = false /\
   forall currentPage, 1 < currentPage ->
     paginatedInvoices sortedInvoices currentPage = []).
Proof.
  pose proof (totalPages_ceil sortedInvoices) as [Hc1 Hc2].
  assert (Hlen : forall before,
            length (paginatedInvoices sortedInvoices (S before)) =
            min itemsPerPage (length sortedInvoices - before * itemsPerPage)).
  { intros before. cbn [paginatedInvoices]. by rewrite length_take, length_drop. }
  assert (Hbeyond : forall currentPage,
            currentPage = 0 \/ totalPages sortedInvoices < currentPage ->
            paginatedInvoices sortedInvoices currentPage = []).
  { intros [|before] Hp; [reflexivity|]. apply length_zero_iff_nil.
    rewrite Hlen. unfold itemsPerPage in *. destruct Hp as [Hp|Hp]; [discriminate|]. nia. }
  split; [|split; [|split; [|split]]].
  - rewrite pages_concat. apply take_ge. exact Hc1.
  - intros [|before]; [cbn; lia|]. rewrite Hlen. unfold itemsPerPage. lia.
  - intros [|before] Hp; [lia|]. intros Hnil.
    apply (f_equal (@length A)) in Hnil. rewrite Hlen in Hnil. cbn [length] in Hnil.
    unfold itemsPerPage in *. nia.
  - exact Hbeyond.
  - intros Hfit.
    assert (Hone : totalPages sortedInvoices <= 1) by (unfold itemsPerPage in *; nia).
    split.
    + unfold pager_shown. apply Nat.ltb_ge. exact Hone.
    + intros currentPage Hp. apply Hbeyond. right. lia.
Qed.

(** Forty-five invoices: pages of 20, 20 and 5.  Five invoices seen
    from page 2: nothing, and no pager. *)
Lemma pages_partition_witness :
  map (fun p => length (paginatedInvoices (seq 0 45) p)) (seq 1 (totalPages (seq 0 45)))
    = [20; 20; 5] /\
  pager_shown (seq 0 5) = false /\ paginatedInvoices (seq 0 5) 2 = [].
Proof.
  split; [reflexivity|].
  destruct (pages_partition (seq 0 5)) as (_ & _ & _ & _ & Hfit).
  destruct Hfit as [Hpager Hempty]; [vm_compute; lia|].
  split; [exact Hpager | apply Hempty; lia].
Defined.

Lemma split_nonempty (sep : ascii) (s : string) : split sep s <> [].
Proof.
  destruct s as [|c r]; cbn [split]; [discriminate|].
  destruct (Ascii.eqb c sep); [discriminate|]. destruct (split sep r); discriminate.
Qed.

Lemma last_cons_nonempty {A : Type} (x d : A) (xs : list A) :
  xs <> [] -> List.last (x :: xs) d = List.last xs d.
Proof. destruct xs; [congruence | reflexivity]. Qed.

Lemma split_no_sep (s : string) : no_slash s = true -> split (chr 47) s = [s].
Proof.
  unfold no_slash. induction s as [|c r IH]; [reflexivity|].
  cbn [list_ascii_of_string forallb split]. intros H.
  apply andb_true_iff in H as [Hc Hr]. apply negb_true_iff in Hc.
  rewrite Hc, (IH Hr). reflexivity.
Qed.

(** The part after the last separator is the last part of the whole. *)
Lemma last_split_app (dir rest : string) :
  exists parts,
    parts <> [] /\
    split (chr 47) (dir ++ String (chr 47) rest) = parts ++ split (chr 47) rest.
Proof.
  induction dir as [|c r (parts & Hne & IH)].
  - exists [EmptyString]. split; [discriminate|]. rewrite append_nil_l. reflexivity.
  - rewrite append_cons. cbn [split]. rewrite IH.
    destruct (Ascii.eqb c (chr 47)).
    + exists (EmptyString :: parts). split; [discriminate | reflexivity].
    + destruct parts as [|p ps]; [congruence|]. cbn [app].
      exists (String c p :: ps). split; [discriminate | reflexivity].
Qed.

Lemma last_app_nonempty {A : Type} (xs ys : list A) (d : A) :
  ys <> [] -> List.last (xs ++ ys) d = List.last ys d.
Proof.
  intros Hne. induction xs as [|x xs IH]; [reflexivity|].
  cbn [app]. rewrite last_cons_nonempty; [exact IH|].
  destruct xs; [exact Hne | discriminate].
Qed.

(** X21.  The name shown for a stored file is the part of its path
    after the last slash: for a path made of a folder, a slash and a name
    that is not empty and holds no slash, [getFileName] returns that name.
    A path without a slash is returned whole, and so is a path that ends
    in a slash, since the empty last part counts as missing. *)
Theorem getFileName_last_part (dir name : string) :
  no_slash name = true ->
  (name <> EmptyString -> getFileName (dir ++ "/" ++ name) = name) /\
  getFileName name = name /\
  getFileName (dir ++ "/") = (dir ++ "/")%string.
Proof.
  intros Hname. unfold getFileName.
  assert (Hlast : forall rest, no_slash rest = true ->
            List.last (split (chr 47) (dir ++ String (chr 47) rest)) EmptyString = rest).
  { intros rest Hrest. destruct (last_split_app dir rest) as (parts & _ & ->).
    rewrite last_app_nonempty by apply split_nonempty.
    by rewrite (split_no_sep rest Hrest). }
  split; [|split].
  - intros Hne. change ("/" ++ name)%string with (String (chr 47) name).
    rewrite (Hlast name Hname). destruct name; [congruence | reflexivity].
  - rewrite (split_no_sep name Hname). cbn [List.last]. by destruct name.
  - change "/" with (String (chr 47) EmptyString). by rewrite (Hlast EmptyString eq_refl).
Qed.

(** The path of an uploaded file. *)
Lemma getFileName_last_part_witness :
  getFileName "user-files/eu-west-1:abc/1700-invoices.csv" = "1700-invoices.csv".
Proof.
  apply (proj1 (getFileName_last_part "user-files/eu-west-1:abc" "1700-invoices.csv"
                  eq_refl)).
  discriminate.
Defined.

End ViewerMore.
